(** * Scrollable multichannel plot: the loader, the chart builder and the exporter

    A shallow embedding of [main.py].  The program is glue around pandas and
    plotly, so the embedding has two layers:

    - the library layer: the pandas operations the program calls ([to_numeric],
      [dropna], [sort_values], column selection, [iloc], [reset_index]) written
      over a column-oriented [DataFrame] whose cells are binary64 numbers
      ([NaN] is the missing value, as in pandas), int64 integers or text.
      What the libraries decide on their own (the CSV parser, the
      text-to-number parsers, the order [argsort] gives to equal keys, float
      formatting, the renderers) is a [Variable] of a [Section]; a theorem
      that needs the library's documented contract takes it as a premise
      ([argsort_permutes], [argsort_ascending]);
    - the program layer: [load_data], [create_plot], [add_zoom_controls] and
      [save_plot], statement by statement, in a state-and-exception monad.

    The first part defines the program and the predicates its contracts are
    stated with; the second part proves the contracts. *)

From Stdlib Require Import String Ascii List ZArith Lia Bool Arith.
From Stdlib Require Import Permutation Sorted DecimalString.
From Stdlib Require Import Floats.
Import ListNotations.

Set Implicit Arguments.
Set Default Proof Using "Type".
(* Decimal literals denote the nearest binary64 value, as they do in Python. *)
Set Warnings "-inexact-float".

(** * The program

    ** Binary64 order

    The order of the keys of a float64 column; [dropna] tests for [NaN]. *)

Definition fle (x y : float) : bool := (x <=? y)%float.
Definition notnan (x : float) : bool := negb (is_nan x).

(** ** Exceptions and the state-and-exception monad *)

Inductive exn : Type :=
| ValueError (msg : string)
| KeyError (key : string)
| TypeError (msg : string)
| FileNotFoundError (path : string)
| FileExistsError (path : string)
| NotADirectoryError (path : string)
| ParserError (msg : string).

(** [str(e)]: the message; for a [KeyError] the key in quotes, for an
    operating-system error the error number, its text and the path in
    quotes. *)
Definition exn_str (e : exn) : string :=
  match e with
  | ValueError m | TypeError m | ParserError m => m
  | KeyError key => ("'" ++ key ++ "'")%string
  | FileNotFoundError path => ("[Errno 2] No such file or directory: '" ++ path ++ "'")%string
  | FileExistsError path => ("[Errno 17] File exists: '" ++ path ++ "'")%string
  | NotADirectoryError path => ("[Errno 20] Not a directory: '" ++ path ++ "'")%string
  end.

Inductive result (A : Type) : Type :=
| Ok (a : A)
| Raise (e : exn).
Arguments Ok {A} a.
Arguments Raise {A} e.

(** A computation over a mutable state [S] that returns or raises.  The
    state survives a raise: what was mutated before stays mutated. *)
Definition M (S A : Type) : Type := S -> result A * S.

Definition ret {S A} (a : A) : M S A := fun s => (Ok a, s).
Definition bind {S A B} (m : M S A) (k : A -> M S B) : M S B :=
  fun s => match m s with
           | (Ok a, s') => k a s'
           | (Raise e, s') => (Raise e, s')
           end.
Definition lift {S A} (r : result A) : M S A := fun s => (r, s).

(** [try: body except Exception as e: handler e] *)
Definition try_except {S A} (body : M S A) (handler : exn -> M S A) : M S A :=
  fun s => match body s with
           | (Ok a, s') => (Ok a, s')
           | (Raise e, s') => handler e s'
           end.

Declare Scope monad_scope.
Delimit Scope monad_scope with monad.
Notation "x <- m ;; k" := (bind m (fun x => k))
  (at level 61, m at next level, right associativity) : monad_scope.
Notation "m ;; k" := (bind m (fun _ => k))
  (at level 61, right associativity) : monad_scope.
Open Scope monad_scope.

(** Sequencing inside pure library calls that may raise. *)
Definition rbind {A B} (r : result A) (k : A -> result B) : result B :=
  match r with Ok a => k a | Raise e => Raise e end.

Fixpoint mapM_result {A B} (f : A -> result B) (l : list A) : result (list B) :=
  match l with
  | [] => Ok []
  | x :: l' => rbind (f x) (fun y => rbind (mapM_result f l') (fun ys => Ok (y :: ys)))
  end.

(** ** Tables *)

(** A cell as [read_csv] leaves it, by the type of its column: a binary64
    number in a float64 column ([NaN] for an empty field), an integer in an
    int64 column, and in a column that did not parse as numbers (object) the
    field's text, or [NaN] for an empty field.  A column of pandas has one
    type, so its cells are all [Int], all [Num], or text with [NaN]s; a
    column of numbers in which both [Int] and [Num] occur is read as the
    float64 column of their values.  An [Int] is taken to be within the
    int64 range.  Columns of the other types [read_csv] can infer
    (booleans, integers beyond int64) are outside the model. *)
Inductive cell : Type :=
| Num (x : float)
| Int (z : Z)
| Str (s : string).

Definition isna (c : cell) : bool :=
  match c with Num x => is_nan x | Int _ => false | Str _ => false end.
Definition notna (c : cell) : bool := negb (isna c).

Definition is_num (c : cell) : Prop :=
  match c with Num _ => True | Int _ => True | Str _ => False end.
Definition is_int (c : cell) : Prop :=
  match c with Int _ => True | _ => False end.
Definition is_float (c : cell) : Prop :=
  match c with Num _ => True | _ => False end.
Definition is_text (c : cell) : bool :=
  match c with Str _ => true | _ => false end.

(** The binary64 value nearest to an integer (ties to even), as numpy
    converts int64 to float64. *)
Definition float_of_Z (z : Z) : float := SF2Prim (binary_normalize prec emax z 0 false).

(** The binary64 value of a number; text has none. *)
Definition key_of (c : cell) : float :=
  match c with Num x => x | Int z => float_of_Z z | Str _ => nan end.

(** The order and the equality of two values of one numeric column:
    integers as integers, floats as floats. *)
Definition cell_le (a b : cell) : bool :=
  match a, b with
  | Int x, Int y => (x <=? y)%Z
  | _, _ => fle (key_of a) (key_of b)
  end.
Definition cell_eqb (a b : cell) : bool :=
  match a, b with
  | Int x, Int y => (x =? y)%Z
  | _, _ => (key_of a =? key_of b)%float
  end.

(** A column of one numeric type. *)
Definition uniform (col : list cell) : Prop := Forall is_int col \/ Forall is_float col.

(** Column-oriented, as pandas stores it: the row labels and the named
    columns in header order.  [read_csv] makes header names distinct (a second
    [x] is renamed [x.1]), so a name denotes one column. *)
Record DataFrame : Type := mkDataFrame {
  index : list nat;
  data : list (string * list cell)
}.

Definition columns (df : DataFrame) : list string := map fst (data df).
Definition nrows (df : DataFrame) : nat := length (index df).
Definition ncols (df : DataFrame) : nat := length (data df).

(** [name in names] *)
Definition contains (name : string) (names : list string) : bool :=
  existsb (String.eqb name) names.

Fixpoint lookup {V} (k : string) (l : list (string * V)) : option V :=
  match l with
  | [] => None
  | (k', v) :: l' => if String.eqb k k' then Some v else lookup k l'
  end.

(** [df[name]] *)
Definition getitem (df : DataFrame) (name : string) : result (list cell) :=
  match lookup name (data df) with
  | Some col => Ok col
  | None => Raise (KeyError name)
  end.

(** [df[name] = col]: overwrite in place when the name exists, append as the
    last column otherwise.  Every use assigns a column computed from a column
    of the same table, so lengths and labels agree. *)
Definition setitem (df : DataFrame) (name : string) (col : list cell) : DataFrame :=
  {| index := index df;
     data := if contains name (columns df)
             then map (fun nc => if String.eqb name (fst nc) then (fst nc, col) else nc) (data df)
             else data df ++ [(name, col)] |}.

(** [df[names]]: the listed columns, in the listed order. *)
Definition getitem_list (df : DataFrame) (names : list string) : result DataFrame :=
  rbind (mapM_result (fun n => rbind (getitem df n) (fun col => Ok (n, col))) names)
        (fun cols => Ok {| index := index df; data := cols |}).

(** A row operation acts on the labels and on every column alike. *)
Definition map_rows (f : forall A : Type, list A -> list A) (df : DataFrame) : DataFrame :=
  {| index := f nat (index df);
     data := map (fun nc => (fst nc, f cell (snd nc))) (data df) |}.

(** Boolean-mask selection. *)
Fixpoint filter_mask {A} (mask : list bool) (l : list A) : list A :=
  match mask, l with
  | b :: mask', x :: l' => if b then x :: filter_mask mask' l' else filter_mask mask' l'
  | _, _ => []
  end.

(** Positional [take]: the elements at the given positions, in that order.
    The positions come from [argsort] and are in range. *)
Fixpoint take {A} (positions : list nat) (l : list A) : list A :=
  match positions with
  | [] => []
  | i :: rest =>
      match nth_error l i with
      | Some x => x :: take rest l
      | None => take rest l
      end
  end.

(** The slice [[::step]]: position 0, then every [step]-th element.
    [skip] counts the elements still to pass over. *)
Fixpoint stride_from {A} (step skip : nat) (l : list A) : list A :=
  match l with
  | [] => []
  | x :: l' =>
      match skip with
      | 0 => x :: stride_from step (step - 1) l'
      | S skip' => stride_from step skip' l'
      end
  end.

Definition slice_step {A} (step : nat) (l : list A) : list A := stride_from step 0 l.

(** [df.iloc[::step]] *)
Definition iloc_step (step : nat) (df : DataFrame) : DataFrame :=
  map_rows (fun A => slice_step step) df.

(** [df.reset_index(drop=True)] *)
Definition reset_index (df : DataFrame) : DataFrame :=
  {| index := seq 0 (nrows df); data := data df |}.

(** [df.dropna(subset=[name])] *)
Definition dropna (name : string) (df : DataFrame) : result DataFrame :=
  rbind (getitem df name)
        (fun col => Ok (map_rows (fun A => filter_mask (map notna col)) df)).

(** Row [i] of a table, column by column. *)
Definition row_at (df : DataFrame) (i : nat) : list (option cell) :=
  map (fun nc => nth_error (snd nc) i) (data df).

(** [Series.min()] and [Series.max()], which skip [NaN]; [NaN] when nothing
    is left. *)
Definition series_min (col : list cell) : float :=
  fold_left (fun acc c =>
               let x := key_of c in
               if is_nan x then acc
               else if is_nan acc then x
               else if (x <? acc)%float then x else acc) col nan.

Definition series_max (col : list cell) : float :=
  fold_left (fun acc c =>
               let x := key_of c in
               if is_nan x then acc
               else if is_nan acc then x
               else if (acc <? x)%float then x else acc) col nan.

(** ** The process state *)

(** Files by path (text content) and what was printed, oldest line first. *)
Record World : Type := mkWorld {
  files : list (string * string);
  stdout : list string
}.

Definition print {A} (lens : A -> World) (upd : World -> A -> A) (line : string) : M A unit :=
  fun s => (Ok tt, upd {| files := files (lens s); stdout := stdout (lens s) ++ [line] |} s).

Definition println (line : string) : M World unit :=
  print (fun w => w) (fun w _ => w) line.

Definition str_of_nat (n : nat) : string := NilZero.string_of_uint (Nat.to_uint n).
Definition str_of_Z (z : Z) : string := NilZero.string_of_int (Z.to_int z).

(** ** The loader *)

Section Loader.

(** What pandas decides on its own. *)

(** [pd.read_csv(text, comment='#')] on a file's text. *)
Variable parse_csv : string -> result DataFrame.
(** The text-to-number conversions of [pd.to_numeric(..., errors='coerce')]:
    the integer a field denotes when it is written as an integer of the
    int64 range, and the binary64 value of a field, [NaN] for text that is
    not a number. *)
Variable str_to_int : string -> option Z.
Variable str_to_float : string -> float.
(** [numpy.argsort] on the values of a column, as [sort_values] calls it
    (default [kind='quicksort']): the positions of the values in ascending
    order. *)
Variable argsort : list cell -> list nat.
(** Python's [format(x, '.3f')]. *)
Variable format_3f : float -> string.

(** The documented contract of [argsort]: a rearrangement of the positions
    that puts the values of an int64 column, or the [NaN]-free values of a
    float64 column, in ascending order.  Nothing is promised about the order
    of equal values. *)
Definition argsort_permutes : Prop :=
  forall keys, Permutation (argsort keys) (seq 0 (length keys)).
Definition argsort_ascending : Prop :=
  forall keys, uniform keys -> Forall (fun c => notna c = true) keys ->
               StronglySorted (fun a b => cell_le a b = true) (take (argsort keys) keys).

Definition read_csv (filepath : string) : M World DataFrame :=
  fun w => match lookup filepath (files w) with
           | Some text => (parse_csv text, w)
           | None => (Raise (FileNotFoundError filepath), w)
           end.

(** [pd.to_numeric(col, errors='coerce')].  A column of numbers is left as
    it is.  In a column with text every field is converted; the result is an
    int64 column when every cell is an integer, and otherwise a float64
    column in which a field that is not a number is [NaN]. *)
Definition to_int_cell (c : cell) : option Z :=
  match c with
  | Int z => Some z
  | Str s => str_to_int s
  | Num _ => None
  end.
Definition to_float_cell (c : cell) : cell :=
  match c with
  | Num x => Num x
  | Int z => Num (float_of_Z z)
  | Str s => Num (str_to_float s)
  end.
Fixpoint all_ints (col : list cell) : option (list Z) :=
  match col with
  | [] => Some []
  | c :: col' =>
      match to_int_cell c, all_ints col' with
      | Some z, Some zs => Some (z :: zs)
      | _, _ => None
      end
  end.
Definition to_numeric (col : list cell) : list cell :=
  match all_ints col with
  | Some zs => map Int zs
  | None => map to_float_cell col
  end.

(** [df.sort_values(name)] *)
Definition sort_values (name : string) (df : DataFrame) : result DataFrame :=
  rbind (getitem df name)
        (fun col => Ok (map_rows (fun A => take (argsort col)) df)).

Definition ignore_cols : list string :=
  ["X3:"; "Trigger"; "Time_Offset"; "ADC_Status"; "ADC_Sequence"; "Event"; "Comments"]%string.

(** [for c in df.columns: if c != 'Time': df[c] = pd.to_numeric(df[c], errors='coerce')] *)
Fixpoint coerce_columns (names : list string) (df : DataFrame) : result DataFrame :=
  match names with
  | [] => Ok df
  | c :: names' =>
      if negb (String.eqb c "Time")
      then rbind (getitem df c) (fun col => coerce_columns names' (setitem df c (to_numeric col)))
      else coerce_columns names' df
  end.

(** Lines 17-29 of [load_data], from the parsed table to the table the
    decimation test receives: the [Time] check, [Time] coerced, rows without
    a [Time] dropped, rows sorted, ignored columns removed, the other columns
    coerced. *)
Definition clean (df : DataFrame) : result DataFrame :=
  if negb (contains "Time" (columns df))
  then Raise (ValueError "Expected a 'Time' column (seconds).")
  else
    rbind (getitem df "Time") (fun time =>
    let df := setitem df "Time" (to_numeric time) in
    rbind (dropna "Time" df) (fun df =>
    rbind (sort_values "Time" df) (fun df =>
    rbind (getitem_list df (filter (fun c => negb (contains c ignore_cols)) (columns df))) (fun df =>
    coerce_columns (columns df) df)))).

Definition load_data (filepath : string) (step : Z) : M World DataFrame :=
  println ("Loading data from: " ++ filepath) ;;
  df <- read_csv filepath ;;
  df <- lift (clean df) ;;
  df <- (if (step >? 1)%Z
         then let df := iloc_step (Z.to_nat step) df in
              println ("Downsampled by factor " ++ str_of_Z step) ;;
              ret df
         else ret df) ;;
  println "Data loaded successfully!" ;;
  println ("Shape: (" ++ str_of_nat (nrows df) ++ ", " ++ str_of_nat (ncols df) ++ ")") ;;
  time <- lift (getitem df "Time") ;;
  println ("Time range: " ++ format_3f (series_min time) ++ "s to "
                          ++ format_3f (series_max time) ++ "s") ;;
  ret (reset_index df).

(** ** Views of the loader's work, for stating its contract *)

(** The rows the loader keeps and the order it puts them in, both decided
    by the [Time] column alone. *)
Definition converted_time (raw : DataFrame) : list cell :=
  match lookup "Time" (data raw) with
  | Some time => to_numeric time
  | None => []
  end.
Definition time_mask (raw : DataFrame) : list bool := map notna (converted_time raw).
Definition time_order (raw : DataFrame) : list nat :=
  argsort (filter_mask (time_mask raw) (converted_time raw)).
Definition arrange (raw : DataFrame) {A} (l : list A) : list A :=
  take (time_order raw) (filter_mask (time_mask raw) l).

(** A column name outside the ignore set. *)
Definition kept (c : string) : bool := negb (contains c ignore_cols).

(** The file at [path] exists and parses to the table [raw]. *)
Definition reads (w : World) (path : string) (raw : DataFrame) : Prop :=
  exists text, lookup path (files w) = Some text /\ parse_csv text = Ok raw.

(** Lines 31-32 of [load_data]: the table after the decimation test. *)
Definition decimated (step : Z) (df : DataFrame) : DataFrame :=
  if (step >? 1)%Z then iloc_step (Z.to_nat step) df else df.

(** What the decimation test does to one column. *)
Definition thinned (step : Z) {A} (l : list A) : list A :=
  if (step >? 1)%Z then slice_step (Z.to_nat step) l else l.

End Loader.

(** ** The chart builder *)

(** One [go.Scatter] / [go.Scattergl] trace and where [add_trace] puts it. *)
Record Trace : Type := mkTrace {
  tr_webgl : bool;
  tr_x : list cell;
  tr_y : list cell;
  tr_name : string;
  tr_color : string;
  tr_width : float;
  tr_dash : option string;
  tr_opacity : option float;
  tr_hovertemplate : string;
  tr_legendgroup : string;
  tr_row : nat;
  tr_secondary_y : bool
}.

(** The figure: its traces and the layout entries that depend on the call.
    The constant layout (size, margins, legend box, range slider and its
    5s/10s/30s/1m/All buttons) is the same for every figure and is left out. *)
Record Figure : Type := mkFigure {
  fig_traces : list Trace;
  fig_title : string;
  fig_subplot_titles : string * string;
  fig_ecg_axis_title : string;
  fig_cm_axis_title : string;
  fig_ecg_range : option (float * float);
  fig_xrange : option (float * float);
  fig_modebar_add : list string
}.

Definition eeg_channels : list string :=
  ["P3"; "C3"; "F3"; "Fz"; "F4"; "C4"; "P4"; "Cz"; "A1"; "Fp1"; "Fp2";
   "T3"; "T5"; "O1"; "O2"; "F7"; "F8"; "A2"; "T6"; "T4"; "Pz"]%string.
Definition ecg_channels : list string := ["X1:LEOG"; "X2:REOG"]%string.
Definition cm_channels : list string := ["CM"]%string.

Definition colors : list string :=
  ["#1f77b4"; "#ff7f0e"; "#2ca02c"; "#d62728"; "#9467bd"; "#8c564b";
   "#e377c2"; "#7f7f7f"; "#bcbd22"; "#17becf"; "#aec7e8"; "#ffbb78";
   "#98df8a"; "#ff9896"; "#c5b0d5"; "#c49c94"; "#f7b6d3"; "#c7c7c7";
   "#dbdb8d"; "#9edae5"; "#ad494a"]%string.

(** [colors[i % len(colors)]] *)
Definition color_at (i : nat) : string := nth (i mod length colors) colors ""%string.

(** [f'{ch}_mV'] *)
Definition mv_name (ch : string) : string := (ch ++ "_mV")%string.

(** [col / d], element by element; text cannot be divided. *)
Definition div_cell (d : float) (c : cell) : result cell :=
  match c with
  | Num x => Ok (Num (x / d)%float)
  | Int z => Ok (Num (float_of_Z z / d)%float)
  | Str _ => Raise (TypeError "unsupported operand type(s) for /: 'str' and 'float'")
  end.
Definition series_div (col : list cell) (d : float) : result (list cell) :=
  mapM_result (div_cell d) col.

(** [ndarray.min()] and [ndarray.max()]: [NaN] wins, and an empty array has
    no minimum. *)
Definition np_min (xs : list float) : result float :=
  match xs with
  | [] => Raise (ValueError "zero-size array to reduction operation minimum which has no identity")
  | x :: xs' =>
      Ok (fold_left (fun acc v => if is_nan acc then acc
                                  else if is_nan v then v
                                  else if (v <? acc)%float then v else acc) xs' x)
  end.
Definition np_max (xs : list float) : result float :=
  match xs with
  | [] => Raise (ValueError "zero-size array to reduction operation maximum which has no identity")
  | x :: xs' =>
      Ok (fold_left (fun acc v => if is_nan acc then acc
                                  else if is_nan v then v
                                  else if (acc <? v)%float then v else acc) xs' x)
  end.

(** The same on an int64 array. *)
Definition np_min_int (zs : list Z) : result Z :=
  match zs with
  | [] => Raise (ValueError "zero-size array to reduction operation minimum which has no identity")
  | z :: zs' => Ok (fold_left Z.min zs' z)
  end.
Definition np_max_int (zs : list Z) : result Z :=
  match zs with
  | [] => Raise (ValueError "zero-size array to reduction operation maximum which has no identity")
  | z :: zs' => Ok (fold_left Z.max zs' z)
  end.

(** Arithmetic on int64 scalars wraps around. *)
Definition wrap_int64 (z : Z) : Z := ((z + 2 ^ 63) mod 2 ^ 64 - 2 ^ 63)%Z.

(** [df[cols].values]: one array of the common type of the columns, int64
    when all of them are, float64 when all are numeric, and an array of
    Python objects when one of them holds text. *)
Inductive ndarray : Type :=
| IntArray (zs : list Z)
| FloatArray (xs : list float)
| ObjectArray.

Fixpoint int_values (cells : list cell) : option (list Z) :=
  match cells with
  | [] => Some []
  | Int z :: rest => option_map (cons z) (int_values rest)
  | _ :: _ => None
  end.

Definition values (cols : list (list cell)) : ndarray :=
  let cells := concat cols in
  if existsb is_text cells then ObjectArray
  else match int_values cells with
       | Some zs => IntArray zs
       | None => FloatArray (map key_of cells)
       end.

(** Lines 227-229: the extent of the array, widened at each end by a tenth
    of [max - min].  On an int64 array minimum and maximum are int64 scalars
    and their difference is taken in int64; the product with [0.1] and the
    two bounds are binary64.  On an array with text the reduction or the
    difference raises [TypeError]; the message given is that of an array of
    text only. *)
Definition padded_extent (ecg_data : ndarray) : result (float * float) :=
  match ecg_data with
  | IntArray zs =>
      rbind (np_min_int zs) (fun ecg_min =>
      rbind (np_max_int zs) (fun ecg_max =>
      let ecg_padding := (float_of_Z (wrap_int64 (ecg_max - ecg_min)) * 0.1)%float in
      Ok ((float_of_Z ecg_min - ecg_padding)%float, (float_of_Z ecg_max + ecg_padding)%float)))
  | FloatArray xs =>
      rbind (np_min xs) (fun ecg_min =>
      rbind (np_max xs) (fun ecg_max =>
      let ecg_padding := ((ecg_max - ecg_min) * 0.1)%float in
      Ok ((ecg_min - ecg_padding)%float, (ecg_max + ecg_padding)%float)))
  | ObjectArray => Raise (TypeError "unsupported operand type(s) for -: 'str' and 'str'")
  end.

Fixpoint forM_ {S A} (l : list A) (f : A -> M S unit) : M S unit :=
  match l with
  | [] => ret tt
  | x :: l' => f x ;; forM_ l' f
  end.

Fixpoint mapM {S A B} (f : A -> M S B) (l : list A) : M S (list B) :=
  match l with
  | [] => ret []
  | x :: l' => y <- f x ;; ys <- mapM f l' ;; ret (y :: ys)
  end.

(** [enumerate(l)] *)
Definition enumerate {A} (l : list A) : list (nat * A) := combine (seq 0 (length l)) l.

(** The state [create_plot] runs in: the caller's table, which it receives
    by reference and assigns into, and the process state. *)
Definition PlotState : Type := (DataFrame * World)%type.

Definition echo (line : string) : M PlotState unit :=
  print snd (fun w s => (fst s, w)) line.
Definition column (name : string) : M PlotState (list cell) :=
  fun s => (getitem (fst s) name, s).
Definition assign (name : string) (col : list cell) : M PlotState unit :=
  fun s => (Ok tt, (setitem (fst s) name col, snd s)).
Definition table : M PlotState DataFrame := fun s => (Ok (fst s), s).

Section Chart.

(** Python's [str] of a list of names, as an f-string prints it. *)
Variable repr_names : list string -> string.

(** [[ch for ch in known if ch in df.columns]], then the same against
    [channels] when that list is given and not empty. *)
Definition available (known : list string) (channels : option (list string))
           (df : DataFrame) : list string :=
  let present := filter (fun ch => contains ch (columns df)) known in
  match channels with
  | Some (c :: cs) => filter (fun ch => contains ch (c :: cs)) present
  | _ => present
  end.

Definition hovertemplate (channel unit_label : string) : string :=
  ("<b>" ++ channel ++ "</b><br>" ++ "Time: %{x:.3f}s<br>"
   ++ "Value: %{y:.1f}" ++ unit_label ++ "<br>" ++ "<extra></extra>")%string.

Definition eeg_trace (webgl : bool) (ic : nat * string) : M PlotState Trace :=
  x <- column "Time" ;;
  y <- column (snd ic) ;;
  ret {| tr_webgl := webgl; tr_x := x; tr_y := y; tr_name := snd ic;
         tr_color := color_at (fst ic); tr_width := 0.8%float; tr_dash := None;
         tr_opacity := None; tr_hovertemplate := hovertemplate (snd ic) "uV";
         tr_legendgroup := "eeg"; tr_row := 1; tr_secondary_y := false |}.

Definition ecg_trace (webgl : bool) (unit_label : string)
           (icd : nat * (string * string)) : M PlotState Trace :=
  x <- column "Time" ;;
  y <- column (snd (snd icd)) ;;
  ret {| tr_webgl := webgl; tr_x := x; tr_y := y; tr_name := fst (snd icd);
         tr_color := color_at (fst icd); tr_width := 1.5%float; tr_dash := None;
         tr_opacity := Some 0.9%float;
         tr_hovertemplate := hovertemplate (fst (snd icd)) unit_label;
         tr_legendgroup := "ecg"; tr_row := 2; tr_secondary_y := false |}.

Definition cm_trace (webgl : bool) (unit_label : string)
           (icd : nat * (string * string)) : M PlotState Trace :=
  x <- column "Time" ;;
  y <- column (snd (snd icd)) ;;
  ret {| tr_webgl := webgl; tr_x := x; tr_y := y; tr_name := fst (snd icd);
         tr_color := "lightgray"; tr_width := 0.8%float; tr_dash := Some "dot"%string;
         tr_opacity := Some 0.6%float;
         tr_hovertemplate := hovertemplate (fst (snd icd)) unit_label;
         tr_legendgroup := "cm"; tr_row := 2; tr_secondary_y := true |}.

(** [df[f'{ch}_mV'] = df[ch] / 1000.0] *)
Definition add_mv_column (ch : string) : M PlotState unit :=
  col <- column ch ;;
  scaled <- lift (series_div col 1000%float) ;;
  assign (mv_name ch) scaled.

(** The padded y range of the ECG axis, from [df[ecg_data_cols].values]. *)
Definition ecg_axis_range (ecg_data_cols : list string) : M PlotState (float * float) :=
  cols <- mapM column ecg_data_cols ;;
  let ecg_data := values cols in
  lift (padded_extent ecg_data).

Definition nonempty {A} (l : list A) : bool :=
  match l with [] => false | _ :: _ => true end.

(** Lines 68-75: the ECG columns the traces will read, and their unit. *)
Definition convert_ecg (ecg_units : string) (available_ecg : list string)
  : M PlotState (list string * string) :=
  if String.eqb ecg_units "mv"
  then forM_ available_ecg add_mv_column ;;
       ret (map mv_name available_ecg, "mV"%string)
  else ret (available_ecg, "uV"%string).

(** Lines 78-84: the same for the CM reference channel. *)
Definition convert_cm (ecg_units : string) (available_cm : list string)
  : M PlotState (list string * string) :=
  if String.eqb ecg_units "mv" && nonempty available_cm
  then add_mv_column "CM" ;;
       ret (["CM_mV"%string], "mV"%string)
  else ret (available_cm, "uV"%string).

Definition create_plot (title ecg_units : string) (channels : option (list string))
           (initial_range : option (float * float)) : M PlotState Figure :=
  df <- table ;;
  let available_eeg := available eeg_channels channels df in
  let available_ecg := available ecg_channels channels df in
  let available_cm := available cm_channels channels df in
  echo ("Available EEG channels: " ++ repr_names available_eeg) ;;
  echo ("Available ECG channels: " ++ repr_names available_ecg) ;;
  echo ("Available CM channels: " ++ repr_names available_cm) ;;
  ecg <- convert_ecg ecg_units available_ecg ;;
  let ecg_data_cols := fst ecg in
  let ecg_unit_label := snd ecg in
  cm <- convert_cm ecg_units available_cm ;;
  let cm_data_cols := fst cm in
  let cm_unit_label := snd cm in
  df <- table ;;
  let webgl := (10000 <? Z.of_nat (nrows df))%Z in
  eeg_traces <- mapM (eeg_trace webgl) (enumerate available_eeg) ;;
  ecg_traces <- mapM (ecg_trace webgl ecg_unit_label)
                     (enumerate (combine available_ecg ecg_data_cols)) ;;
  cm_traces <- mapM (cm_trace webgl cm_unit_label)
                    (enumerate (combine available_cm cm_data_cols)) ;;
  ecg_range <- (if nonempty available_ecg && nonempty ecg_data_cols
                then r <- ecg_axis_range ecg_data_cols ;; ret (Some r)
                else ret None) ;;
  ret {| fig_traces := eeg_traces ++ ecg_traces ++ cm_traces;
         fig_title := title;
         fig_subplot_titles := ("EEG Channels (uV)"%string,
                                ("ECG and CM (" ++ ecg_unit_label ++ ")")%string);
         fig_ecg_axis_title := ("ECG (" ++ ecg_unit_label ++ ")")%string;
         fig_cm_axis_title := ("CM (" ++ cm_unit_label ++ ")")%string;
         fig_ecg_range := ecg_range;
         fig_xrange := initial_range;
         fig_modebar_add := [] |}.

End Chart.

Definition add_zoom_controls (fig : Figure) : Figure :=
  {| fig_traces := fig_traces fig;
     fig_title := fig_title fig;
     fig_subplot_titles := fig_subplot_titles fig;
     fig_ecg_axis_title := fig_ecg_axis_title fig;
     fig_cm_axis_title := fig_cm_axis_title fig;
     fig_ecg_range := fig_ecg_range fig;
     fig_xrange := fig_xrange fig;
     fig_modebar_add := ["zoom2d"; "pan2d"; "select2d"; "lasso2d"; "zoomIn2d";
                         "zoomOut2d"; "autoScale2d"; "resetScale2d"]%string |}.

(** ** The exporter *)

Section Exporter.

(** [fig.to_html(include_plotlyjs='cdn')] *)
Variable to_html : Figure -> string.
(** The static renderer behind [fig.write_image(path, width, height, scale)];
    the image format follows the path's suffix.  It raises when the optional
    rendering backend is not installed. *)
Variable render_image : Figure -> string -> Z -> Z -> option Z -> result string.

(** [os.path.join(dir, file)] for a relative [file]. *)
Definition ends_with_slash (s : string) : bool :=
  match String.get (String.length s - 1) s with
  | Some c => Ascii.eqb c "/"%char
  | None => false
  end.
Definition path_join (dir file : string) : string :=
  if ((dir =? "")%string || ends_with_slash dir)%bool
  then (dir ++ file)%string
  else (dir ++ "/" ++ file)%string.

(** The prefixes of a path that end where a component ends: [a], [a/b] and
    [a/b/c] for [a/b/c]. *)
Fixpoint component_prefixes (seen rest : string) : list string :=
  match rest with
  | EmptyString => if String.eqb seen "" then [] else [seen]
  | String c rest' =>
      let longer := component_prefixes (seen ++ String c "") rest' in
      if (Ascii.eqb c "/" && negb (String.eqb seen "") && negb (ends_with_slash seen))%bool
      then seen :: longer
      else longer
  end.

(** Walking down the components of a directory path: the first one that is
    a file stops the walk, with [FileExistsError] when it is the directory
    asked for and [NotADirectoryError] (on the next component) when it is one
    of its ancestors. *)
Fixpoint blocked_by_file (prefixes : list string) (store : list (string * string))
  : option exn :=
  match prefixes with
  | [] => None
  | p :: deeper =>
      match lookup p store with
      | Some _ => Some (match deeper with
                        | [] => FileExistsError p
                        | q :: _ => NotADirectoryError q
                        end)
      | None => blocked_by_file deeper store
      end
  end.

(** Why [os.makedirs(dir, exist_ok=True)] fails, if it does: the empty path
    names no directory, and a path through a file cannot be made.
    Permissions and the like are outside the flat file store. *)
Definition makedirs_error (dir : string) (w : World) : option exn :=
  if String.eqb dir "" then Some (FileNotFoundError "")
  else blocked_by_file (component_prefixes "" dir) (files w).

(** [os.makedirs(dir, exist_ok=True)]; the directories themselves are
    implicit in the paths of the flat file store. *)
Definition makedirs (dir : string) : M World unit :=
  fun w => match makedirs_error dir w with
           | Some e => (Raise e, w)
           | None => (Ok tt, w)
           end.

Definition write_file (path content : string) : M World unit :=
  fun w => (Ok tt, {| files := (path, content) :: files w; stdout := stdout w |}).

Definition write_html (fig : Figure) (path : string) : M World unit :=
  write_file path (to_html fig).

Definition write_image (fig : Figure) (path : string) (width height : Z)
           (scale : option Z) : M World unit :=
  image <- lift (render_image fig path width height scale) ;;
  write_file path image.

Definition save_plot (fig : Figure) (output_dir : string) : M World unit :=
  makedirs output_dir ;;
  let html_path := path_join output_dir "multichannel_plot.html" in
  write_html fig html_path ;;
  println ("Interactive plot saved to: " ++ html_path) ;;
  try_except
    (let png_path := path_join output_dir "multichannel_plot.png" in
     write_image fig png_path 1200%Z 800%Z (Some 2%Z) ;;
     println ("Static plot saved to: " ++ png_path) ;;
     let pdf_path := path_join output_dir "multichannel_plot.pdf" in
     write_image fig pdf_path 1200%Z 800%Z None ;;
     println ("PDF plot saved to: " ++ pdf_path))
    (fun e =>
       println ("Note: Static exports require 'kaleido'. Skipping PNG/PDF. Error: " ++ exn_str e) ;;
       println "To enable static exports, install: pip install --upgrade kaleido").

(** The exception the static export ends with, if any: the raster image is
    rendered first, the vector image only after it. *)
Definition static_failure (fig : Figure) (output_dir : string) : option exn :=
  match render_image fig (path_join output_dir "multichannel_plot.png") 1200%Z 800%Z (Some 2%Z) with
  | Raise e => Some e
  | Ok _ =>
      match render_image fig (path_join output_dir "multichannel_plot.pdf") 1200%Z 800%Z None with
      | Raise e => Some e
      | Ok _ => None
      end
  end.

End Exporter.

(** ** The command line *)

(** The arguments as [parser.parse_args()] returns them: [--channels] is
    absent or a list that may be empty, [--ecg-units] is one of [uv], [mv],
    [--initial-range] is absent or two floats. *)
Record Args : Type := mkArgs {
  arg_data : string;
  arg_title : string;
  arg_output : string;
  arg_show : bool;
  arg_channels : option (list string);
  arg_ecg_units : string;
  arg_step : Z;
  arg_initial_range : option (float * float)
}.

(** [str(e)] *)
Definition exception_text (e : exn) : string := exn_str e.

(** A call that passes the local table [df] by reference: the callee runs
    on the table and the process state; the caller keeps the process state. *)
Definition with_table {A} (df : DataFrame) (m : M PlotState A) : M World A :=
  fun w => (fst (m (df, w)), snd (snd (m (df, w)))).

Section Main.

Variable parse_csv : string -> result DataFrame.
Variable str_to_int : string -> option Z.
Variable str_to_float : string -> float.
Variable argsort : list cell -> list nat.
Variable format_3f : float -> string.
Variable repr_names : list string -> string.
Variable to_html : Figure -> string.
Variable render_image : Figure -> string -> Z -> Z -> option Z -> result string.
(** [fig.show()]: hands the figure to a browser. *)
Variable show : Figure -> M World unit.

Definition main (args : Args) : M World unit :=
  try_except
    (df <- load_data parse_csv str_to_int str_to_float argsort format_3f (arg_data args) (arg_step args) ;;
     println "Creating interactive plot..." ;;
     fig <- with_table df (create_plot repr_names (arg_title args) (arg_ecg_units args)
                                       (arg_channels args) (arg_initial_range args)) ;;
     let fig := add_zoom_controls fig in
     save_plot to_html render_image fig (arg_output args) ;;
     if arg_show args
     then println "Opening plot in browser..." ;;
          show fig
     else println "Plot created successfully! Use --show to view interactively.")
    (fun e =>
       match e with
       | FileNotFoundError _ =>
           println ("Error: Data file '" ++ arg_data args ++ "' not found.") ;;
           println "Please check the file path and try again."
       | _ =>
           println ("Error: " ++ exception_text e) ;;
           println "Please check your data format and try again."
       end).

End Main.

(** ** A reference sorter

    An insertion sort over positions, used to run the loader on small
    concrete tables.  It meets the contract of [argsort], and it is what
    numpy's quicksort does on seventeen keys or fewer ([aquicksort]
    below). *)

Definition key_at (keys : list cell) (i : nat) : cell := nth i keys (Num nan).

Fixpoint insert_position (keys : list cell) (i : nat) (sorted : list nat) : list nat :=
  match sorted with
  | [] => [i]
  | j :: rest =>
      if cell_le (key_at keys j) (key_at keys i)
      then j :: insert_position keys i rest
      else i :: j :: rest
  end.

Definition insertion_argsort (keys : list cell) : list nat :=
  fold_left (fun sorted i => insert_position keys i sorted) (seq 0 (length keys)) [].

(** ** numpy's quicksort

    [sort_values] with no [kind] sorts with [argsort(kind='quicksort')].
    This is that sort as numpy's portable implementation computes it
    ([aquicksort_] of [npysort/quicksort.cpp]), on the array of positions
    [tosort]: an introsort that partitions around the median of three while
    a range has more than seventeen positions, sorts a shorter range by
    insertion, and falls back on heapsort when the depth limit is used up.
    The loops of the C code are bounded here by the length of the array.
    Kernels that numpy may dispatch to on a particular processor are not
    modelled. *)

(** [Tag::less]: the order of the sort, in which [NaN] comes last. *)
Definition cell_lt (a b : cell) : bool :=
  match a, b with
  | Int x, Int y => (x <? y)%Z
  | _, _ => (key_of a <? key_of b)%float
            || (is_nan (key_of b) && negb (is_nan (key_of a)))
  end.

(** The array of positions [tosort], read and written by offset. *)
Definition peek (tosort : list nat) (p : nat) : nat := nth p tosort 0.

Fixpoint poke (tosort : list nat) (p : nat) (x : nat) : list nat :=
  match tosort, p with
  | [], _ => []
  | _ :: rest, 0 => x :: rest
  | y :: rest, S p' => y :: poke rest p' x
  end.

(** [INTP_SWAP]: exchange the positions held at [p] and [q]. *)
Definition intp_swap (tosort : list nat) (p q : nat) : list nat :=
  poke (poke tosort p (peek tosort q)) q (peek tosort p).

(** [Tag::less] on the keys of the positions held at [p] and [q]. *)
Definition less_at (v : list cell) (tosort : list nat) (p q : nat) : bool :=
  cell_lt (key_at v (peek tosort p)) (key_at v (peek tosort q)).

(** [npy_get_msb] *)
Fixpoint npy_get_msb_loop (fuel unum : nat) : nat :=
  match fuel with
  | 0 => 0
  | S fuel' => if unum / 2 =? 0 then 0 else S (npy_get_msb_loop fuel' (unum / 2))
  end.
Definition npy_get_msb (unum : nat) : nat := npy_get_msb_loop unum unum.

Definition SMALL_QUICKSORT : nat := 16.

(** [do ++pi while less(key at pi, vp)], entered after the increment. *)
Fixpoint scan_up (fuel : nat) (v : list cell) (tosort : list nat) (vp : cell) (pi : nat) : nat :=
  match fuel with
  | 0 => pi
  | S fuel' => if cell_lt (key_at v (peek tosort pi)) vp
               then scan_up fuel' v tosort vp (S pi) else pi
  end.

(** [do --pj while less(vp, key at pj)], entered after the decrement. *)
Fixpoint scan_down (fuel : nat) (v : list cell) (tosort : list nat) (vp : cell) (pj : nat) : nat :=
  match fuel with
  | 0 => pj
  | S fuel' => if cell_lt vp (key_at v (peek tosort pj))
               then scan_down fuel' v tosort vp (pred pj) else pj
  end.

(** The [for (;;)] of the partition: exchange until the scans meet. *)
Fixpoint exchange (fuel : nat) (v : list cell) (vp : cell) (tosort : list nat) (pi pj : nat)
  : list nat * nat :=
  match fuel with
  | 0 => (tosort, pi)
  | S fuel' =>
      let pi := scan_up (length tosort) v tosort vp (S pi) in
      let pj := scan_down (length tosort) v tosort vp (pred pj) in
      if pj <=? pi then (tosort, pi)
      else exchange fuel' v vp (intp_swap tosort pi pj) pi pj
  end.

(** One pass of the partition loop on [pl .. pr]: median of three, the
    pivot parked at [pr - 1], the exchanges, the pivot put in place at
    [pi]. *)
Definition partition (v : list cell) (tosort : list nat) (pl pr : nat) : list nat * nat :=
  let pm := pl + (pr - pl) / 2 in
  let tosort := if less_at v tosort pm pl then intp_swap tosort pm pl else tosort in
  let tosort := if less_at v tosort pr pm then intp_swap tosort pr pm else tosort in
  let tosort := if less_at v tosort pm pl then intp_swap tosort pm pl else tosort in
  let vp := key_at v (peek tosort pm) in
  let tosort := intp_swap tosort pm (pr - 1) in
  let '(tosort, pi) := exchange (length tosort) v vp tosort pl (pr - 1) in
  (intp_swap tosort pi (pr - 1), pi).

(** The inner [while] of the insertion sort: shift the greater positions up
    and drop [vi] in the gap. *)
Fixpoint shift_up (fuel : nat) (v : list cell) (tosort : list nat) (pl vi pj : nat) : list nat :=
  match fuel with
  | 0 => poke tosort pj vi
  | S fuel' =>
      if (pl <? pj) && cell_lt (key_at v vi) (key_at v (peek tosort (pj - 1)))
      then shift_up fuel' v (poke tosort pj (peek tosort (pj - 1))) pl vi (pj - 1)
      else poke tosort pj vi
  end.

(** Insertion sort of [pl .. pr]. *)
Definition insertion_sort (v : list cell) (tosort : list nat) (pl pr : nat) : list nat :=
  fold_left (fun tosort pi => shift_up (length tosort) v tosort pl (peek tosort pi) pi)
            (seq (S pl) (pr - pl)) tosort.

(** [aheapsort_] on the [n] positions from [pl] on; [a] is [tosort + pl - 1],
    so that [a[1]] is the first of them. *)
Definition heap_at (tosort : list nat) (pl i : nat) : nat := peek tosort (pl + i - 1).

Fixpoint sift_down (fuel : nat) (v : list cell) (tosort : list nat) (pl n tmp i j : nat)
  : list nat :=
  match fuel with
  | 0 => poke tosort (pl + i - 1) tmp
  | S fuel' =>
      if j <=? n then
        let j := if (j <? n) && cell_lt (key_at v (heap_at tosort pl j))
                                        (key_at v (heap_at tosort pl (j + 1)))
                 then j + 1 else j in
        if cell_lt (key_at v tmp) (key_at v (heap_at tosort pl j))
        then sift_down fuel' v (poke tosort (pl + i - 1) (heap_at tosort pl j)) pl n tmp j (j + j)
        else poke tosort (pl + i - 1) tmp
      else poke tosort (pl + i - 1) tmp
  end.

Definition aheapsort (v : list cell) (tosort : list nat) (pl n : nat) : list nat :=
  let tosort :=
    fold_left (fun tosort l => sift_down n v tosort pl n (heap_at tosort pl l) l (2 * l))
              (rev (seq 1 (n / 2))) tosort in
  fold_left (fun tosort n =>
               let tmp := heap_at tosort pl n in
               let tosort := poke tosort (pl + n - 1) (heap_at tosort pl 1) in
               sift_down n v tosort pl (n - 1) tmp 1 2)
            (rev (seq 2 (n - 1))) tosort.

(** The partition loop: while the range is longer than [SMALL_QUICKSORT],
    partition it, push the larger side with the new depth and go on with the
    smaller. *)
Fixpoint partition_loop (fuel : nat) (v : list cell) (tosort : list nat) (pl pr : nat)
         (cdepth : Z) (stack : list (nat * nat * Z))
  : list nat * nat * nat * list (nat * nat * Z) :=
  match fuel with
  | 0 => (tosort, pl, pr, stack)
  | S fuel' =>
      if SMALL_QUICKSORT <? pr - pl then
        let '(tosort, pi) := partition v tosort pl pr in
        if pi - pl <? pr - pi
        then partition_loop fuel' v tosort pl (pi - 1) (cdepth - 1)
                            ((pi + 1, pr, (cdepth - 1)%Z) :: stack)
        else partition_loop fuel' v tosort (pi + 1) pr (cdepth - 1)
                            ((pl, pi - 1, (cdepth - 1)%Z) :: stack)
      else (tosort, pl, pr, stack)
  end.

(** The outer loop: heapsort when the depth is used up, else partition and
    insertion sort; then the next range from the stack. *)
Fixpoint aquicksort_loop (fuel : nat) (v : list cell) (tosort : list nat) (pl pr : nat)
         (cdepth : Z) (stack : list (nat * nat * Z)) : list nat :=
  match fuel with
  | 0 => tosort
  | S fuel' =>
      let '(tosort, stack) :=
        if (cdepth <? 0)%Z then (aheapsort v tosort pl (pr - pl + 1), stack)
        else let '(tosort, pl, pr, stack) :=
               partition_loop (length tosort) v tosort pl pr cdepth stack in
             (insertion_sort v tosort pl pr, stack) in
      match stack with
      | [] => tosort
      | (pl, pr, cdepth) :: stack => aquicksort_loop fuel' v tosort pl pr cdepth stack
      end
  end.

(** [aquicksort_] *)
Definition aquicksort (v : list cell) : list nat :=
  let num := length v in
  aquicksort_loop (S num) v (seq 0 num) 0 (num - 1) (Z.of_nat (npy_get_msb num) * 2) [].

(** ** Predicates for the contracts *)

(** Ascending [Time]. *)
Definition time_le (a b : cell) : Prop := cell_le a b = true.

(** Ascending keys, on positions. *)
Definition position_le (keys : list cell) (a b : nat) : Prop :=
  cell_le (key_at keys a) (key_at keys b) = true.

(** A step whose final table is related to its initial table by [R],
    whether it returns or raises. *)
Definition preserves (R : DataFrame -> DataFrame -> Prop) {A} (m : M PlotState A) : Prop :=
  forall s, R (fst s) (fst (snd (m s))).

(** A step that reads the state and leaves all of it as it was. *)
Definition readonly {A} (m : M PlotState A) : Prop := forall s, snd (m s) = s.

(** The columns [create_plot] may write. *)
Definition derived_columns : list string := ["X1:LEOG_mV"; "X2:REOG_mV"; "CM_mV"]%string.

(** The second table is the first with derived columns added or rewritten
    and nothing else touched. *)
Definition adds_derived_only (df df' : DataFrame) : Prop :=
  index df' = index df /\
  (forall c, In c (columns df) -> In c (columns df')) /\
  (forall c, In c (columns df') -> In c (columns df) \/ In c derived_columns) /\
  (forall c, ~ In c derived_columns -> lookup c (data df') = lookup c (data df)).

(** Microvolts to millivolts. *)
Definition in_millivolts (col : list cell) : list cell :=
  map (fun c => Num (key_of c / 1000)%float) col.

(** What an ECG trace shows of a raw column in a unit mode. *)
Definition rendered_ecg (ecg_units : string) (col : list cell) : list cell :=
  if String.eqb ecg_units "mv" then in_millivolts col else col.

(** The column an ECG trace reads in a unit mode. *)
Definition ecg_data_col (ecg_units : string) (ch : string) : string :=
  if String.eqb ecg_units "mv" then mv_name ch else ch.

Definition is_ecg_trace (tr : Trace) : bool := String.eqb (tr_legendgroup tr) "ecg".

(** A table [create_plot] can chart: it has a [Time] column, and every
    column is numeric and has at least one row.  A table that [load_data]
    returned is numeric and has a [Time] column. *)
Definition plottable (df : DataFrame) : Prop :=
  (exists time, lookup "Time" (data df) = Some time) /\
  forall c col, lookup c (data df) = Some col -> Forall is_num col /\ col <> [].

(** Every column has one cell per row label, as in a table that [read_csv]
    parsed. *)
Definition rectangular (df : DataFrame) : Prop :=
  forall c col, lookup c (data df) = Some col -> length col = nrows df.

(** C4 as the spec states it: every column but [Time] holds floating-point
    values. *)
Definition coerced_to_float (table : DataFrame) : Prop :=
  forall c col, c <> "Time"%string -> getitem table c = Ok col -> Forall is_float col.

(** C5 as the spec states it: in the sorted table, two rows with equal
    [Time] stand in the order of their labels, which for a table fresh from
    [read_csv] are the input row numbers. *)
Definition ties_keep_input_order (cleaned : DataFrame) : Prop :=
  forall time i j ti tj li lj,
    getitem cleaned "Time" = Ok time ->
    i < j ->
    nth_error time i = Some ti -> nth_error time j = Some tj ->
    cell_eqb ti tj = true ->
    nth_error (index cleaned) i = Some li -> nth_error (index cleaned) j = Some lj ->
    li < lj.

Definition sort_is_stable (str_to_int : string -> option Z) (str_to_float : string -> float)
           (argsort : list cell -> list nat) : Prop :=
  forall raw cleaned,
    index raw = seq 0 (nrows raw) ->
    clean str_to_int str_to_float argsort raw = Ok cleaned ->
    ties_keep_input_order cleaned.

(** ** Further vocabulary: frames, traces and outcomes *)

(** A chart-building step that leaves the files alone. *)
Definition keeps_files {A} (m : M PlotState A) : Prop :=
  forall s, files (snd (snd (m s))) = files (snd s).

(** The process state in which [main] calls [create_plot]. *)
Definition before_chart (w1 : World) : World :=
  {| files := files w1; stdout := stdout w1 ++ ["Creating interactive plot..."%string] |}.

Definition is_eeg_trace (tr : Trace) : bool := String.eqb (tr_legendgroup tr) "eeg".

Definition is_cm_trace (tr : Trace) : bool := String.eqb (tr_legendgroup tr) "cm".

(** What a trace carries besides its y values. *)
Definition styled (df : DataFrame) (group name color : string) (row : nat)
           (secondary : bool) (tr : Trace) : Prop :=
  tr_legendgroup tr = group /\ tr_name tr = name /\ tr_color tr = color /\
  tr_row tr = row /\ tr_secondary_y tr = secondary /\
  getitem df "Time" = Ok (tr_x tr) /\
  tr_webgl tr = (10000 <? Z.of_nat (nrows df))%Z.

(** The channels a call charts: the names that are columns of the table,
    narrowed to [channels] when that is a list with an element. *)
Definition charted (channels : option (list string)) (df : DataFrame) (ch : string) : bool :=
  contains ch (columns df) &&
  match channels with
  | Some (c :: cs) => contains ch (c :: cs)
  | _ => true
  end.

(** Every cell of the table is a number, as in a table [load_data] returned. *)
Definition numeric (df : DataFrame) : Prop :=
  forall c col, lookup c (data df) = Some col -> Forall is_num col.

(** The charted ECG columns as the traces show them in a unit mode. *)
Definition ecg_rendered (ecg_units : string) (channels : option (list string))
           (df : DataFrame) : list (list cell) :=
  map (fun ch => match lookup ch (data df) with
                 | Some col => rendered_ecg ecg_units col
                 | None => []
                 end)
      (available ecg_channels channels df).

(** The values behind the ECG axis: the charted ECG columns, as rendered. *)
Definition ecg_samples (ecg_units : string) (channels : option (list string))
           (df : DataFrame) : list float :=
  flat_map (fun ch => match lookup ch (data df) with
                      | Some col => map key_of (rendered_ecg ecg_units col)
                      | None => []
                      end)
           (available ecg_channels channels df).

(** The part of [create_plot] that follows the unit conversions. *)
Definition draw_figure (title : string) (initial_range : option (float * float))
           (available_eeg available_ecg available_cm : list string)
           (ecg cm : list string * string) : M PlotState Figure :=
  df <- table ;;
  let webgl := (10000 <? Z.of_nat (nrows df))%Z in
  eeg_traces <- mapM (eeg_trace webgl) (enumerate available_eeg) ;;
  ecg_traces <- mapM (ecg_trace webgl (snd ecg))
                     (enumerate (combine available_ecg (fst ecg))) ;;
  cm_traces <- mapM (cm_trace webgl (snd cm))
                    (enumerate (combine available_cm (fst cm))) ;;
  ecg_range <- (if nonempty available_ecg && nonempty (fst ecg)
                then r <- ecg_axis_range (fst ecg) ;; ret (Some r)
                else ret None) ;;
  ret {| fig_traces := eeg_traces ++ ecg_traces ++ cm_traces;
         fig_title := title;
         fig_subplot_titles := ("EEG Channels (uV)"%string,
                                ("ECG and CM (" ++ snd ecg ++ ")")%string);
         fig_ecg_axis_title := ("ECG (" ++ snd ecg ++ ")")%string;
         fig_cm_axis_title := ("CM (" ++ snd cm ++ ")")%string;
         fig_ecg_range := ecg_range;
         fig_xrange := initial_range;
         fig_modebar_add := [] |}.

(** ** A recording to run the loader on *)

(** Four data lines, out of time order, one with an unreadable [Time] and
    one with an unreadable [Fp1]; [Trigger] is in the ignore set. *)
Definition demo_text : string :=
  "Time,Fp1,Trigger,CM
0.2,3.0,9,5400
0.0,1.0,9,5000
oops,7,9,1
0.1,bad,9,5200".

Definition demo_raw : DataFrame :=
  {| index := [0; 1; 2; 3];
     data := [("Time"%string, [Str "0.2"; Str "0.0"; Str "oops"; Str "0.1"]);
              ("Fp1"%string, [Str "3.0"; Str "1.0"; Str "7"; Str "bad"]);
              ("Trigger"%string, [Int 9; Int 9; Int 9; Int 9]);
              ("CM"%string, [Int 5400; Int 5000; Int 1; Int 5200])] |}.

(** A file with no [Time] column. *)
Definition untimed_text : string :=
  "Seconds,Fp1
0.0,1.0".

Definition untimed_raw : DataFrame :=
  {| index := [0];
     data := [("Seconds"%string, [Num 0]); ("Fp1"%string, [Num 1])] |}.

(** Twenty rows whose [Time] goes 1.0, 1.0, 0.0, 0.0 five times over; [Fp1]
    holds the number of the row. *)
Definition tied_raw : DataFrame :=
  {| index := seq 0 20;
     data := [("Time"%string,
               [Num 1; Num 1; Num 0; Num 0; Num 1; Num 1; Num 0; Num 0; Num 1; Num 1;
                Num 0; Num 0; Num 1; Num 1; Num 0; Num 0; Num 1; Num 1; Num 0; Num 0]);
              ("Fp1"%string,
               [Int 0; Int 1; Int 2; Int 3; Int 4; Int 5; Int 6; Int 7; Int 8; Int 9;
                Int 10; Int 11; Int 12; Int 13; Int 14; Int 15; Int 16; Int 17; Int 18;
                Int 19])] |}.

(** A recording with one ECG channel, in microvolts. *)
Definition ecg_text : string :=
  "Time,Fp1,X1:LEOG,CM
0.0,1,1500,5000
0.1,2,-250,5200".

Definition ecg_raw : DataFrame :=
  {| index := [0; 1];
     data := [("Time"%string, [Num 0; Num 0.1]);
              ("Fp1"%string, [Int 1; Int 2]);
              ("X1:LEOG"%string, [Int 1500; Int (-250)]);
              ("CM"%string, [Int 5000; Int 5200])] |}.

Definition demo_parse (text : string) : result DataFrame :=
  match lookup text [(demo_text, demo_raw); (untimed_text, untimed_raw);
                     (ecg_text, ecg_raw)] with
  | Some df => Ok df
  | None => Raise (ParserError "Error tokenizing data")
  end.

Definition demo_int (s : string) : option Z :=
  lookup s [("7"%string, 7%Z)].

Definition demo_float (s : string) : float :=
  match lookup s [("0.0"%string, 0%float); ("0.1"%string, 0.1%float);
                  ("0.2"%string, 0.2%float); ("1.0"%string, 1%float);
                  ("3.0"%string, 3%float); ("7"%string, 7%float)] with
  | Some x => x
  | None => nan
  end.

Definition demo_format (x : float) : string := "?".

Definition demo_world : World :=
  {| files := [("rec.csv"%string, demo_text); ("untimed.csv"%string, untimed_text);
               ("ecg.csv"%string, ecg_text)];
     stdout := [] |}.

Definition stable_argsort : list cell -> list nat := insertion_argsort.

(** What [load_data] returns for [ecg.csv]. *)
Definition ecg_table : DataFrame :=
  {| index := [0; 1];
     data := [("Time"%string, [Num 0; Num 0.1]);
              ("Fp1"%string, [Int 1; Int 2]);
              ("X1:LEOG"%string, [Int 1500; Int (-250)]);
              ("CM"%string, [Int 5000; Int 5200])] |}.

(** A recording whose one ECG channel spans most of the int64 range. *)
Definition wide_table : DataFrame :=
  {| index := [0; 1];
     data := [("Time"%string, [Num 0; Num 0.1]);
              ("X1:LEOG"%string,
               [Int 9000000000000000000; Int (-9000000000000000000)])] |}.

Definition demo_repr (names : list string) : string :=
  ("[" ++ String.concat ", " names ++ "]")%string.

(** Stand-ins for the HTML writer, the static renderer and the browser. *)
Definition demo_html (fig : Figure) : string := ("<html>" ++ fig_title fig ++ "</html>")%string.

Definition demo_render (fig : Figure) (path : string) (width height : Z) (scale : option Z)
  : result string :=
  Ok ("image of " ++ fig_title fig)%string.

(** The rendering backend is not installed. *)
Definition no_backend (fig : Figure) (path : string) (width height : Z) (scale : option Z)
  : result string :=
  Raise (ValueError "kaleido is not installed").

(** The raster image (the call with a scale) renders, the vector image does not. *)
Definition raster_only (fig : Figure) (path : string) (width height : Z) (scale : option Z)
  : result string :=
  match scale with
  | Some _ => Ok "raster"%string
  | None => Raise (ValueError "vector export failed")
  end.

Definition demo_show (fig : Figure) : M World unit := ret tt.

(** The command line [--data <data> --title Recording --output out]. *)
Definition demo_args (data : string) : Args :=
  {| arg_data := data; arg_title := "Recording"; arg_output := "out"; arg_show := false;
     arg_channels := None; arg_ecg_units := "mv"; arg_step := 1%Z;
     arg_initial_range := None |}.

(** The chart of [ecg.csv] in mode [mv], and the state its making leaves. *)
Definition demo_figure : Figure :=
  match fst (create_plot demo_repr "Recording" "mv" None None (ecg_table, demo_world)) with
  | Ok fig => fig
  | Raise _ => mkFigure [] "" (""%string, ""%string) "" "" None None []
  end.
Definition demo_plot_state : PlotState :=
  snd (create_plot demo_repr "Recording" "mv" None None (ecg_table, demo_world)).

(** A file with a header and no data line. *)
Definition header_text : string := "Time,X1:LEOG".

Definition header_raw : DataFrame :=
  {| index := []; data := [("Time"%string, []); ("X1:LEOG"%string, [])] |}.

Definition header_parse (text : string) : result DataFrame :=
  if String.eqb text header_text then Ok header_raw
  else Raise (ParserError "Error tokenizing data").

Definition header_world : World :=
  {| files := [("empty.csv"%string, header_text)]; stdout := [] |}.

(** * Properties *)

(** ** Binary64 order

    The order is total and transitive once [NaN] is excluded, which is what
    [dropna] achieves for the sort key. *)

Module F64.

Lemma SFcompare_opp x y c :
  SFcompare x y = Some c -> SFcompare y x = Some (CompOpp c).
Proof.
  destruct x as [sx| sx| |sx mx ex], y as [sy| sy| |sy my ey]; simpl; try discriminate;
    try (destruct sx); try (destruct sy); simpl; intros H; inversion H; subst; clear H;
    try reflexivity.
  all: rewrite (Z.compare_antisym ex ey); destruct (ex ?= ey)%Z; simpl; try reflexivity.
  all: change (Pos.compare_cont Eq ?a ?b) with (Pos.compare a b).
  all: rewrite (Pos.compare_antisym mx my); destruct (mx ?= my)%positive; reflexivity.
Qed.

Lemma SFleb_trans x y z :
  SFleb x y = true -> SFleb y z = true -> SFleb x z = true.
Proof.
  unfold SFleb.
  destruct x as [sx| sx| |sx mx ex], y as [sy| sy| |sy my ey], z as [sz| sz| |sz mz ez];
    simpl; try discriminate; try reflexivity;
    try (destruct sx); try (destruct sy); try (destruct sz); simpl;
    try discriminate; try reflexivity.
  all: change (Pos.compare_cont Eq ?a ?b) with (Pos.compare a b).
  all: destruct (Z.compare_spec ex ey); simpl; try discriminate;
       destruct (Z.compare_spec ey ez); simpl; try discriminate;
       destruct (Z.compare_spec ex ez); simpl; try reflexivity; try lia; subst.
  all: destruct (Pos.compare_spec mx my); simpl; try discriminate;
       destruct (Pos.compare_spec my mz); simpl; try discriminate;
       destruct (Pos.compare_spec mx mz); simpl; try reflexivity; try lia.
Qed.

Lemma is_nan_false x : is_nan x = false <-> Prim2SF x <> S754_nan.
Proof.
  unfold is_nan. rewrite eqb_spec. unfold SFeqb.
  destruct (Prim2SF x) as [s|s| |s m e]; simpl.
  - split; [discriminate | reflexivity].
  - destruct s; simpl; split; try discriminate; reflexivity.
  - split; intros H; [discriminate | congruence].
  - destruct s; rewrite Z.compare_refl;
      change (Pos.compare_cont Eq m m) with (Pos.compare m m);
      rewrite Pos.compare_refl; simpl; split; try discriminate; reflexivity.
Qed.

Lemma fle_trans x y z : fle x y = true -> fle y z = true -> fle x z = true.
Proof. unfold fle. rewrite !leb_spec. apply SFleb_trans. Qed.

Lemma fle_total x y :
  notnan x = true -> notnan y = true -> fle x y = true \/ fle y x = true.
Proof.
  unfold notnan. rewrite !negb_true_iff, !is_nan_false.
  unfold fle. rewrite !leb_spec. unfold SFleb. intros Hx Hy.
  destruct (SFcompare (Prim2SF x) (Prim2SF y)) as [c|] eqn:E.
  - rewrite (SFcompare_opp _ _ E). destruct c; simpl; auto.
  - destruct (Prim2SF x), (Prim2SF y); simpl in E; try discriminate; congruence.
Qed.

Lemma fle_refl x : notnan x = true -> fle x x = true.
Proof. intros H. destruct (fle_total x x H H); assumption. Qed.

End F64.
Import F64.

(** ** Lists, masks and positions *)

Lemma contains_In name names : contains name names = true <-> In name names.
Proof.
  unfold contains. rewrite existsb_exists. split.
  - intros [x [Hin Heq]]. apply String.eqb_eq in Heq. now subst.
  - intros H. exists name. split; [assumption | apply String.eqb_refl].
Qed.

Lemma lookup_In_fst {V} k (l : list (string * V)) :
  In k (map fst l) -> exists v, lookup k l = Some v.
Proof.
  induction l as [|[k' v] l IH]; simpl; [tauto|].
  intros [H | H].
  - subst. rewrite String.eqb_refl. eauto.
  - destruct (String.eqb k k'); eauto.
Qed.

Lemma lookup_Some_In {V} k (l : list (string * V)) v :
  lookup k l = Some v -> In k (map fst l).
Proof.
  induction l as [|[k' v'] l IH]; simpl; [discriminate|].
  destruct (String.eqb k k') eqn:E.
  - apply String.eqb_eq in E. auto.
  - auto.
Qed.

Lemma lookup_map_snd {V W} (f : V -> W) k (l : list (string * V)) :
  lookup k (map (fun nc => (fst nc, f (snd nc))) l) = option_map f (lookup k l).
Proof.
  induction l as [|[k' v] l IH]; simpl; [reflexivity|].
  destruct (String.eqb k k'); [reflexivity | exact IH].
Qed.

Lemma lookup_replace {V} c (v : V) k (l : list (string * V)) :
  lookup k (map (fun nc => if String.eqb c (fst nc) then (fst nc, v) else nc) l)
  = if String.eqb k c then option_map (fun _ => v) (lookup k l) else lookup k l.
Proof.
  induction l as [|[k' v'] l IH]; simpl.
  - now destruct (String.eqb k c).
  - destruct (String.eqb c k') eqn:E1; simpl.
    + apply String.eqb_eq in E1. subst k'.
      destruct (String.eqb k c) eqn:E2; [reflexivity | exact IH].
    + destruct (String.eqb k k') eqn:E2.
      * apply String.eqb_eq in E2. subst k'.
        rewrite String.eqb_sym, E1. reflexivity.
      * exact IH.
Qed.

Lemma lookup_app_last {V} c (v : V) k (l : list (string * V)) :
  lookup k (l ++ [(c, v)])
  = match lookup k l with
    | Some x => Some x
    | None => if String.eqb k c then Some v else None
    end.
Proof.
  induction l as [|[k' v'] l IH]; simpl; [reflexivity|].
  destruct (String.eqb k k'); [reflexivity | exact IH].
Qed.

Lemma filter_mask_map {A B} (f : A -> B) mask l :
  filter_mask mask (map f l) = map f (filter_mask mask l).
Proof.
  revert l. induction mask as [|b mask IH]; intros [|x l]; simpl; try reflexivity.
  destruct b; simpl; now rewrite IH.
Qed.

Lemma take_map {A B} (f : A -> B) positions l :
  take positions (map f l) = map f (take positions l).
Proof.
  induction positions as [|i rest IH]; simpl; [reflexivity|].
  rewrite nth_error_map. destruct (nth_error l i); simpl; now rewrite IH.
Qed.

Lemma stride_from_map {A B} (f : A -> B) step skip l :
  stride_from step skip (map f l) = map f (stride_from step skip l).
Proof.
  revert skip. induction l as [|x l IH]; intros [|skip]; simpl; try reflexivity.
  - now rewrite IH.
  - apply IH.
Qed.

Lemma filter_mask_self {A} (p : A -> bool) l :
  filter_mask (map p l) l = filter p l.
Proof.
  induction l as [|x l IH]; simpl; [reflexivity|].
  destruct (p x); now rewrite IH.
Qed.

Lemma take_incl {A} positions (l : list A) x : In x (take positions l) -> In x l.
Proof.
  induction positions as [|i rest IH]; simpl; [tauto|].
  destruct (nth_error l i) eqn:E; [|exact IH].
  intros [H | H]; [subst; eapply nth_error_In; eassumption | auto].
Qed.

Lemma filter_mask_length {A B} mask (l : list A) (l' : list B) :
  length l = length l' -> length (filter_mask mask l) = length (filter_mask mask l').
Proof.
  revert l l'. induction mask as [|b mask IH]; intros [|x l] [|y l'] H; simpl in *;
    try reflexivity; try discriminate.
  injection H as H. destruct b; simpl; auto.
Qed.

Lemma filter_mask_incl {A} mask (l : list A) x : In x (filter_mask mask l) -> In x l.
Proof.
  revert l. induction mask as [|b mask IH]; intros [|y l]; simpl; try tauto.
  destruct b; simpl; intros H; [destruct H as [H | H]|]; auto.
Qed.

Lemma take_length_same {A B} positions (l : list A) (l' : list B) :
  length l = length l' -> length (take positions l) = length (take positions l').
Proof.
  intros H. induction positions as [|i rest IH]; simpl; [reflexivity|].
  destruct (nth_error l i) eqn:E, (nth_error l' i) eqn:E'; simpl; try congruence.
  - apply nth_error_None in E'. assert (i < length l) by (apply nth_error_Some; congruence). lia.
  - apply nth_error_None in E. assert (i < length l') by (apply nth_error_Some; congruence). lia.
Qed.

Lemma stride_from_incl {A} step skip (l : list A) x :
  In x (stride_from step skip l) -> In x l.
Proof.
  revert skip. induction l as [|y l IH]; intros [|skip]; simpl; try tauto.
  - intros [H | H]; [auto | right; eapply IH; eassumption].
  - intros H. right. eapply IH; eassumption.
Qed.

(** Position [i] of the slice is position [skip + i * step] of the list. *)
Lemma stride_from_nth {A} step (l : list A) :
  1 <= step -> forall skip i,
  nth_error (stride_from step skip l) i = nth_error l (skip + i * step).
Proof.
  intros Hstep. induction l as [|x l IH]; intros skip i.
  - simpl. now rewrite !nth_error_nil.
  - destruct skip as [|skip]; simpl.
    + destruct i as [|i]; simpl; [reflexivity|].
      rewrite IH. replace (step + i * step) with (S (step - 1 + i * step)) by lia.
      reflexivity.
    + apply IH.
Qed.

Lemma slice_step_nth {A} step (l : list A) i :
  1 <= step -> nth_error (slice_step step l) i = nth_error l (i * step).
Proof. intros H. unfold slice_step. now rewrite stride_from_nth. Qed.

Lemma slice_step_length {A} step (l : list A) :
  1 <= step -> length (slice_step step l) = (length l + step - 1) / step.
Proof.
  intros Hstep.
  set (m := length (slice_step step l)).
  assert (Hhi : length l <= m * step).
  { apply nth_error_None. rewrite <- slice_step_nth by assumption.
    apply nth_error_None. unfold m. lia. }
  assert (Hlo : m = 0 \/ (m - 1) * step < length l).
  { destruct m as [|m'] eqn:E; [now left | right].
    apply nth_error_Some. rewrite <- slice_step_nth by assumption.
    apply nth_error_Some. fold m in E. simpl. lia. }
  apply Nat.div_unique with (r := length l + step - 1 - step * m).
  - destruct Hlo as [Hlo | Hlo]; nia.
  - destruct Hlo as [Hlo | Hlo]; nia.
Qed.

Lemma slice_step_one {A} (l : list A) : slice_step 1 l = l.
Proof.
  unfold slice_step. induction l as [|x l IH]; simpl; [reflexivity|].
  now rewrite IH.
Qed.

(** ** Column access *)

Lemma getitem_lookup df name col :
  getitem df name = Ok col <-> lookup name (data df) = Some col.
Proof.
  unfold getitem. destruct (lookup name (data df)); split; intros H; congruence.
Qed.

Lemma contains_lookup df name :
  contains name (columns df) = true -> exists col, lookup name (data df) = Some col.
Proof. intros H. apply lookup_In_fst. now apply contains_In. Qed.

Lemma columns_setitem_existing df name col :
  contains name (columns df) = true -> columns (setitem df name col) = columns df.
Proof.
  intros H. unfold setitem, columns. simpl. fold (columns df). rewrite H.
  rewrite map_map. apply map_ext. intros [k v]. simpl.
  now destruct (String.eqb name k).
Qed.

Lemma lookup_setitem df name col k :
  lookup k (data (setitem df name col))
  = if String.eqb k name then Some col else lookup k (data df).
Proof.
  unfold setitem. simpl. destruct (contains name (columns df)) eqn:E.
  - rewrite lookup_replace. destruct (String.eqb_spec k name) as [->|Hne]; [|reflexivity].
    destruct (contains_lookup _ _ E) as [c Hc]. now rewrite Hc.
  - rewrite lookup_app_last. destruct (String.eqb_spec k name) as [->|Hne].
    + destruct (lookup name (data df)) eqn:El; [|reflexivity].
      apply lookup_Some_In in El. apply contains_In in El.
      unfold columns in E. congruence.
    + now destruct (lookup k (data df)).
Qed.

Lemma index_setitem df name col : index (setitem df name col) = index df.
Proof. reflexivity. Qed.

Lemma columns_map_rows f df : columns (map_rows f df) = columns df.
Proof. unfold columns, map_rows. simpl. rewrite map_map. reflexivity. Qed.

Lemma lookup_map_rows f df k :
  lookup k (data (map_rows f df)) = option_map (f cell) (lookup k (data df)).
Proof. unfold map_rows. simpl. apply lookup_map_snd. Qed.

Lemma getitem_list_spec df names :
  (forall n, In n names -> In n (columns df)) ->
  exists out, getitem_list df names = Ok out /\
              index out = index df /\ columns out = names /\
              forall n, In n names -> lookup n (data out) = lookup n (data df).
Proof.
  intros Hsub. unfold getitem_list.
  assert (H : exists cols,
             mapM_result (fun n => rbind (getitem df n) (fun col => Ok (n, col))) names = Ok cols
             /\ map fst cols = names
             /\ forall n, In n names -> lookup n cols = lookup n (data df)).
  { induction names as [|c names IH]; simpl.
    - exists []. repeat split. intros n [].
    - destruct (lookup_In_fst c (data df)) as [col Hcol]; [apply Hsub; now left|].
      unfold getitem at 1. rewrite Hcol. simpl.
      destruct IH as [cols [E [Hfst Hlk]]]; [intros n Hn; apply Hsub; now right|].
      rewrite E. simpl. exists ((c, col) :: cols). repeat split.
      + simpl. now rewrite Hfst.
      + intros n Hn. simpl. destruct (String.eqb_spec n c) as [->|Hne]; [now rewrite Hcol|].
        apply Hlk. destruct Hn as [Hn | Hn]; [congruence | assumption]. }
  destruct H as [cols [E [Hfst Hlk]]]. rewrite E. simpl.
  eexists. split; [reflexivity|]. repeat split; assumption.
Qed.

(** ** The cleaning pipeline *)

Section LoaderFacts.

Variable str_to_int : string -> option Z.
Variable str_to_float : string -> float.
Variable argsort : list cell -> list nat.

Lemma all_ints_Some col zs :
  all_ints str_to_int col = Some zs -> length zs = length col.
Proof.
  revert zs. induction col as [|c col IH]; simpl; intros zs H.
  - now injection H as <-.
  - destruct (to_int_cell str_to_int c); [|discriminate].
    destruct (all_ints str_to_int col); [|discriminate].
    injection H as <-. simpl. f_equal. now apply IH.
Qed.

Lemma all_ints_Forall2 col zs :
  all_ints str_to_int col = Some zs <->
  Forall2 (fun c z => to_int_cell str_to_int c = Some z) col zs.
Proof.
  revert zs. induction col as [|c col IH]; simpl; intros zs.
  - split; intros H; [injection H as <-; constructor | now inversion H].
  - split.
    + destruct (to_int_cell str_to_int c) as [z|] eqn:Ec; [|discriminate].
      destruct (all_ints str_to_int col) as [zs'|]; [|discriminate].
      intros H. injection H as <-. constructor; [assumption | now apply IH].
    + intros H. inversion H as [|? z ? zs' Hz Hrest]; subst.
      rewrite Hz. apply IH in Hrest. now rewrite Hrest.
Qed.

Lemma all_ints_of_ints zs : all_ints str_to_int (map Int zs) = Some zs.
Proof. induction zs as [|z zs IH]; simpl; [reflexivity|]. now rewrite IH. Qed.

Lemma all_ints_of_floats col :
  col <> [] -> Forall is_float col -> all_ints str_to_int col = None.
Proof.
  intros Hne H. destruct H as [|c col Hc _]; [contradiction|].
  destruct c; try contradiction. reflexivity.
Qed.

Lemma to_float_cell_is_float c : is_float (to_float_cell str_to_float c).
Proof. now destruct c. Qed.

Lemma to_float_cell_of_float c : is_float c -> to_float_cell str_to_float c = c.
Proof. now destruct c. Qed.

(** The two outcomes of a conversion: an integer column, or a float column
    made cell by cell. *)
Lemma to_numeric_cases col :
  (exists zs, all_ints str_to_int col = Some zs /\
              to_numeric str_to_int str_to_float col = map Int zs) \/
  (all_ints str_to_int col = None /\
   to_numeric str_to_int str_to_float col = map (to_float_cell str_to_float) col).
Proof.
  unfold to_numeric. destruct (all_ints str_to_int col) as [zs|]; eauto.
Qed.

Lemma to_numeric_length col :
  length (to_numeric str_to_int str_to_float col) = length col.
Proof.
  destruct (to_numeric_cases col) as [[zs [E ->]] | [_ ->]]; rewrite length_map;
    [now apply all_ints_Some | reflexivity].
Qed.

Lemma to_numeric_uniform col : uniform (to_numeric str_to_int str_to_float col).
Proof.
  destruct (to_numeric_cases col) as [[zs [_ ->]] | [_ ->]].
  - left. apply Forall_map. apply Forall_forall. now intros.
  - right. apply Forall_map. apply Forall_forall. intros c _.
    apply to_float_cell_is_float.
Qed.

Lemma uniform_is_num col : uniform col -> Forall is_num col.
Proof.
  intros [H | H]; eapply Forall_impl; try exact H; intros c Hc; now destruct c.
Qed.

Lemma to_numeric_is_num col : Forall is_num (to_numeric str_to_int str_to_float col).
Proof. apply uniform_is_num, to_numeric_uniform. Qed.

Lemma to_numeric_idempotent col :
  to_numeric str_to_int str_to_float (to_numeric str_to_int str_to_float col)
  = to_numeric str_to_int str_to_float col.
Proof.
  destruct (to_numeric_cases col) as [[zs [_ ->]] | [E ->]].
  - unfold to_numeric. now rewrite all_ints_of_ints.
  - unfold to_numeric at 1. rewrite all_ints_of_floats.
    + rewrite map_map. apply map_ext. intros c.
      apply to_float_cell_of_float, to_float_cell_is_float.
    + destruct col; [discriminate E | discriminate].
    + apply Forall_map. apply Forall_forall. intros c _. apply to_float_cell_is_float.
Qed.

Lemma coerce_columns_spec names : forall df,
  (forall n, In n names -> In n (columns df)) ->
  exists out, coerce_columns str_to_int str_to_float names df = Ok out /\
              index out = index df /\ columns out = columns df /\
              forall n, lookup n (data out)
                        = if String.eqb n "Time" then lookup n (data df)
                          else if contains n names
                               then option_map (to_numeric str_to_int str_to_float)
                                               (lookup n (data df))
                               else lookup n (data df).
Proof.
  induction names as [|c names IH]; intros df Hsub; simpl.
  - exists df. repeat split. intros n. now destruct (String.eqb n "Time").
  - destruct (String.eqb_spec c "Time") as [->|Hc]; simpl.
    + destruct (IH df) as [out [E [Hi [Hc Hl]]]]; [intros n Hn; apply Hsub; now right|].
      exists out. repeat split; try assumption.
      intros n. rewrite Hl. destruct (String.eqb_spec n "Time") as [->|Hn]; [reflexivity|].
      destruct (String.eqb_spec n "Time"); [contradiction|]. reflexivity.
    + assert (Hin : contains c (columns df) = true) by (apply contains_In, Hsub; now left).
      destruct (contains_lookup _ _ Hin) as [col Hcol].
      unfold getitem at 1. rewrite Hcol. simpl.
      destruct (IH (setitem df c (to_numeric str_to_int str_to_float col)))
        as [out [E [Hi [Hcols Hl]]]].
      { intros n Hn. rewrite columns_setitem_existing by assumption. apply Hsub. now right. }
      exists out. rewrite columns_setitem_existing in Hcols by assumption.
      repeat split; try assumption.
      intros n. rewrite Hl, lookup_setitem.
      destruct (String.eqb_spec n "Time") as [->|Hn].
      * destruct (String.eqb_spec "Time"%string c); [congruence | reflexivity].
      * destruct (String.eqb_spec n c) as [->|Hnc]; simpl.
        -- rewrite Hcol. simpl. rewrite to_numeric_idempotent.
           now destruct (contains c names).
        -- reflexivity.
Qed.

Lemma arrange_map raw {A B} (f : A -> B) l :
  arrange str_to_int str_to_float argsort raw (map f l)
  = map f (arrange str_to_int str_to_float argsort raw l).
Proof. unfold arrange. now rewrite filter_mask_map, take_map. Qed.

(** The cleaned table: the rows that the converted [Time] selects and
    orders; [Time] itself converted before the rows are chosen, every other
    kept column converted after. *)
Lemma clean_spec raw :
  contains "Time" (columns raw) = true ->
  exists cleaned,
    clean str_to_int str_to_float argsort raw = Ok cleaned /\
    index cleaned = arrange str_to_int str_to_float argsort raw (index raw) /\
    columns cleaned = filter kept (columns raw) /\
    lookup "Time" (data cleaned)
    = Some (arrange str_to_int str_to_float argsort raw
                    (converted_time str_to_int str_to_float raw)) /\
    forall n col, n <> "Time"%string -> In n (columns cleaned) ->
                  lookup n (data raw) = Some col ->
                  lookup n (data cleaned)
                  = Some (to_numeric str_to_int str_to_float
                            (arrange str_to_int str_to_float argsort raw col)).
Proof.
  intros HT. unfold clean. rewrite HT. cbn [negb].
  destruct (contains_lookup _ _ HT) as [time Htime].
  unfold getitem at 1. rewrite Htime. cbn [rbind].
  set (df1 := setitem raw "Time" (to_numeric str_to_int str_to_float time)).
  assert (Hconv : converted_time str_to_int str_to_float raw
                  = to_numeric str_to_int str_to_float time)
    by (unfold converted_time; now rewrite Htime).
  assert (Hlk1 : lookup "Time" (data df1) = Some (to_numeric str_to_int str_to_float time))
    by (unfold df1; now rewrite lookup_setitem).
  unfold dropna, getitem. rewrite Hlk1. cbn [rbind].
  set (df2 := map_rows _ df1).
  unfold sort_values, getitem. unfold df2 at 1.
  rewrite lookup_map_rows, Hlk1. cbn [rbind option_map].
  set (df3 := map_rows _ df2).
  assert (Hcols3 : columns df3 = columns raw).
  { unfold df3, df2. rewrite !columns_map_rows. unfold df1.
    now apply columns_setitem_existing. }
  assert (Hlk3 : forall k, lookup k (data df3)
                           = option_map (arrange str_to_int str_to_float argsort raw (A:=cell))
                                        (lookup k (data df1))).
  { intros k. unfold df3, df2. rewrite !lookup_map_rows.
    unfold arrange, time_order, time_mask. rewrite Hconv.
    now destruct (lookup k (data df1)). }
  assert (Hidx3 : index df3 = arrange str_to_int str_to_float argsort raw (index raw)).
  { unfold df3, df2, map_rows. cbn [index]. unfold arrange, time_order, time_mask.
    now rewrite Hconv. }
  change (fun c : string => negb (contains c ignore_cols)) with kept.
  destruct (getitem_list_spec df3 (filter kept (columns df3)))
    as [df4 [E4 [Hidx4 [Hcols4 Hlk4]]]].
  { intros n Hn. apply filter_In in Hn. tauto. }
  rewrite E4. cbn [rbind].
  destruct (coerce_columns_spec (columns df4) df4) as [out [E [Hidx [Hcols Hlk]]]]; [auto|].
  exists out. split; [exact E|]. split; [congruence|]. split.
  { rewrite Hcols, Hcols4, Hcols3. reflexivity. }
  split.
  - rewrite Hlk. cbn [String.eqb Ascii.eqb Bool.eqb].
    rewrite Hlk4.
    + rewrite Hlk3, Hlk1. cbn [option_map]. now rewrite Hconv.
    + rewrite Hcols3. apply filter_In. split; [now apply contains_In | reflexivity].
  - intros n col Hne Hn Hcol. rewrite Hcols in Hn.
    rewrite Hlk. rewrite Hlk4 by (rewrite <- Hcols4; exact Hn).
    rewrite Hlk3. unfold df1. rewrite lookup_setitem.
    destruct (String.eqb_spec n "Time") as [->|_]; [contradiction|].
    apply contains_In in Hn. rewrite Hn. rewrite Hcol. reflexivity.
Qed.

(** Every column of the cleaned table is a numeric column of one type, with
    one cell per kept row. *)
Lemma clean_columns raw cleaned :
  contains "Time" (columns raw) = true ->
  clean str_to_int str_to_float argsort raw = Ok cleaned ->
  forall n out, lookup n (data cleaned) = Some out ->
    exists col, lookup n (data raw) = Some col /\
                uniform out /\
                length out = length (arrange str_to_int str_to_float argsort raw col).
Proof.
  intros HT Hclean n out Hout.
  destruct (clean_spec raw HT) as [cleaned' [Hclean' [_ [Hcols [Htime Hlk]]]]].
  rewrite Hclean in Hclean'. injection Hclean' as <-.
  assert (Hin : In n (columns cleaned)) by (eapply lookup_Some_In; eassumption).
  assert (Hraw : In n (columns raw))
    by (rewrite Hcols in Hin; apply filter_In in Hin; tauto).
  destruct (lookup_In_fst n (data raw) Hraw) as [col Hcol].
  exists col. split; [exact Hcol|].
  destruct (String.eqb_spec n "Time") as [->|Hne].
  - rewrite Htime in Hout. injection Hout as <-.
    unfold converted_time. rewrite Hcol. split.
    + unfold arrange.
      destruct (to_numeric_uniform col) as [U | U]; [left | right];
        apply Forall_forall; intros c Hc; apply take_incl, filter_mask_incl in Hc;
        rewrite Forall_forall in U; now apply U.
    + unfold arrange. apply take_length_same, filter_mask_length.
      apply to_numeric_length.
  - rewrite (Hlk n col Hne Hin Hcol) in Hout. injection Hout as <-.
    split; [apply to_numeric_uniform | apply to_numeric_length].
Qed.

End LoaderFacts.

(** ** Running the loader *)

Section LoaderRuns.

Variable parse_csv : string -> result DataFrame.
Variable str_to_int : string -> option Z.
Variable str_to_float : string -> float.
Variable argsort : list cell -> list nat.
Variable format_3f : float -> string.

Lemma load_data_returns w path raw step cleaned :
  reads parse_csv w path raw ->
  clean str_to_int str_to_float argsort raw = Ok cleaned ->
  contains "Time" (columns cleaned) = true ->
  exists w',
    load_data parse_csv str_to_int str_to_float argsort format_3f path step w
    = (Ok (reset_index (decimated step cleaned)), w') /\ files w' = files w.
Proof.
  intros [text [Hfile Hparse]] Hclean HT.
  destruct (contains_lookup _ _ HT) as [time Htime].
  unfold load_data, bind, println, print, read_csv, lift, ret, decimated.
  cbn [files stdout]. rewrite Hfile, Hparse, Hclean.
  destruct (step >? 1)%Z; cbn [files stdout]; unfold getitem.
  - assert (Hd : lookup "Time" (data (iloc_step (Z.to_nat step) cleaned))
                 = Some (slice_step (Z.to_nat step) time))
      by (unfold iloc_step; now rewrite lookup_map_rows, Htime).
    rewrite Hd. eexists. split; reflexivity.
  - rewrite Htime. eexists. split; reflexivity.
Qed.

Lemma kept_not_ignored c : kept c = true <-> ~ In c ignore_cols.
Proof.
  unfold kept. rewrite negb_true_iff, <- not_true_iff_false, contains_In. reflexivity.
Qed.

(** A valid input loads: the cleaning pipeline returns a table, [load_data]
    returns it (decimated and relabelled), and the files are left alone. *)
Lemma load_data_valid w path raw step :
  reads parse_csv w path raw ->
  contains "Time" (columns raw) = true ->
  exists cleaned w',
    clean str_to_int str_to_float argsort raw = Ok cleaned /\
    load_data parse_csv str_to_int str_to_float argsort format_3f path step w
    = (Ok (reset_index (decimated step cleaned)), w') /\
    files w' = files w /\
    index cleaned = arrange str_to_int str_to_float argsort raw (index raw) /\
    columns cleaned = filter kept (columns raw) /\
    lookup "Time" (data cleaned)
    = Some (arrange str_to_int str_to_float argsort raw
                    (converted_time str_to_int str_to_float raw)) /\
    forall n col, n <> "Time"%string -> In n (columns cleaned) ->
                  lookup n (data raw) = Some col ->
                  lookup n (data cleaned)
                  = Some (to_numeric str_to_int str_to_float
                            (arrange str_to_int str_to_float argsort raw col)).
Proof.
  intros Hreads HT.
  destruct (clean_spec str_to_int str_to_float argsort raw HT)
    as [cleaned [Hclean [Hidx [Hcols [Htime Hlk]]]]].
  assert (HT' : contains "Time" (columns cleaned) = true).
  { apply contains_In. rewrite Hcols. apply filter_In. split.
    - now apply contains_In.
    - reflexivity. }
  destruct (@load_data_returns w path raw step cleaned Hreads Hclean HT') as [w' [Hrun Hfiles]].
  exists cleaned, w'. repeat split; assumption.
Qed.

Lemma lookup_decimated step df k :
  lookup k (data (decimated step df)) = option_map (thinned step (A:=cell)) (lookup k (data df)).
Proof.
  unfold decimated, thinned. destruct (step >? 1)%Z.
  - unfold iloc_step. apply lookup_map_rows.
  - now destruct (lookup k (data df)).
Qed.

Lemma columns_decimated step df : columns (decimated step df) = columns df.
Proof.
  unfold decimated. destruct (step >? 1)%Z; [apply columns_map_rows | reflexivity].
Qed.

End LoaderRuns.

(** ** Order *)

Lemma StronglySorted_map_inv {A B} (f : A -> B) (R : B -> B -> Prop) l :
  StronglySorted R (map f l) -> StronglySorted (fun a b => R (f a) (f b)) l.
Proof.
  induction l as [|x l IH]; simpl; intros H; [constructor|].
  inversion H as [|? ? Hs Hf]; subst. constructor; [auto|].
  rewrite Forall_map in Hf. exact Hf.
Qed.

Lemma StronglySorted_map {A B} (f : A -> B) (R : B -> B -> Prop) l :
  StronglySorted (fun a b => R (f a) (f b)) l -> StronglySorted R (map f l).
Proof.
  induction 1 as [|x l Hs IH Hf]; simpl; constructor; [assumption|].
  now apply Forall_map.
Qed.

Lemma stride_from_sorted {A} (R : A -> A -> Prop) step l :
  StronglySorted R l -> forall skip, StronglySorted R (stride_from step skip l).
Proof.
  induction 1 as [|x l Hs IH Hf]; intros skip; simpl; [constructor|].
  destruct skip as [|skip]; [|apply IH].
  constructor; [apply IH|].
  apply Forall_forall. intros y Hy. apply stride_from_incl in Hy.
  rewrite Forall_forall in Hf. auto.
Qed.

Lemma take_in_range {A} (d : A) positions l :
  Forall (fun i => i < length l) positions ->
  take positions l = map (fun i => nth i l d) positions.
Proof.
  induction 1 as [|i rest Hi _ IH]; simpl; [reflexivity|].
  destruct (nth_error l i) eqn:E.
  - rewrite IH. f_equal. symmetry. now apply nth_error_nth.
  - apply nth_error_None in E. lia.
Qed.

(** ** The reference sorter meets the contract *)

Lemma insert_position_perm keys i sorted :
  Permutation (insert_position keys i sorted) (i :: sorted).
Proof.
  induction sorted as [|j rest IH]; simpl; [reflexivity|].
  destruct (cell_le _ _); [|reflexivity].
  rewrite IH. apply perm_swap.
Qed.

Lemma insertion_fold_perm keys todo : forall sorted,
  Permutation (fold_left (fun s i => insert_position keys i s) todo sorted)
              (todo ++ sorted).
Proof.
  induction todo as [|i todo IH]; intros sorted; simpl; [reflexivity|].
  rewrite IH, insert_position_perm. symmetry. apply Permutation_middle.
Qed.

Lemma insertion_argsort_permutes : argsort_permutes insertion_argsort.
Proof.
  intros keys. unfold insertion_argsort.
  rewrite insertion_fold_perm, app_nil_r. reflexivity.
Qed.

Lemma cell_le_total_int a b :
  is_int a -> is_int b -> cell_le a b = true \/ cell_le b a = true.
Proof.
  destruct a as [fa|x|sa], b as [fb|y|sb]; try contradiction. intros _ _. simpl.
  destruct (Z.leb_spec x y); [now left|]. right. apply Z.leb_le. lia.
Qed.

Lemma cell_le_trans_int a b c :
  is_int a -> is_int b -> is_int c ->
  cell_le a b = true -> cell_le b c = true -> cell_le a c = true.
Proof.
  destruct a as [fa|x|sa], b as [fb|y|sb], c as [fc|z|sc]; try contradiction.
  intros _ _ _. simpl.
  rewrite !Z.leb_le. lia.
Qed.

Lemma cell_le_total_float a b :
  is_float a /\ notna a = true -> is_float b /\ notna b = true ->
  cell_le a b = true \/ cell_le b a = true.
Proof.
  destruct a as [x|za|sa], b as [y|zb|sb];
    try (intros [[] _]; fail); try (intros _ [[] _]; fail).
  intros [_ Ha] [_ Hb]. simpl. now apply fle_total.
Qed.

Lemma cell_le_trans_float a b c :
  is_float a /\ notna a = true -> is_float b /\ notna b = true ->
  is_float c /\ notna c = true ->
  cell_le a b = true -> cell_le b c = true -> cell_le a c = true.
Proof.
  destruct a as [x|za|sa], b as [y|zb|sb], c as [z|zc|sc];
    try (intros [[] _]; fail); try (intros _ [[] _]; fail); try (intros _ _ [[] _]; fail).
  intros _ _ _. simpl. apply fle_trans.
Qed.

Section InsertionSort.

(** The values the sort is run on: those of one numeric column. *)
Variable ok : cell -> Prop.
Hypothesis ok_total : forall a b, ok a -> ok b -> cell_le a b = true \/ cell_le b a = true.
Hypothesis ok_trans : forall a b c, ok a -> ok b -> ok c ->
                                    cell_le a b = true -> cell_le b c = true ->
                                    cell_le a c = true.

Lemma key_at_ok keys i : Forall ok keys -> i < length keys -> ok (key_at keys i).
Proof.
  intros H Hi. rewrite Forall_forall in H. apply H. unfold key_at. now apply nth_In.
Qed.

Lemma insert_position_sorted keys i :
  Forall ok keys -> i < length keys ->
  forall sorted,
    Forall (fun j => j < length keys) sorted ->
    StronglySorted (position_le keys) sorted ->
    StronglySorted (position_le keys) (insert_position keys i sorted).
Proof using ok_total ok_trans.
  intros Hk Hi. induction sorted as [|j rest IH]; intros Hr Hs; simpl.
  - repeat constructor.
  - inversion Hr as [|? ? Hj Hrest]; subst. inversion Hs as [|? ? Hs' Hf]; subst.
    pose proof (key_at_ok Hk Hi) as Ni. pose proof (key_at_ok Hk Hj) as Nj.
    destruct (cell_le (key_at keys j) (key_at keys i)) eqn:E.
    + assert (Hji : position_le keys j i) by exact E.
      constructor; [now apply IH|].
      eapply Permutation_Forall; [symmetry; apply insert_position_perm|].
      constructor; assumption.
    + assert (Hij : position_le keys i j).
      { unfold position_le. destruct (ok_total Ni Nj); congruence. }
      constructor; [assumption|]. constructor; [assumption|].
      rewrite Forall_forall in Hf, Hrest. apply Forall_forall. intros r Hr'.
      unfold position_le in *.
      eapply (ok_trans Ni Nj (key_at_ok Hk (Hrest r Hr'))); [exact Hij | now apply Hf].
Qed.

Lemma insertion_fold_sorted keys :
  Forall ok keys ->
  forall todo sorted,
    Forall (fun j => j < length keys) todo ->
    Forall (fun j => j < length keys) sorted ->
    StronglySorted (position_le keys) sorted ->
    StronglySorted (position_le keys)
      (fold_left (fun s i => insert_position keys i s) todo sorted).
Proof using ok_total ok_trans.
  intros Hk. induction todo as [|i todo IH]; intros sorted Ht Hr Hs; simpl; [assumption|].
  inversion Ht; subst. apply IH; try assumption.
  - eapply Permutation_Forall; [symmetry; apply insert_position_perm|]. now constructor.
  - now apply insert_position_sorted.
Qed.

End InsertionSort.

Lemma seq_in_range n : Forall (fun j => j < n) (seq 0 n).
Proof. apply Forall_forall. intros j Hj. apply in_seq in Hj. lia. Qed.

Lemma insertion_argsort_ascending : argsort_ascending insertion_argsort.
Proof.
  intros keys Hu Hk.
  assert (Hr : Forall (fun j => j < length keys) (insertion_argsort keys)).
  { eapply Permutation_Forall; [symmetry; apply insertion_argsort_permutes|].
    apply seq_in_range. }
  rewrite (take_in_range (Num nan)) by exact Hr.
  apply StronglySorted_map.
  destruct Hu as [Hi | Hf].
  - apply (@insertion_fold_sorted is_int cell_le_total_int cell_le_trans_int);
      try assumption; try constructor. apply seq_in_range.
  - apply (@insertion_fold_sorted (fun c => is_float c /\ notna c = true)
             cell_le_total_float cell_le_trans_float); try constructor.
    + rewrite Forall_forall in *. auto.
    + apply seq_in_range.
Qed.

(** ** The loader's contract *)

Section LoaderContract.

Variable parse_csv : string -> result DataFrame.
Variable str_to_int : string -> option Z.
Variable str_to_float : string -> float.
Variable argsort : list cell -> list nat.
Variable format_3f : float -> string.

(** C1.  When the parsed table has no column named [Time], [load_data]
    raises [ValueError] (the spec's SchemaError): the call ends in an
    exception, and no table is returned. *)
Theorem load_data_without_time_raises w path raw step :
  reads parse_csv w path raw ->
  ~ In "Time"%string (columns raw) ->
  fst (load_data parse_csv str_to_int str_to_float argsort format_3f path step w)
  = Raise (ValueError "Expected a 'Time' column (seconds).")
  /\ forall table,
       fst (load_data parse_csv str_to_int str_to_float argsort format_3f path step w) <> Ok table.
Proof.
  intros [text [Hfile Hparse]] HT.
  assert (E : contains "Time" (columns raw) = false).
  { apply not_true_iff_false. now rewrite contains_In. }
  assert (R : fst (load_data parse_csv str_to_int str_to_float argsort format_3f path step w)
              = Raise (ValueError "Expected a 'Time' column (seconds).")).
  { unfold load_data, bind, println, print, read_csv, lift.
    cbn [files stdout]. rewrite Hfile, Hparse. unfold clean. rewrite E. reflexivity. }
  split; [exact R|]. intros table. rewrite R. discriminate.
Qed.

Lemma load_data_keeps_files path step w :
  files (snd (load_data parse_csv str_to_int str_to_float argsort format_3f path step w)) = files w.
Proof.
  unfold load_data, bind, println, print, read_csv, lift, ret. cbn [files stdout].
  destruct (lookup path (files w)); [|reflexivity].
  destruct (parse_csv s); [|reflexivity].
  destruct (clean str_to_int str_to_float argsort a); [|reflexivity].
  destruct (step >? 1)%Z; cbn [files stdout];
    match goal with |- context [getitem ?d ?n] => destruct (getitem d n) end; reflexivity.
Qed.

Lemma load_data_reads_files_only path step w1 w2 :
  files w1 = files w2 ->
  fst (load_data parse_csv str_to_int str_to_float argsort format_3f path step w1)
  = fst (load_data parse_csv str_to_int str_to_float argsort format_3f path step w2).
Proof.
  intros E. unfold load_data, bind, println, print, read_csv, lift, ret.
  cbn [files stdout]. rewrite E.
  destruct (lookup path (files w2)); [|reflexivity].
  destruct (parse_csv s); [|reflexivity].
  destruct (clean str_to_int str_to_float argsort a); [|reflexivity].
  destruct (step >? 1)%Z; cbn [files stdout];
    match goal with |- context [getitem ?d ?n] => destruct (getitem d n) end; reflexivity.
Qed.

(** C7.  Loading is deterministic: a second [load_data] of the same path
    with step 1, run in the state the first call left behind, has the same
    outcome as the first (the same table, or the same exception). *)
Theorem load_data_twice_same_table path w :
  fst (load_data parse_csv str_to_int str_to_float argsort format_3f path 1
         (snd (load_data parse_csv str_to_int str_to_float argsort format_3f path 1 w)))
  = fst (load_data parse_csv str_to_int str_to_float argsort format_3f path 1 w).
Proof. apply load_data_reads_files_only. apply load_data_keeps_files. Qed.

(** C10.  A step of 1 or less (0 and negative steps included) takes the
    same path as step 1: the whole outcome, table and printed lines, is that
    of the call with step 1; and on a valid input that outcome is the
    cleaned table, not decimated, with fresh row labels. *)
Theorem load_data_step_at_most_one path step w :
  (step <= 1)%Z ->
  load_data parse_csv str_to_int str_to_float argsort format_3f path step w
  = load_data parse_csv str_to_int str_to_float argsort format_3f path 1 w
  /\ forall raw,
       reads parse_csv w path raw -> contains "Time" (columns raw) = true ->
       exists cleaned,
         clean str_to_int str_to_float argsort raw = Ok cleaned /\
         fst (load_data parse_csv str_to_int str_to_float argsort format_3f path step w)
         = Ok (reset_index cleaned).
Proof.
  intros Hstep.
  assert (E : (step >? 1)%Z = false) by (rewrite Z.gtb_ltb; apply Z.ltb_ge; lia).
  split.
  - unfold load_data. rewrite E. reflexivity.
  - intros raw Hreads HT.
    destruct (load_data_valid str_to_int str_to_float argsort format_3f step Hreads HT)
      as [cleaned [w' [Hclean [Hrun _]]]].
    exists cleaned. split; [assumption|]. rewrite Hrun. unfold decimated. now rewrite E.
Qed.

Lemma row_at_reset_index df i : row_at (reset_index df) i = row_at df i.
Proof. reflexivity. Qed.

Lemma nrows_reset_index df : nrows (reset_index df) = nrows df.
Proof. unfold nrows, reset_index. simpl. apply length_seq. Qed.

Lemma row_at_iloc_step step df i :
  1 <= step -> row_at (iloc_step step df) i = row_at df (i * step).
Proof.
  intros H. unfold row_at, iloc_step, map_rows. simpl. rewrite map_map.
  apply map_ext. intros [n col]. simpl. now apply slice_step_nth.
Qed.

(** C3.  The decimation law, for every step k >= 1 on a valid input: row i
    of the returned table is row i*k of the cleaned table (for every i, so
    in particular within bounds), the returned table has
    ceil(rows of the cleaned table / k) rows, and its row labels are
    0, 1, ..., whether or not rows were skipped. *)
Theorem load_data_decimation_law w path raw step :
  (1 <= step)%Z ->
  reads parse_csv w path raw ->
  contains "Time" (columns raw) = true ->
  exists cleaned table w',
    clean str_to_int str_to_float argsort raw = Ok cleaned /\
    load_data parse_csv str_to_int str_to_float argsort format_3f path step w = (Ok table, w') /\
    (forall i, row_at table i = row_at cleaned (i * Z.to_nat step)) /\
    nrows table = (nrows cleaned + Z.to_nat step - 1) / Z.to_nat step /\
    index table = seq 0 (nrows table).
Proof.
  intros Hstep Hreads HT.
  destruct (load_data_valid str_to_int str_to_float argsort format_3f step Hreads HT)
    as [cleaned [w' [Hclean [Hrun _]]]].
  exists cleaned, (reset_index (decimated step cleaned)), w'.
  split; [assumption|]. split; [assumption|].
  assert (Hk : 1 <= Z.to_nat step) by lia.
  split; [|split].
  - intros i. rewrite row_at_reset_index. unfold decimated.
    destruct (step >? 1)%Z eqn:E.
    + now apply row_at_iloc_step.
    + assert (step = 1%Z) by (rewrite Z.gtb_ltb in E; apply Z.ltb_ge in E; lia). subst step.
      change (Z.to_nat 1) with 1. now rewrite Nat.mul_1_r.
  - rewrite nrows_reset_index. unfold decimated.
    destruct (step >? 1)%Z eqn:E.
    + unfold nrows, iloc_step, map_rows. simpl.
      now apply slice_step_length.
    + assert (step = 1%Z) by (rewrite Z.gtb_ltb in E; apply Z.ltb_ge in E; lia). subst step.
      change (Z.to_nat 1) with 1. rewrite Nat.div_1_r. lia.
  - unfold reset_index at 1. simpl. now rewrite nrows_reset_index.
Qed.

Lemma thinned_map step {A B} (f : A -> B) l :
  thinned step (map f l) = map f (thinned step l).
Proof.
  unfold thinned. destruct (step >? 1)%Z; [|reflexivity]. apply stride_from_map.
Qed.

Lemma thinned_incl step {A} (l : list A) x : In x (thinned step l) -> In x l.
Proof.
  unfold thinned. destruct (step >? 1)%Z; [|auto]. apply stride_from_incl.
Qed.

Lemma thinned_uniform step col : uniform col -> uniform (thinned step col).
Proof.
  intros [H | H]; [left | right]; apply Forall_forall; intros c Hc;
    apply thinned_incl in Hc; rewrite Forall_forall in H; now apply H.
Qed.

Lemma thinned_sorted step {A} (R : A -> A -> Prop) l :
  StronglySorted R l -> StronglySorted R (thinned step l).
Proof.
  intros H. unfold thinned. destruct (step >? 1)%Z; [|assumption].
  now apply stride_from_sorted.
Qed.

(** C4, as amended.  On a valid input the returned table has no column of
    the ignore set and keeps every other input column in header order.
    Every column other than [Time] is the input column over the rows, and in
    the order, that the [Time] column alone decides, converted to numbers as
    a whole: when every remaining value is an integer (an integer cell, or
    text that denotes one) the column is an integer column; otherwise it is
    a floating-point column made cell by cell, in which a value that is not
    a number is [NaN] where it stands.  No row is dropped for it: the
    converted column has one cell per remaining row.  Every column of the
    table is numeric and of one type. *)
Theorem load_data_columns w path raw step :
  reads parse_csv w path raw ->
  contains "Time" (columns raw) = true ->
  exists table w',
    load_data parse_csv str_to_int str_to_float argsort format_3f path step w = (Ok table, w') /\
    (forall c, In c ["X3:"; "Trigger"; "Time_Offset"; "ADC_Status"; "ADC_Sequence";
                     "Event"; "Comments"]%string -> ~ In c (columns table)) /\
    columns table
    = filter (fun c => negb (contains c ["X3:"; "Trigger"; "Time_Offset"; "ADC_Status";
                                         "ADC_Sequence"; "Event"; "Comments"]%string))
             (columns raw) /\
    (forall c, In c (columns raw) ->
               ~ In c ["X3:"; "Trigger"; "Time_Offset"; "ADC_Status"; "ADC_Sequence";
                       "Event"; "Comments"]%string ->
               In c (columns table)) /\
    (forall c col, c <> "Time"%string -> In c (columns table) ->
       lookup c (data raw) = Some col ->
       exists rows converted,
         rows = take (time_order str_to_int str_to_float argsort raw)
                     (filter_mask (map notna (converted_time str_to_int str_to_float raw)) col) /\
         getitem table c = Ok (thinned step converted) /\
         length converted = length rows /\
         ((exists zs, Forall2 (fun c z => to_int_cell str_to_int c = Some z) rows zs /\
                      converted = map Int zs)
          \/ (~ (exists zs, Forall2 (fun c z => to_int_cell str_to_int c = Some z) rows zs) /\
              converted = map (to_float_cell str_to_float) rows))) /\
    (forall c col, getitem table c = Ok col -> uniform col).
Proof.
  intros Hreads HT.
  destruct (load_data_valid str_to_int str_to_float argsort format_3f step Hreads HT)
    as [cleaned [w' [Hclean [Hrun [_ [_ [Hcols [Htime Hlk]]]]]]]].
  exists (reset_index (decimated step cleaned)), w'.
  assert (Hc : columns (reset_index (decimated step cleaned)) = filter kept (columns raw)).
  { unfold reset_index, columns at 1. cbn [data]. fold (columns (decimated step cleaned)).
    now rewrite columns_decimated. }
  split; [assumption|]. split; [|split; [|split; [|split]]].
  - intros c Hc1 Hc2. rewrite Hc in Hc2. apply filter_In in Hc2.
    destruct Hc2 as [_ Hk]. apply kept_not_ignored in Hk. contradiction.
  - exact Hc.
  - intros c Hin Hk. rewrite Hc. apply filter_In. split; [assumption|].
    apply negb_true_iff. destruct (contains c ignore_cols) eqn:E; [|reflexivity].
    apply contains_In in E. contradiction.
  - intros c col Hne Hin Hraw.
    exists (arrange str_to_int str_to_float argsort raw col),
      (to_numeric str_to_int str_to_float (arrange str_to_int str_to_float argsort raw col)).
    split; [reflexivity|]. split; [|split].
    + apply getitem_lookup. unfold reset_index. cbn [data]. rewrite lookup_decimated.
      rewrite (Hlk c col); [reflexivity | assumption | now rewrite Hcols, <- Hc | assumption].
    + apply to_numeric_length.
    + destruct (to_numeric_cases str_to_int str_to_float
                  (arrange str_to_int str_to_float argsort raw col))
        as [[zs [E ->]] | [E ->]].
      * left. exists zs. split; [now apply all_ints_Forall2 | reflexivity].
      * right. split; [|reflexivity]. intros [zs Hzs].
        apply all_ints_Forall2 in Hzs. congruence.
  - intros c col Hget. apply getitem_lookup in Hget.
    unfold reset_index in Hget. cbn [data] in Hget. rewrite lookup_decimated in Hget.
    destruct (lookup c (data cleaned)) as [col0|] eqn:Ec; [|discriminate].
    cbn [option_map] in Hget. injection Hget as <-.
    destruct (clean_columns str_to_int str_to_float argsort raw HT Hclean c Ec)
      as [rawcol [_ [Hu _]]].
    now apply thinned_uniform.
Qed.

Lemma uniform_incl (l l' : list cell) :
  (forall c, In c l' -> In c l) -> uniform l -> uniform l'.
Proof.
  intros Hsub [H | H]; [left | right]; rewrite Forall_forall in *; auto.
Qed.

(** The [Time] column after coercion, [dropna] and [sort_values]. *)
Lemma sorted_time_column raw :
  argsort_ascending argsort ->
  let time := arrange str_to_int str_to_float argsort raw
                      (converted_time str_to_int str_to_float raw) in
  Forall (fun c => notna c = true) time /\ StronglySorted time_le time.
Proof.
  intros Hasc. cbv zeta.
  unfold arrange, time_order, time_mask.
  set (T := converted_time str_to_int str_to_float raw).
  rewrite filter_mask_self.
  assert (HT : uniform T).
  { unfold T, converted_time. destruct (lookup "Time" (data raw)).
    - apply to_numeric_uniform.
    - left. constructor. }
  assert (HF : Forall (fun c => notna c = true) (filter notna T)).
  { apply Forall_forall. intros c Hc. apply filter_In in Hc. tauto. }
  split.
  - apply Forall_forall. intros c Hc. apply take_incl in Hc.
    rewrite Forall_forall in HF. now apply HF.
  - apply Hasc; [|exact HF].
    eapply uniform_incl; [|exact HT]. intros c Hc. apply filter_In in Hc. tauto.
Qed.

(** C2.  On a valid input the [Time] column of the returned table holds no
    missing value and is in ascending order: the rows whose [Time] did not
    convert were dropped before the sort, and nothing after the sort
    disturbs the order.  The ascending order itself is the contract of the
    library's [argsort]. *)
Theorem load_data_time_sorted w path raw step :
  argsort_ascending argsort ->
  reads parse_csv w path raw ->
  contains "Time" (columns raw) = true ->
  exists table w' time,
    load_data parse_csv str_to_int str_to_float argsort format_3f path step w = (Ok table, w') /\
    getitem table "Time" = Ok time /\
    Forall (fun c => isna c = false) time /\
    StronglySorted time_le time.
Proof.
  intros Hasc Hreads HT.
  destruct (load_data_valid str_to_int str_to_float argsort format_3f step Hreads HT)
    as [cleaned [w' [Hclean [Hrun [_ [_ [Hcols [Htime Hlk]]]]]]]].
  destruct (sorted_time_column raw Hasc) as [Hna Hsorted].
  exists (reset_index (decimated step cleaned)), w',
    (thinned step (arrange str_to_int str_to_float argsort raw
                           (converted_time str_to_int str_to_float raw))).
  split; [assumption|]. split; [|split].
  - apply getitem_lookup. unfold reset_index. cbn [data]. rewrite lookup_decimated.
    now rewrite Htime.
  - apply Forall_forall. intros c Hc. apply thinned_incl in Hc.
    rewrite Forall_forall in Hna. specialize (Hna c Hc).
    unfold notna in Hna. now apply negb_true_iff in Hna.
  - now apply thinned_sorted.
Qed.

(** C5, as amended.  [sort_values] rearranges the rows that are left after
    [dropna]: one permutation [order] of their positions gives the row
    labels and every column of the sorted table (each column but [Time]
    converted to numbers afterwards), and it puts [Time] in ascending
    order.  Nothing is said of the order of rows with equal [Time]. *)
Theorem sort_values_rearranges_ascending raw :
  argsort_permutes argsort ->
  argsort_ascending argsort ->
  contains "Time" (columns raw) = true ->
  exists cleaned order time,
    clean str_to_int str_to_float argsort raw = Ok cleaned /\
    Permutation order
                (seq 0 (length (filter notna (converted_time str_to_int str_to_float raw)))) /\
    index cleaned
    = take order (filter_mask (time_mask str_to_int str_to_float raw) (index raw)) /\
    (forall c col, c <> "Time"%string -> In c (columns cleaned) ->
       lookup c (data raw) = Some col ->
       getitem cleaned c
       = Ok (to_numeric str_to_int str_to_float
               (take order (filter_mask (time_mask str_to_int str_to_float raw) col)))) /\
    time = take order (filter_mask (time_mask str_to_int str_to_float raw)
                                   (converted_time str_to_int str_to_float raw)) /\
    getitem cleaned "Time" = Ok time /\
    StronglySorted time_le time.
Proof.
  intros Hperm Hasc HT.
  destruct (clean_spec str_to_int str_to_float argsort raw HT)
    as [cleaned [Hclean [Hidx [Hcols [Htime Hlk]]]]].
  destruct (sorted_time_column raw Hasc) as [_ Hsorted].
  exists cleaned, (time_order str_to_int str_to_float argsort raw),
    (arrange str_to_int str_to_float argsort raw (converted_time str_to_int str_to_float raw)).
  split; [assumption|]. split; [|split; [|split; [|split; [|split]]]].
  - unfold time_order, time_mask. rewrite filter_mask_self. apply Hperm.
  - exact Hidx.
  - intros c col Hne Hin Hraw. apply getitem_lookup. now apply Hlk.
  - reflexivity.
  - apply getitem_lookup. exact Htime.
  - exact Hsorted.
Qed.

(** ** From the loader to the chart builder *)

Lemma take_permutation_length {A} positions (l : list A) :
  Permutation positions (seq 0 (length l)) -> length (take positions l) = length l.
Proof.
  intros Hp.
  assert (Hr : Forall (fun i => i < length l) positions).
  { eapply Permutation_Forall; [symmetry; exact Hp | apply seq_in_range]. }
  destruct l as [|d l'] eqn:El.
  - apply Permutation_sym, Permutation_nil in Hp. now subst.
  - rewrite (take_in_range d) by exact Hr. rewrite length_map.
    rewrite (Permutation_length Hp). apply length_seq.
Qed.

Lemma thinned_nonempty step {A} (l : list A) : l <> [] -> thinned step l <> [].
Proof.
  unfold thinned, slice_step. destruct (step >? 1)%Z; [|auto].
  destruct l; [contradiction | discriminate].
Qed.

(** A recording with at least one readable [Time] loads into a table that
    [create_plot] can chart. *)
Lemma load_data_plottable w path raw step :
  argsort_permutes argsort ->
  reads parse_csv w path raw ->
  contains "Time" (columns raw) = true ->
  rectangular raw ->
  filter notna (converted_time str_to_int str_to_float raw) <> [] ->
  exists table w',
    load_data parse_csv str_to_int str_to_float argsort format_3f path step w = (Ok table, w') /\
    plottable table.
Proof.
  intros Hperm Hreads HT Hrect Hvalid.
  destruct (load_data_valid str_to_int str_to_float argsort format_3f step Hreads HT)
    as [cleaned [w' [Hclean [Hrun [_ [_ [Hcols [Htime Hlk]]]]]]]].
  exists (reset_index (decimated step cleaned)), w'. split; [assumption|].
  destruct (contains_lookup _ _ HT) as [t Ht].
  assert (Hlen : forall col : list cell,
             length col = length (converted_time str_to_int str_to_float raw) ->
             length (arrange str_to_int str_to_float argsort raw col)
             = length (filter notna (converted_time str_to_int str_to_float raw))).
  { intros col Hcol. unfold arrange.
    assert (E : length (filter_mask (time_mask str_to_int str_to_float raw) col)
                = length (filter notna (converted_time str_to_int str_to_float raw))).
    { rewrite <- (filter_mask_self notna (converted_time str_to_int str_to_float raw)).
      apply filter_mask_length. exact Hcol. }
    rewrite take_permutation_length; [exact E|].
    rewrite E. unfold time_order, time_mask. rewrite filter_mask_self.
    apply Hperm. }
  assert (HlenT : length (converted_time str_to_int str_to_float raw) = nrows raw).
  { unfold converted_time. rewrite Ht, to_numeric_length. now apply (Hrect "Time"%string). }
  split.
  - eexists. unfold reset_index. cbn [data]. rewrite lookup_decimated.
    rewrite Htime. reflexivity.
  - intros c col. unfold reset_index. cbn [data]. rewrite lookup_decimated.
    destruct (lookup c (data cleaned)) as [col0|] eqn:Ec; [|discriminate].
    cbn [option_map]. intros H. injection H as <-.
    destruct (clean_columns str_to_int str_to_float argsort raw HT Hclean c Ec)
      as [rawcol [Hraw [Hu Hl]]].
    split.
    + apply Forall_forall. intros x Hx. apply thinned_incl in Hx.
      pose proof (uniform_is_num Hu) as Hn.
      rewrite Forall_forall in Hn. now apply Hn.
    + apply thinned_nonempty. intros E. apply (f_equal (@length cell)) in E.
      rewrite Hl, Hlen in E by (rewrite HlenT; now apply (Hrect c)).
      simpl in E. apply length_zero_iff_nil in E. contradiction.
Qed.

End LoaderContract.

Lemma demo_reads : reads demo_parse demo_world "rec.csv" demo_raw.
Proof. exists demo_text. split; reflexivity. Qed.

Lemma untimed_reads : reads demo_parse demo_world "untimed.csv" untimed_raw.
Proof. exists untimed_text. split; reflexivity. Qed.

(** The scenario of the spec, on the recording above: three rows are left,
    in time order; [Trigger] is gone; the unreadable [Fp1] is [NaN]; [CM],
    which holds integers only, stays an integer column. *)
Example demo_load :
  fst (load_data demo_parse demo_int demo_float insertion_argsort demo_format
                 "rec.csv" 1 demo_world)
  = Ok {| index := [0; 1; 2];
          data := [("Time"%string, [Num 0; Num 0.1; Num 0.2]);
                   ("Fp1"%string, [Num 1; Num nan; Num 3]);
                   ("CM"%string, [Int 5000; Int 5200; Int 5400])] |}.
Proof. vm_compute. reflexivity. Qed.

(** On the keys of the recordings above the two sorts agree. *)
Example aquicksort_small :
  aquicksort [Num 0.2; Num 0; Num 0.1] = insertion_argsort [Num 0.2; Num 0; Num 0.1]
  /\ aquicksort [Num 0; Num 0.1] = insertion_argsort [Num 0; Num 0.1].
Proof. split; vm_compute; reflexivity. Qed.

(** C4, counterexample.  [pd.to_numeric] leaves a column of integers a
    column of integers: in the table loaded from [rec.csv] the [CM] column
    holds the integers 5000, 5200, 5400, not floating-point values. *)
Lemma load_data_keeps_integer_columns :
  exists table,
    fst (load_data demo_parse demo_int demo_float stable_argsort demo_format
                   "rec.csv" 1 demo_world) = Ok table /\
    getitem table "CM" = Ok [Int 5000; Int 5200; Int 5400] /\
    ~ coerced_to_float table.
Proof.
  eexists. split; [exact demo_load|]. split; [reflexivity|].
  intros H.
  specialize (H "CM"%string [Int 5000; Int 5200; Int 5400]%Z
                ltac:(discriminate) eq_refl).
  inversion H as [|c col Hc _]. exact Hc.
Qed.

(** C5, counterexample.  [load_data] calls [sort_values('Time')] with no
    [kind], so the rows are sorted by numpy's quicksort, which is not a
    stable sort.  On a recording of twenty rows whose [Time] goes 1.0, 1.0,
    0.0, 0.0 five times over, rows with equal [Time] do not all come out in
    the order they went in. *)
Lemma sort_values_reorders_ties :
  index tied_raw = seq 0 (nrows tied_raw) /\
  (exists cleaned,
     clean demo_int demo_float aquicksort tied_raw = Ok cleaned /\
     ~ ties_keep_input_order cleaned) /\
  ~ sort_is_stable demo_int demo_float aquicksort.
Proof.
  assert (E : exists cleaned,
             clean demo_int demo_float aquicksort tied_raw = Ok cleaned /\
             ~ ties_keep_input_order cleaned).
  { eexists. split; [vm_compute; reflexivity|].
    intros H.
    specialize (H _ 0 1 (Num 0) (Num 0) 19 2
                  eq_refl (Nat.lt_0_succ 0) eq_refl eq_refl eq_refl eq_refl eq_refl).
    lia. }
  split; [reflexivity|]. split; [exact E|].
  intros H. destruct E as [cleaned [Hclean Hties]].
  apply Hties. exact (H tied_raw cleaned eq_refl Hclean).
Qed.

(** ** The exporter's contract *)

Lemma eqb_append_l p x y : ((p ++ x) =? (p ++ y))%string = (x =? y)%string.
Proof.
  induction p as [|c p IH]; simpl; [reflexivity|].
  now rewrite Ascii.eqb_refl.
Qed.

Lemma path_join_eqb dir a b :
  (path_join dir a =? path_join dir b)%string = (a =? b)%string.
Proof.
  unfold path_join. destruct ((dir =? "")%string || ends_with_slash dir)%bool.
  - apply eqb_append_l.
  - now rewrite !eqb_append_l.
Qed.

Section ExporterContract.

Variable to_html : Figure -> string.
Variable render_image : Figure -> string -> Z -> Z -> option Z -> result string.

Lemma save_plot_blocked fig output_dir w e :
  makedirs_error output_dir w = Some e ->
  save_plot to_html render_image fig output_dir w = (Raise e, w).
Proof.
  intros E. unfold save_plot. unfold bind at 1. unfold makedirs. now rewrite E.
Qed.

(** C8, as amended.  When the output directory cannot be made, [save_plot]
    raises the operating system's error before it writes or prints
    anything.  When it can, then whatever the static renderer does,
    [save_plot] returns normally and the interactive document is in place
    with the figure's HTML; when rendering either static image raises, the
    exception is caught: it is reported on standard output with the hint
    about the missing backend and never reaches the caller. *)
Theorem save_plot_interactive_always fig output_dir w :
  match makedirs_error output_dir w with
  | Some e => save_plot to_html render_image fig output_dir w = (Raise e, w)
  | None =>
      exists w',
        save_plot to_html render_image fig output_dir w = (Ok tt, w') /\
        lookup (path_join output_dir "multichannel_plot.html") (files w') = Some (to_html fig) /\
        forall e, static_failure render_image fig output_dir = Some e ->
          In ("Note: Static exports require 'kaleido'. Skipping PNG/PDF. Error: "
              ++ exn_str e)%string (stdout w') /\
          In "To enable static exports, install: pip install --upgrade kaleido"%string
             (stdout w')
  end.
Proof.
  destruct (makedirs_error output_dir w) as [e0|] eqn:Edir.
  - now apply save_plot_blocked.
  - unfold save_plot, static_failure, try_except, bind, write_image, write_html,
      write_file, makedirs, println, print, lift, ret.
    rewrite Edir. cbn [files stdout].
    destruct (render_image fig (path_join output_dir "multichannel_plot.png") _ _ _)
      as [png|e1]; cbn [files stdout].
    + destruct (render_image fig (path_join output_dir "multichannel_plot.pdf") _ _ _)
        as [pdf|e2]; cbn [files stdout].
      * eexists. split; [reflexivity|]. cbn [files stdout lookup].
        rewrite !path_join_eqb. cbn [String.eqb Ascii.eqb Bool.eqb].
        split; [reflexivity | discriminate].
      * eexists. split; [reflexivity|]. cbn [files stdout lookup].
        rewrite !path_join_eqb. cbn [String.eqb Ascii.eqb Bool.eqb].
        split; [reflexivity|]. intros e He. injection He as <-.
        split; apply in_or_app; [left; apply in_or_app; right | right]; now left.
    + eexists. split; [reflexivity|]. cbn [files stdout lookup].
      rewrite String.eqb_refl.
      split; [reflexivity|]. intros e He. injection He as <-.
      split; apply in_or_app; [left; apply in_or_app; right | right]; now left.
Qed.

End ExporterContract.

(** C8, counterexample.  With the empty string for output directory (as
    [--output ''] gives it), [os.makedirs] raises FileNotFoundError before
    anything is written: the call raises to its caller, prints nothing, and
    no interactive document is produced. *)
Lemma save_plot_without_directory :
  save_plot demo_html demo_render demo_figure "" demo_world
  = (Raise (FileNotFoundError ""), demo_world)
  /\ lookup (path_join "" "multichannel_plot.html") (files demo_world) = None.
Proof. split; reflexivity. Qed.

(** ** What the chart builder does to the caller's table *)

Lemma readonly_preserves R {A} (m : M PlotState A) :
  (forall df, R df df) -> readonly m -> preserves R m.
Proof. intros Hrefl Hm s. rewrite Hm. apply Hrefl. Qed.

Lemma preserves_bind R {A B} (m : M PlotState A) (k : A -> M PlotState B) :
  (forall a b c, R a b -> R b c -> R a c) ->
  preserves R m -> (forall a, preserves R (k a)) -> preserves R (bind m k).
Proof.
  intros Htrans Hm Hk s. unfold bind. specialize (Hm s).
  destruct (m s) as [[a|e] s1]; simpl in *; [|assumption].
  eapply Htrans; [exact Hm | apply Hk].
Qed.

Lemma preserves_forM_ R {A} (f : A -> M PlotState unit) l :
  (forall df, R df df) -> (forall a b c, R a b -> R b c -> R a c) ->
  (forall x, In x l -> preserves R (f x)) -> preserves R (forM_ l f).
Proof.
  intros Hrefl Htrans. induction l as [|x l IH]; intros Hf; simpl.
  - intros s. apply Hrefl.
  - apply preserves_bind; [assumption | apply Hf; now left |].
    intros _. apply IH. intros y Hy. apply Hf. now right.
Qed.

Lemma readonly_ret {A} (a : A) : readonly (ret a).
Proof. intros s. reflexivity. Qed.

Lemma readonly_lift {A} (r : result A) : readonly (lift r).
Proof. intros s. reflexivity. Qed.

Lemma readonly_column name : readonly (column name).
Proof. intros s. reflexivity. Qed.

Lemma readonly_table : readonly table.
Proof. intros s. reflexivity. Qed.

Lemma readonly_bind {A B} (m : M PlotState A) (k : A -> M PlotState B) :
  readonly m -> (forall a, readonly (k a)) -> readonly (bind m k).
Proof.
  intros Hm Hk s. unfold bind. specialize (Hm s).
  destruct (m s) as [[a|e] s1]; simpl in *; subst; [apply Hk | reflexivity].
Qed.

Lemma readonly_mapM {A B} (f : A -> M PlotState B) l :
  (forall x, readonly (f x)) -> readonly (mapM f l).
Proof.
  intros Hf. induction l as [|x l IH]; simpl; [apply readonly_ret|].
  apply readonly_bind; [apply Hf|]. intros y.
  apply readonly_bind; [apply IH|]. intros ys. apply readonly_ret.
Qed.

Lemma readonly_eeg_trace webgl ic : readonly (eeg_trace webgl ic).
Proof.
  unfold eeg_trace. repeat (apply readonly_bind; [apply readonly_column | intros ?]).
  apply readonly_ret.
Qed.

Lemma readonly_ecg_trace webgl label icd : readonly (ecg_trace webgl label icd).
Proof.
  unfold ecg_trace. repeat (apply readonly_bind; [apply readonly_column | intros ?]).
  apply readonly_ret.
Qed.

Lemma readonly_cm_trace webgl label icd : readonly (cm_trace webgl label icd).
Proof.
  unfold cm_trace. repeat (apply readonly_bind; [apply readonly_column | intros ?]).
  apply readonly_ret.
Qed.

Lemma readonly_ecg_axis_range cols : readonly (ecg_axis_range cols).
Proof.
  unfold ecg_axis_range.
  apply readonly_bind; [apply readonly_mapM; intros; apply readonly_column | intros ?].
  apply readonly_lift.
Qed.

Lemma echo_keeps_table line s : fst (snd (echo line s)) = fst s.
Proof. reflexivity. Qed.

Lemma adds_derived_only_refl df : adds_derived_only df df.
Proof. unfold adds_derived_only. repeat split; auto. Qed.

Lemma adds_derived_only_trans a b c :
  adds_derived_only a b -> adds_derived_only b c -> adds_derived_only a c.
Proof.
  intros [Hi1 [Hs1 [Hd1 Hl1]]] [Hi2 [Hs2 [Hd2 Hl2]]]. repeat split.
  - congruence.
  - auto.
  - intros k Hk. destruct (Hd2 k Hk) as [H | H]; auto.
  - intros k Hk. rewrite Hl2, Hl1; auto.
Qed.

Lemma columns_setitem df name col c :
  In c (columns (setitem df name col)) <-> In c (columns df) \/ c = name.
Proof.
  destruct (contains name (columns df)) eqn:E.
  - rewrite columns_setitem_existing by assumption. apply contains_In in E.
    split; [auto | intros [H | ->]; assumption].
  - unfold setitem, columns. cbn [data]. fold (columns df). rewrite E.
    rewrite map_app, in_app_iff. simpl. intuition.
Qed.

Lemma setitem_adds_derived df name col :
  In name derived_columns -> adds_derived_only df (setitem df name col).
Proof.
  intros Hn. repeat split.
  - intros c Hc. apply columns_setitem. now left.
  - intros c Hc. apply columns_setitem in Hc. destruct Hc as [Hc | ->]; auto.
  - intros c Hc. rewrite lookup_setitem.
    destruct (String.eqb_spec c name) as [->|Hne]; [contradiction | reflexivity].
Qed.

Lemma add_mv_column_adds_derived ch :
  In (mv_name ch) derived_columns -> preserves adds_derived_only (add_mv_column ch).
Proof.
  intros Hn s. unfold add_mv_column, bind, column, lift, assign.
  destruct (getitem (fst s) ch) as [col|e]; simpl; [|apply adds_derived_only_refl].
  destruct (series_div col 1000) as [scaled|e]; simpl; [|apply adds_derived_only_refl].
  now apply setitem_adds_derived.
Qed.

Lemma available_incl known channels df ch :
  In ch (available known channels df) -> In ch known.
Proof.
  unfold available. destruct channels as [[|c cs]|]; intros H;
    repeat (apply filter_In in H; destruct H as [H _]); assumption.
Qed.

Section ChartEffects.

Variable repr_names : list string -> string.

Lemma preserves_echo R line : (forall df, R df df) -> preserves R (echo line).
Proof. intros Hrefl s. rewrite echo_keeps_table. apply Hrefl. Qed.

(** Only the two unit conversions can touch the table. *)
Lemma create_plot_preserves R title ecg_units channels initial_range :
  (forall df, R df df) -> (forall a b c, R a b -> R b c -> R a c) ->
  (forall df, preserves R (convert_ecg ecg_units (available ecg_channels channels df))) ->
  (forall df, preserves R (convert_cm ecg_units (available cm_channels channels df))) ->
  preserves R (create_plot repr_names title ecg_units channels initial_range).
Proof.
  intros Hrefl Htrans Hecg Hcm. unfold create_plot.
  apply preserves_bind; [assumption | apply readonly_preserves; [assumption | apply readonly_table] |].
  intros df. cbv zeta.
  do 3 (apply preserves_bind; [assumption | now apply preserves_echo | intros _]).
  apply preserves_bind; [assumption | apply Hecg | intros ecg].
  apply preserves_bind; [assumption | apply Hcm | intros cm].
  apply readonly_preserves; [assumption|].
  apply readonly_bind; [apply readonly_table | intros df'].
  apply readonly_bind; [apply readonly_mapM, readonly_eeg_trace | intros eeg_traces].
  apply readonly_bind; [apply readonly_mapM, readonly_ecg_trace | intros ecg_traces].
  apply readonly_bind; [apply readonly_mapM, readonly_cm_trace | intros cm_traces].
  apply readonly_bind; [|intros r; apply readonly_ret].
  destruct (nonempty _ && nonempty _); [|apply readonly_ret].
  apply readonly_bind; [apply readonly_ecg_axis_range | intros r; apply readonly_ret].
Qed.

End ChartEffects.

(** ** What the chart builder renders *)

Lemma bind_Ok {S A B} (m : M S A) (k : A -> M S B) s b s' :
  bind m k s = (Ok b, s') -> exists a s1, m s = (Ok a, s1) /\ k a s1 = (Ok b, s').
Proof.
  unfold bind. destruct (m s) as [[a|e] s1]; intros H; [eauto | discriminate].
Qed.

Lemma mapM_cons_Ok {S A B} (f : A -> M S B) x l s ys s' :
  mapM f (x :: l) s = (Ok ys, s') ->
  exists y s1 ys', f x s = (Ok y, s1) /\ mapM f l s1 = (Ok ys', s') /\ ys = y :: ys'.
Proof.
  simpl. intros H.
  apply bind_Ok in H. destruct H as [y [s1 [Hy H]]].
  apply bind_Ok in H. destruct H as [ys' [s2 [Hys H]]].
  unfold ret in H. injection H as <- <-. eauto 6.
Qed.

Lemma mapM_Forall {S A B} (f : A -> M S B) (P : B -> Prop) :
  (forall x s y s', f x s = (Ok y, s') -> P y) ->
  forall l s ys s', mapM f l s = (Ok ys, s') -> Forall P ys.
Proof.
  intros Hf. induction l as [|x l IH]; intros s ys s' H.
  - simpl in H. unfold ret in H. injection H as <- _. constructor.
  - apply mapM_cons_Ok in H. destruct H as [y [s1 [ys' [Hy [Hys ->]]]]].
    constructor; eauto.
Qed.

Lemma series_div_Ok col scaled :
  series_div col 1000 = Ok scaled -> scaled = in_millivolts col.
Proof.
  unfold series_div, in_millivolts. revert scaled.
  induction col as [|c col IH]; simpl; intros scaled H.
  - now injection H as <-.
  - destruct c as [x|z|s]; simpl in H; [| |discriminate];
      (destruct (mapM_result (div_cell 1000) col) as [rest|e]; simpl in H; [|discriminate]);
      injection H as <-; simpl; f_equal; now apply IH.
Qed.

Lemma add_mv_column_Ok ch df w s' :
  add_mv_column ch (df, w) = (Ok tt, s') ->
  exists col, lookup ch (data df) = Some col /\
              s' = (setitem df (mv_name ch) (in_millivolts col), w).
Proof.
  unfold add_mv_column, bind, column, lift, assign, getitem. cbn [fst snd].
  destruct (lookup ch (data df)) as [col|]; [|discriminate].
  destruct (series_div col 1000) as [scaled|e] eqn:E; [|discriminate].
  intros H. injection H as <-. apply series_div_Ok in E. subst. eauto.
Qed.

Lemma forM_add_mv_column_Ok chs : forall df w s',
  forM_ chs add_mv_column (df, w) = (Ok tt, s') ->
  (forall a b, In a chs -> In b chs -> a <> mv_name b) ->
  NoDup (map mv_name chs) ->
  snd s' = w /\
  (forall k, ~ In k (map mv_name chs) -> lookup k (data (fst s')) = lookup k (data df)) /\
  (forall ch, In ch chs ->
     exists col, lookup ch (data df) = Some col /\
                 lookup (mv_name ch) (data (fst s')) = Some (in_millivolts col)).
Proof.
  induction chs as [|c rest IH]; intros df w s' H Hraw Hnd.
  - simpl in H. unfold ret in H. injection H as <-.
    split; [reflexivity|]. split; [reflexivity|]. intros ch [].
  - simpl in H. apply bind_Ok in H. destruct H as [[] [s1 [Hc H]]].
    apply add_mv_column_Ok in Hc. destruct Hc as [col [Hcol ->]].
    inversion Hnd as [|? ? Hfresh Hnd']; subst.
    destruct (IH _ _ _ H (fun a b Ha Hb => Hraw a b (or_intror Ha) (or_intror Hb)) Hnd')
      as [Hw [Hother Hmv]].
    assert (Hk : forall k, ~ In k (map mv_name (c :: rest)) ->
                           lookup k (data (fst s')) = lookup k (data df)).
    { intros k Hk. rewrite Hother by (intros Hin; apply Hk; now right).
      rewrite lookup_setitem. destruct (String.eqb_spec k (mv_name c)) as [->|Hne].
      - exfalso. apply Hk. now left.
      - reflexivity. }
    split; [assumption|]. split; [exact Hk|].
    intros ch [<-|Hin].
    + exists col. split; [assumption|].
      rewrite Hother by assumption. rewrite lookup_setitem. now rewrite String.eqb_refl.
    + destruct (Hmv ch Hin) as [col' [Hcol' Hmv']].
      exists col'. split; [|assumption].
      rewrite lookup_setitem in Hcol'.
      destruct (String.eqb_spec ch (mv_name c)) as [E|Hne]; [|assumption].
      exfalso. apply (Hraw ch c); [now right | now left | assumption].
Qed.

Lemma NoDup_map_filter {A B} (f : A -> B) (p : A -> bool) l :
  NoDup (map f l) -> NoDup (map f (filter p l)).
Proof.
  induction l as [|x l IH]; simpl; intros H; [constructor|].
  inversion H as [|? ? Hx Hl]; subst.
  destruct (p x); simpl; [|auto]. constructor; [|auto].
  intros Hin. apply Hx. apply in_map_iff in Hin. destruct Hin as [y [Hy Hin]].
  apply filter_In in Hin. apply in_map_iff. exists y. tauto.
Qed.

Lemma available_NoDup_mv known channels df :
  NoDup (map mv_name known) -> NoDup (map mv_name (available known channels df)).
Proof.
  intros H. unfold available.
  destruct channels as [[|c cs]|]; repeat apply NoDup_map_filter; assumption.
Qed.

Lemma available_present known channels df ch :
  In ch (available known channels df) -> exists col, lookup ch (data df) = Some col.
Proof.
  intros H. apply contains_lookup.
  unfold available in H. destruct channels as [[|c cs]|].
  - apply filter_In in H. tauto.
  - apply filter_In in H. destruct H as [H _]. apply filter_In in H. tauto.
  - apply filter_In in H. tauto.
Qed.

Lemma ecg_names_not_derived a b :
  In a ecg_channels -> In b ecg_channels -> a <> mv_name b.
Proof.
  intros [<-|[<-|[]]] [<-|[<-|[]]]; discriminate.
Qed.

Lemma convert_ecg_Ok ecg_units available_ecg df w ecg s1 :
  convert_ecg ecg_units available_ecg (df, w) = (Ok ecg, s1) ->
  (forall ch, In ch available_ecg -> In ch ecg_channels) ->
  NoDup (map mv_name available_ecg) ->
  (forall ch, In ch available_ecg -> exists col, lookup ch (data df) = Some col) ->
  ecg = (map (ecg_data_col ecg_units) available_ecg,
         if String.eqb ecg_units "mv" then "mV"%string else "uV"%string) /\
  forall ch, In ch available_ecg ->
    exists col, lookup ch (data df) = Some col /\
                lookup (ecg_data_col ecg_units ch) (data (fst s1))
                = Some (rendered_ecg ecg_units col).
Proof.
  unfold convert_ecg, ecg_data_col, rendered_ecg. intros H Hknown Hnd Hpresent.
  destruct (String.eqb ecg_units "mv").
  - apply bind_Ok in H. destruct H as [[] [s [Hloop H]]].
    unfold ret in H. injection H as <- <-.
    apply forM_add_mv_column_Ok in Hloop; [|intros a b Ha Hb; apply ecg_names_not_derived; auto
                                           |assumption].
    destruct Hloop as [_ [_ Hmv]]. split; [reflexivity | exact Hmv].
  - unfold ret in H. injection H as <- <-. split.
    + f_equal. symmetry. apply map_id.
    + intros ch Hch. destruct (Hpresent ch Hch) as [col Hcol]. exists col. now split.
Qed.

Lemma convert_cm_keeps_others ecg_units available_cm s cm s2 :
  convert_cm ecg_units available_cm s = (Ok cm, s2) ->
  forall k, k <> "CM_mV"%string -> lookup k (data (fst s2)) = lookup k (data (fst s)).
Proof.
  unfold convert_cm. intros H k Hk. destruct s as [df w].
  destruct (String.eqb ecg_units "mv" && nonempty available_cm).
  - apply bind_Ok in H. destruct H as [[] [s [Hadd H]]].
    unfold ret in H. injection H as _ <-.
    apply add_mv_column_Ok in Hadd. destruct Hadd as [col [_ ->]].
    cbn [fst]. rewrite lookup_setitem.
    destruct (String.eqb_spec k (mv_name "CM")) as [E|_]; [contradiction | reflexivity].
  - unfold ret in H. now injection H as _ <-.
Qed.

Lemma ecg_traces_read webgl label (g : string -> string) : forall l a s trs s',
  mapM (ecg_trace webgl label) (combine (seq a (length l)) (combine l (map g l))) s
  = (Ok trs, s') ->
  Forall2 (fun ch tr => tr_name tr = ch /\ lookup (g ch) (data (fst s)) = Some (tr_y tr))
          l trs.
Proof.
  induction l as [|ch l IH]; intros a s trs s' H.
  - simpl in H. unfold ret in H. injection H as <- _. constructor.
  - cbn [length seq map combine] in H.
    apply mapM_cons_Ok in H. destruct H as [tr [s1 [trs' [Htr [Hrest ->]]]]].
    unfold ecg_trace, bind, column, ret, getitem in Htr. cbn [fst snd] in Htr.
    destruct (lookup "Time" (data (fst s))) as [x|]; [|discriminate].
    destruct (lookup (g ch) (data (fst s))) as [y|] eqn:Ey; [|discriminate].
    injection Htr as <- <-. constructor.
    + split; [reflexivity | exact Ey].
    + eapply IH. exact Hrest.
Qed.

Lemma Forall2_impl_In {A B} (P Q : A -> B -> Prop) l ys :
  Forall2 P l ys -> (forall x y, In x l -> P x y -> Q x y) -> Forall2 Q l ys.
Proof.
  induction 1 as [|x y l ys Hxy Hrest IH]; intros Himp; constructor.
  - apply Himp; [now left | assumption].
  - apply IH. intros x' y' Hin. apply Himp. now right.
Qed.

Lemma filter_all {A} (p : A -> bool) l : Forall (fun x => p x = true) l -> filter p l = l.
Proof.
  induction 1 as [|x l Hx _ IH]; simpl; [reflexivity|]. now rewrite Hx, IH.
Qed.

Lemma filter_none {A} (p : A -> bool) l : Forall (fun x => p x = false) l -> filter p l = [].
Proof.
  induction 1 as [|x l Hx _ IH]; simpl; [reflexivity|]. now rewrite Hx, IH.
Qed.

Lemma eeg_trace_group webgl ic s tr s' :
  eeg_trace webgl ic s = (Ok tr, s') -> is_ecg_trace tr = false.
Proof.
  unfold eeg_trace, bind, column, ret.
  destruct (getitem (fst s) "Time"); [|discriminate]. cbn [fst snd].
  destruct (getitem (fst s) (snd ic)); [|discriminate].
  intros H. now injection H as <- _.
Qed.

Lemma ecg_trace_group webgl label icd s tr s' :
  ecg_trace webgl label icd s = (Ok tr, s') -> is_ecg_trace tr = true.
Proof.
  unfold ecg_trace, bind, column, ret.
  destruct (getitem (fst s) "Time"); [|discriminate]. cbn [fst snd].
  destruct (getitem (fst s) (snd (snd icd))); [|discriminate].
  intros H. now injection H as <- _.
Qed.

Lemma cm_trace_group webgl label icd s tr s' :
  cm_trace webgl label icd s = (Ok tr, s') -> is_ecg_trace tr = false.
Proof.
  unfold cm_trace, bind, column, ret.
  destruct (getitem (fst s) "Time"); [|discriminate]. cbn [fst snd].
  destruct (getitem (fst s) (snd (snd icd))); [|discriminate].
  intros H. now injection H as <- _.
Qed.

Lemma ecg_data_col_not_cm ecg_units ch :
  In ch ecg_channels -> ecg_data_col ecg_units ch <> "CM_mV"%string.
Proof.
  unfold ecg_data_col. intros [<-|[<-|[]]]; destruct (String.eqb ecg_units "mv"); discriminate.
Qed.

(** ** The chart builder returns on a loaded table *)

Lemma series_div_num col :
  Forall is_num col -> series_div col 1000 = Ok (in_millivolts col).
Proof.
  unfold series_div, in_millivolts.
  induction 1 as [|c col Hc _ IH]; simpl; [reflexivity|].
  destruct c as [x|z|s]; [| |contradiction]; simpl; now rewrite IH.
Qed.

Lemma in_millivolts_num col : Forall is_num (in_millivolts col).
Proof. unfold in_millivolts. apply Forall_map. apply Forall_forall. now intros. Qed.

Lemma plottable_setitem df name col :
  plottable df -> name <> "Time"%string -> Forall is_num col -> col <> [] ->
  plottable (setitem df name col).
Proof.
  intros [[time Htime] Hall] Hname Hnum Hne. split.
  - exists time. rewrite lookup_setitem.
    destruct (String.eqb_spec "Time"%string name); [congruence | assumption].
  - intros c col'. rewrite lookup_setitem.
    destruct (String.eqb c name); [|apply Hall].
    intros H. injection H as <-. now split.
Qed.

Lemma In_columns_lookup df c :
  In c (columns df) <-> exists col, lookup c (data df) = Some col.
Proof.
  split.
  - apply lookup_In_fst.
  - intros [col H]. eapply lookup_Some_In. eassumption.
Qed.

Lemma add_mv_column_returns ch df w :
  plottable df -> In ch (columns df) -> mv_name ch <> "Time"%string ->
  exists df',
    add_mv_column ch (df, w) = (Ok tt, (df', w)) /\
    plottable df' /\
    (forall c, In c (columns df) -> In c (columns df')) /\
    In (mv_name ch) (columns df').
Proof.
  intros Hp Hin Hname. apply In_columns_lookup in Hin. destruct Hin as [col Hcol].
  destruct (proj2 Hp ch col Hcol) as [Hnum Hne].
  exists (setitem df (mv_name ch) (in_millivolts col)).
  split; [|split; [|split]].
  - unfold add_mv_column, bind, column, lift, assign, getitem. cbn [fst snd].
    rewrite Hcol. now rewrite series_div_num.
  - apply plottable_setitem; try assumption.
    + apply in_millivolts_num.
    + unfold in_millivolts. destruct col; [contradiction | discriminate].
  - intros c Hc. apply columns_setitem. now left.
  - apply columns_setitem. now right.
Qed.

Lemma forM_add_mv_column_returns chs : forall df w,
  plottable df ->
  (forall ch, In ch chs -> In ch (columns df) /\ mv_name ch <> "Time"%string) ->
  exists df',
    forM_ chs add_mv_column (df, w) = (Ok tt, (df', w)) /\
    plottable df' /\
    (forall c, In c (columns df) -> In c (columns df')) /\
    (forall ch, In ch chs -> In (mv_name ch) (columns df')).
Proof.
  induction chs as [|c rest IH]; intros df w Hp Hchs.
  - exists df. split; [reflexivity|]. split; [assumption|]. split; [auto | intros ch []].
  - destruct (Hchs c (or_introl eq_refl)) as [Hc Hname].
    destruct (@add_mv_column_returns c df w Hp Hc Hname) as [df1 [E1 [Hp1 [Hsub1 Hmv1]]]].
    destruct (IH df1 w Hp1) as [df' [E [Hp' [Hsub Hmv]]]].
    { intros ch Hch. destruct (Hchs ch (or_intror Hch)). auto. }
    exists df'. split; [|split; [|split]].
    + simpl. unfold bind. rewrite E1. exact E.
    + assumption.
    + auto.
    + intros ch [<-|Hch]; auto.
Qed.

Lemma mapM_returns {S A B} (f : A -> M S B) s l :
  (forall x, In x l -> exists y, f x s = (Ok y, s)) ->
  exists ys, mapM f l s = (Ok ys, s).
Proof.
  induction l as [|x l IH]; intros Hf.
  - exists []. reflexivity.
  - destruct (Hf x (or_introl eq_refl)) as [y Hy].
    destruct IH as [ys Hys]; [intros x' Hx'; apply Hf; now right|].
    exists (y :: ys). simpl. unfold bind. rewrite Hy, Hys. reflexivity.
Qed.

Lemma trace_columns_read df w name :
  In name (columns df) -> exists col, column name (df, w) = (Ok col, (df, w)).
Proof.
  intros H. apply In_columns_lookup in H. destruct H as [col Hcol].
  exists col. unfold column, getitem. cbn [fst]. now rewrite Hcol.
Qed.

Lemma eeg_trace_returns webgl ic df w :
  In "Time"%string (columns df) -> In (snd ic) (columns df) ->
  exists tr, eeg_trace webgl ic (df, w) = (Ok tr, (df, w)).
Proof.
  intros HT Hc.
  destruct (@trace_columns_read df w _ HT) as [x Hx].
  destruct (@trace_columns_read df w _ Hc) as [y Hy].
  eexists. unfold eeg_trace, bind. rewrite Hx, Hy. reflexivity.
Qed.

Lemma ecg_trace_returns webgl label icd df w :
  In "Time"%string (columns df) -> In (snd (snd icd)) (columns df) ->
  exists tr, ecg_trace webgl label icd (df, w) = (Ok tr, (df, w)).
Proof.
  intros HT Hc.
  destruct (@trace_columns_read df w _ HT) as [x Hx].
  destruct (@trace_columns_read df w _ Hc) as [y Hy].
  eexists. unfold ecg_trace, bind. rewrite Hx, Hy. reflexivity.
Qed.

Lemma cm_trace_returns webgl label icd df w :
  In "Time"%string (columns df) -> In (snd (snd icd)) (columns df) ->
  exists tr, cm_trace webgl label icd (df, w) = (Ok tr, (df, w)).
Proof.
  intros HT Hc.
  destruct (@trace_columns_read df w _ HT) as [x Hx].
  destruct (@trace_columns_read df w _ Hc) as [y Hy].
  eexists. unfold cm_trace, bind. rewrite Hx, Hy. reflexivity.
Qed.

Lemma in_enumerate {A} (l : list A) i x : In (i, x) (enumerate l) -> In x l.
Proof. unfold enumerate. apply in_combine_r. Qed.

Lemma int_values_Some cells : forall zs, int_values cells = Some zs -> cells = map Int zs.
Proof.
  induction cells as [|c cells IH]; simpl; intros zs H.
  - now injection H as <-.
  - destruct c as [x|z|t]; try discriminate.
    destruct (int_values cells) as [zs'|]; [|discriminate].
    injection H as <-. simpl. f_equal. now apply IH.
Qed.

Lemma int_values_map zs : int_values (map Int zs) = Some zs.
Proof. induction zs as [|z zs IH]; simpl; [reflexivity | now rewrite IH]. Qed.

Lemma no_text cells : Forall is_num cells -> existsb is_text cells = false.
Proof.
  induction 1 as [|c cells Hc _ IH]; simpl; [reflexivity|].
  rewrite IH. now destruct c.
Qed.

(** The array behind a selection of numeric columns is an int64 array when
    every cell is an integer and a float64 array otherwise. *)
Lemma values_numeric cols :
  Forall is_num (concat cols) ->
  (exists zs, concat cols = map Int zs /\ values cols = IntArray zs) \/
  (int_values (concat cols) = None /\ values cols = FloatArray (map key_of (concat cols))).
Proof.
  intros H. unfold values. cbv zeta. rewrite (no_text H).
  destruct (int_values (concat cols)) as [zs|] eqn:E.
  - left. exists zs. split; [now apply int_values_Some | reflexivity].
  - right. now split.
Qed.

Lemma padded_extent_empty cols :
  concat cols = [] ->
  padded_extent (values cols)
  = Raise (ValueError "zero-size array to reduction operation minimum which has no identity").
Proof. intros E. unfold values. rewrite E. reflexivity. Qed.

Lemma padded_extent_returns cols :
  Forall is_num (concat cols) -> concat cols <> [] ->
  exists r, padded_extent (values cols) = Ok r.
Proof.
  intros H Hne. destruct (values_numeric cols H) as [[zs [E ->]] | [_ ->]].
  - destruct zs as [|z zs]; [now rewrite E in Hne|]. eexists. reflexivity.
  - destruct (concat cols) as [|c cells]; [contradiction|]. eexists. reflexivity.
Qed.

Lemma Forall_concat {A} (P : A -> Prop) (ls : list (list A)) :
  Forall (Forall P) ls -> Forall P (concat ls).
Proof.
  induction 1 as [|l ls Hl _ IH]; simpl; [constructor | now apply Forall_app].
Qed.

Lemma mapM_column_returns names df w :
  (forall n, In n names -> In n (columns df)) ->
  exists cols, mapM column names (df, w) = (Ok cols, (df, w)) /\
               Forall2 (fun n c => lookup n (data df) = Some c) names cols.
Proof.
  intros Hin. induction names as [|n names IH].
  - exists []. split; [reflexivity | constructor].
  - assert (Hn : In n (columns df)) by (apply Hin; now left).
    apply In_columns_lookup in Hn. destruct Hn as [c Hc].
    destruct IH as [cols [E HF]]; [intros n' Hn'; apply Hin; now right|].
    exists (c :: cols). split; [|now constructor].
    simpl. unfold bind at 1. unfold column at 1, getitem. cbn [fst]. rewrite Hc.
    unfold bind. rewrite E. reflexivity.
Qed.

Lemma ecg_axis_range_returns df w names :
  plottable df -> names <> [] -> (forall n, In n names -> In n (columns df)) ->
  exists r, ecg_axis_range names (df, w) = (Ok r, (df, w)).
Proof.
  intros Hp Hne Hin.
  destruct (@mapM_column_returns names df w Hin) as [cols [E HF]].
  assert (Hnum : Forall (Forall is_num) cols).
  { clear E Hne Hin. induction HF as [|n c names' cols' Hc _ IH]; constructor; [|assumption].
    now destruct (proj2 Hp n c Hc). }
  destruct (@padded_extent_returns cols (Forall_concat Hnum)) as [r Er].
  { destruct HF as [|n c names' cols' Hc HF']; [contradiction|].
    destruct (proj2 Hp n c Hc) as [_ Hc_ne].
    destruct c as [|c0 c]; [contradiction | discriminate]. }
  exists r. unfold ecg_axis_range, bind. rewrite E. cbv zeta. unfold lift. now rewrite Er.
Qed.

Lemma bind_eval {S A B} (m : M S A) (k : A -> M S B) s a s1 :
  m s = (Ok a, s1) -> bind m k s = k a s1.
Proof. intros E. unfold bind. now rewrite E. Qed.

Lemma ecg_mv_name_not_time ch : In ch ecg_channels -> mv_name ch <> "Time"%string.
Proof. intros [<-|[<-|[]]]; discriminate. Qed.

Lemma nonempty_true {A} (l : list A) : nonempty l = true <-> l <> [].
Proof. destruct l; simpl; split; congruence. Qed.

Lemma convert_ecg_returns ecg_units channels df w :
  plottable df ->
  exists df1 ecg,
    convert_ecg ecg_units (available ecg_channels channels df) (df, w) = (Ok ecg, (df1, w)) /\
    plottable df1 /\
    (forall c, In c (columns df) -> In c (columns df1)) /\
    (forall n, In n (fst ecg) -> In n (columns df1)).
Proof.
  intros Hp. unfold convert_ecg.
  assert (Hav : forall ch, In ch (available ecg_channels channels df) -> In ch (columns df)).
  { intros ch Hch. apply In_columns_lookup. eapply available_present. exact Hch. }
  destruct (String.eqb ecg_units "mv").
  - destruct (@forM_add_mv_column_returns (available ecg_channels channels df) df w Hp)
      as [df1 [E [Hp1 [Hsub Hmv]]]].
    { intros ch Hch. split; [now apply Hav|].
      apply ecg_mv_name_not_time. eapply available_incl. exact Hch. }
    exists df1. eexists. rewrite (@bind_eval _ _ _ _ _ _ _ _ E). unfold ret.
    split; [reflexivity|]. split; [assumption|]. split; [assumption|].
    cbn [fst]. intros n Hn. apply in_map_iff in Hn. destruct Hn as [ch [<- Hch]]. auto.
  - exists df. eexists. unfold ret. split; [reflexivity|]. split; [assumption|].
    split; [auto|]. cbn [fst]. exact Hav.
Qed.

Lemma convert_cm_returns ecg_units channels df0 df w :
  plottable df ->
  (forall c, In c (columns df0) -> In c (columns df)) ->
  exists df2 cm,
    convert_cm ecg_units (available cm_channels channels df0) (df, w) = (Ok cm, (df2, w)) /\
    plottable df2 /\
    (forall c, In c (columns df) -> In c (columns df2)) /\
    (forall n, In n (fst cm) -> In n (columns df2)).
Proof.
  intros Hp Hsub0. unfold convert_cm.
  assert (Hav : forall ch, In ch (available cm_channels channels df0) -> In ch (columns df)).
  { intros ch Hch. apply Hsub0. apply In_columns_lookup. eapply available_present. exact Hch. }
  destruct (String.eqb ecg_units "mv" && nonempty (available cm_channels channels df0)) eqn:E.
  - apply andb_true_iff in E. destruct E as [_ E].
    assert (HCM : In "CM"%string (columns df)).
    { apply nonempty_true in E.
      destruct (available cm_channels channels df0) as [|ch rest] eqn:Eav; [contradiction|].
      assert (Hch : In ch (available cm_channels channels df0)) by (rewrite Eav; now left).
      pose proof (available_incl _ _ _ _ Hch) as Hk. destruct Hk as [<-|[]].
      apply Hav. now left. }
    destruct (@add_mv_column_returns "CM"%string df w Hp HCM) as [df2 [E2 [Hp2 [Hsub Hmv]]]];
      [discriminate|].
    exists df2. eexists. rewrite (@bind_eval _ _ _ _ _ _ _ _ E2). unfold ret.
    split; [reflexivity|]. split; [assumption|]. split; [assumption|].
    cbn [fst]. intros n [<-|[]]. exact Hmv.
  - exists df. eexists. unfold ret. split; [reflexivity|]. split; [assumption|].
    split; [auto|]. cbn [fst]. exact Hav.
Qed.

Lemma plottable_has_time df : plottable df -> In "Time"%string (columns df).
Proof. intros [Ht _]. now apply In_columns_lookup. Qed.

Section ChartRendering.

Variable repr_names : list string -> string.

Lemma create_plot_returns title ecg_units channels initial_range df w :
  plottable df ->
  exists fig s',
    create_plot repr_names title ecg_units channels initial_range (df, w) = (Ok fig, s').
Proof.
  intros Hp. unfold create_plot.
  rewrite (@bind_eval _ _ _ table _ (df, w) df (df, w) eq_refl). cbv zeta.
  do 3 (erewrite (@bind_eval _ _ _ (echo _)); [|reflexivity]).
  cbn [fst snd files stdout].
  match goal with |- context [(df, ?w0)] => set (w3 := w0) end.
  destruct (convert_ecg_returns ecg_units channels w3 Hp)
    as [df1 [ecg [Eecg [Hp1 [Hsub1 Hcols1]]]]].
  rewrite (@bind_eval _ _ _ _ _ _ _ _ Eecg).
  destruct (@convert_cm_returns ecg_units channels df df1 w3 Hp1 Hsub1)
    as [df2 [cm [Ecm [Hp2 [Hsub2 Hcols2]]]]].
  rewrite (@bind_eval _ _ _ _ _ _ _ _ Ecm).
  rewrite (@bind_eval _ _ _ table _ (df2, w3) df2 (df2, w3) eq_refl).
  pose proof (plottable_has_time Hp2) as HT.
  assert (Hpresent : forall known ch, In ch (available known channels df) -> In ch (columns df2)).
  { intros known ch Hch. apply Hsub2, Hsub1, In_columns_lookup.
    eapply available_present. exact Hch. }
  destruct (@mapM_returns _ _ _ (eeg_trace (10000 <? Z.of_nat (nrows df2))%Z) (df2, w3)
                          (enumerate (available eeg_channels channels df)))
    as [eeg_traces Eeeg].
  { intros [i ch] Hin. apply eeg_trace_returns; [assumption|].
    apply in_enumerate in Hin. eapply Hpresent. exact Hin. }
  rewrite (@bind_eval _ _ _ _ _ _ _ _ Eeeg).
  destruct (@mapM_returns _ _ _ (ecg_trace (10000 <? Z.of_nat (nrows df2))%Z (snd ecg))
                          (df2, w3)
                          (enumerate (combine (available ecg_channels channels df) (fst ecg))))
    as [ecg_traces Eecgt].
  { intros [i [ch dc]] Hin. apply ecg_trace_returns; [assumption|].
    apply in_enumerate, in_combine_r in Hin. apply Hsub2, Hcols1. exact Hin. }
  rewrite (@bind_eval _ _ _ _ _ _ _ _ Eecgt).
  destruct (@mapM_returns _ _ _ (cm_trace (10000 <? Z.of_nat (nrows df2))%Z (snd cm))
                          (df2, w3)
                          (enumerate (combine (available cm_channels channels df) (fst cm))))
    as [cm_traces Ecmt].
  { intros [i [ch dc]] Hin. apply cm_trace_returns; [assumption|].
    apply in_enumerate, in_combine_r in Hin. apply Hcols2. exact Hin. }
  rewrite (@bind_eval _ _ _ _ _ _ _ _ Ecmt).
  destruct (nonempty (available ecg_channels channels df) && nonempty (fst ecg)) eqn:Enz.
  - apply andb_true_iff in Enz. destruct Enz as [_ Enz]. apply nonempty_true in Enz.
    destruct (@ecg_axis_range_returns df2 w3 (fst ecg) Hp2 Enz) as [r Er].
    { intros n Hn. apply Hsub2, Hcols1. exact Hn. }
    rewrite (@bind_eval _ _ _ _ _ _ _ _ (@bind_eval _ _ _ _ (fun r => ret (Some r)) _ _ _ Er)).
    unfold ret. eexists. eexists. reflexivity.
  - unfold bind, ret. eexists. eexists. reflexivity.
Qed.

(** When [create_plot] returns a figure, its ECG traces show the loaded
    ECG columns in the unit mode asked for. *)
Lemma create_plot_ecg_traces title ecg_units channels initial_range df w fig s' :
  create_plot repr_names title ecg_units channels initial_range (df, w) = (Ok fig, s') ->
  Forall2 (fun ch tr =>
             tr_name tr = ch /\
             exists col, getitem df ch = Ok col /\ tr_y tr = rendered_ecg ecg_units col)
          (available ecg_channels channels df)
          (filter is_ecg_trace (fig_traces fig)).
Proof.
  intros H. unfold create_plot in H.
  apply bind_Ok in H. destruct H as [df0 [s0 [Ht H]]].
  unfold table in Ht. cbn [fst] in Ht. injection Ht as <- <-. cbv zeta in H.
  set (available_ecg := available ecg_channels channels df) in *.
  do 3 (apply bind_Ok in H; destruct H as [[] [? [He H]]];
        unfold echo, print in He; cbn [fst snd] in He; injection He as <-).
  apply bind_Ok in H. destruct H as [ecg [s1 [Hecg H]]].
  apply bind_Ok in H. destruct H as [cm [s2 [Hcm H]]].
  apply bind_Ok in H. destruct H as [df2 [s2' [Ht H]]].
  unfold table in Ht. injection Ht as <- <-.
  apply bind_Ok in H. destruct H as [eeg_traces [s3 [Heeg H]]].
  apply bind_Ok in H. destruct H as [ecg_traces [s4 [Hecgt H]]].
  apply bind_Ok in H. destruct H as [cm_traces [s5 [Hcmt H]]].
  apply bind_Ok in H. destruct H as [rng [s6 [_ H]]].
  unfold ret in H. injection H as <- _. cbn [fig_traces].
  assert (E3 : s3 = s2).
  { pose proof (readonly_mapM (eeg_trace (10000 <? Z.of_nat (nrows (fst s2)))%Z)
                              (enumerate (available eeg_channels channels df))
                              (readonly_eeg_trace _) s2) as R.
    now rewrite Heeg in R. }
  subst s3.
  apply convert_ecg_Ok in Hecg;
    [|intros ch Hch; eapply available_incl; exact Hch
     |apply available_NoDup_mv; repeat constructor; simpl; intuition discriminate
     |intros ch Hch; eapply available_present; exact Hch].
  destruct Hecg as [-> Hcols]. cbn [fst snd] in *.
  rewrite !filter_app.
  rewrite (filter_none is_ecg_trace (l:=eeg_traces)).
  2:{ eapply mapM_Forall; [|exact Heeg]. intros; eapply eeg_trace_group; eassumption. }
  rewrite (filter_none is_ecg_trace (l:=cm_traces)).
  2:{ eapply mapM_Forall; [|exact Hcmt]. intros; eapply cm_trace_group; eassumption. }
  rewrite (filter_all is_ecg_trace (l:=ecg_traces)).
  2:{ eapply mapM_Forall; [|exact Hecgt]. intros; eapply ecg_trace_group; eassumption. }
  rewrite app_nil_r. cbn [app].
  unfold enumerate in Hecgt.
  rewrite length_combine, length_map, Nat.min_id in Hecgt.
  apply ecg_traces_read in Hecgt.
  eapply Forall2_impl_In; [exact Hecgt|].
  intros ch tr Hch [Hname Hy]. split; [assumption|].
  destruct (Hcols ch Hch) as [col [Hcol Hmv]].
  exists col. split; [now apply getitem_lookup|].
  rewrite (convert_cm_keeps_others _ _ _ Hcm) in Hy
    by (apply ecg_data_col_not_cm; eapply available_incl; exact Hch).
  congruence.
Qed.

(** C9.  On a table it can chart, [create_plot] returns a figure whose ECG
    traces are, in order, one per available ECG channel, and the y values
    of each are the channel's column of the table as loaded: divided by 1000
    in mode [mv], passed through unchanged in any other mode, [uv] in
    particular.  A raw 1500 (microvolts) is rendered as 1.5 (millivolts). *)
Theorem create_plot_ecg_units title ecg_units channels initial_range df w :
  plottable df ->
  exists fig s',
    create_plot repr_names title ecg_units channels initial_range (df, w) = (Ok fig, s') /\
    Forall2 (fun ch tr =>
               tr_name tr = ch /\
               exists col, getitem df ch = Ok col /\ tr_y tr = rendered_ecg ecg_units col)
            (available ecg_channels channels df)
            (filter is_ecg_trace (fig_traces fig))
    /\ rendered_ecg "mv" [Num 1500] = [Num 1.5]
    /\ rendered_ecg "uv" [Num 1500] = [Num 1500].
Proof.
  intros Hp.
  destruct (create_plot_returns title ecg_units channels initial_range w Hp) as [fig [s' E]].
  exists fig, s'. split; [exact E|]. split; [|split; reflexivity].
  eapply create_plot_ecg_traces. exact E.
Qed.

End ChartRendering.

(** ** Runs on concrete inputs *)

Lemma untimed_has_no_time : ~ In "Time"%string (columns untimed_raw).
Proof. simpl. intros [H|[H|[]]]; discriminate. Qed.

Lemma load_data_without_time_raises_witness :
  fst (load_data demo_parse demo_int demo_float stable_argsort demo_format "untimed.csv" 1 demo_world)
  = Raise (ValueError "Expected a 'Time' column (seconds).")
  /\ forall table,
       fst (load_data demo_parse demo_int demo_float stable_argsort demo_format "untimed.csv" 1 demo_world)
       <> Ok table.
Proof.
  exact (@load_data_without_time_raises demo_parse demo_int demo_float stable_argsort demo_format
           demo_world "untimed.csv" untimed_raw 1 untimed_reads untimed_has_no_time).
Defined.

Lemma load_data_time_sorted_witness :
  exists table w' time,
    load_data demo_parse demo_int demo_float stable_argsort demo_format "rec.csv" 2 demo_world
    = (Ok table, w') /\
    getitem table "Time" = Ok time /\
    Forall (fun c => isna c = false) time /\
    StronglySorted time_le time.
Proof.
  apply (@load_data_time_sorted demo_parse demo_int demo_float stable_argsort demo_format
           demo_world "rec.csv" demo_raw 2).
  - apply insertion_argsort_ascending.
  - exact demo_reads.
  - reflexivity.
Defined.

Lemma load_data_decimation_law_witness :
  exists cleaned table w',
    clean demo_int demo_float stable_argsort demo_raw = Ok cleaned /\
    load_data demo_parse demo_int demo_float stable_argsort demo_format "rec.csv" 2 demo_world
    = (Ok table, w') /\
    (forall i, row_at table i = row_at cleaned (i * Z.to_nat 2)) /\
    nrows table = (nrows cleaned + Z.to_nat 2 - 1) / Z.to_nat 2 /\
    index table = seq 0 (nrows table).
Proof.
  apply (@load_data_decimation_law demo_parse demo_int demo_float stable_argsort demo_format
           demo_world "rec.csv" demo_raw 2).
  - lia.
  - exact demo_reads.
  - reflexivity.
Defined.

Lemma load_data_columns_witness :
  exists table w',
    load_data demo_parse demo_int demo_float stable_argsort demo_format "rec.csv" 1 demo_world
    = (Ok table, w') /\
    (forall c, In c ["X3:"; "Trigger"; "Time_Offset"; "ADC_Status"; "ADC_Sequence";
                     "Event"; "Comments"]%string -> ~ In c (columns table)) /\
    columns table
    = filter (fun c => negb (contains c ["X3:"; "Trigger"; "Time_Offset"; "ADC_Status";
                                         "ADC_Sequence"; "Event"; "Comments"]%string))
             (columns demo_raw) /\
    (forall c, In c (columns demo_raw) ->
               ~ In c ["X3:"; "Trigger"; "Time_Offset"; "ADC_Status"; "ADC_Sequence";
                       "Event"; "Comments"]%string ->
               In c (columns table)) /\
    (forall c col, c <> "Time"%string -> In c (columns table) ->
       lookup c (data demo_raw) = Some col ->
       exists rows converted,
         rows = take (time_order demo_int demo_float stable_argsort demo_raw)
                     (filter_mask (map notna (converted_time demo_int demo_float demo_raw)) col) /\
         getitem table c = Ok (thinned 1 converted) /\
         length converted = length rows /\
         ((exists zs, Forall2 (fun c z => to_int_cell demo_int c = Some z) rows zs /\
                      converted = map Int zs)
          \/ (~ (exists zs, Forall2 (fun c z => to_int_cell demo_int c = Some z) rows zs) /\
              converted = map (to_float_cell demo_float) rows))) /\
    (forall c col, getitem table c = Ok col -> uniform col).
Proof.
  apply (@load_data_columns demo_parse demo_int demo_float stable_argsort demo_format
           demo_world "rec.csv" demo_raw 1).
  - exact demo_reads.
  - reflexivity.
Defined.

Lemma load_data_step_at_most_one_witness :
  load_data demo_parse demo_int demo_float stable_argsort demo_format "rec.csv" (-3) demo_world
  = load_data demo_parse demo_int demo_float stable_argsort demo_format "rec.csv" 1 demo_world
  /\ forall raw,
       reads demo_parse demo_world "rec.csv" raw -> contains "Time" (columns raw) = true ->
       exists cleaned,
         clean demo_int demo_float stable_argsort raw = Ok cleaned /\
         fst (load_data demo_parse demo_int demo_float stable_argsort demo_format "rec.csv" (-3) demo_world)
         = Ok (reset_index cleaned).
Proof.
  apply (@load_data_step_at_most_one demo_parse demo_int demo_float stable_argsort demo_format
           "rec.csv" (-3) demo_world).
  lia.
Defined.

Lemma sort_values_rearranges_ascending_witness :
  exists cleaned order time,
    clean demo_int demo_float stable_argsort demo_raw = Ok cleaned /\
    Permutation order (seq 0 (length (filter notna (converted_time demo_int demo_float demo_raw)))) /\
    index cleaned = take order (filter_mask (time_mask demo_int demo_float demo_raw) (index demo_raw)) /\
    (forall c col, c <> "Time"%string -> In c (columns cleaned) ->
       lookup c (data demo_raw) = Some col ->
       getitem cleaned c
       = Ok (to_numeric demo_int demo_float
               (take order (filter_mask (time_mask demo_int demo_float demo_raw) col)))) /\
    time = take order (filter_mask (time_mask demo_int demo_float demo_raw)
                                   (converted_time demo_int demo_float demo_raw)) /\
    getitem cleaned "Time" = Ok time /\
    StronglySorted time_le time.
Proof.
  apply (@sort_values_rearranges_ascending demo_int demo_float stable_argsort demo_raw).
  - apply insertion_argsort_permutes.
  - apply insertion_argsort_ascending.
  - reflexivity.
Defined.

Example ecg_table_loaded :
  fst (load_data demo_parse demo_int demo_float stable_argsort demo_format "ecg.csv" 1 demo_world)
  = Ok ecg_table.
Proof. vm_compute. reflexivity. Qed.

(** C6, counterexample.  In mode [mv] the caller's table comes back from
    [create_plot] with two more columns than it went in with. *)
Lemma create_plot_mv_changes_table :
  columns (fst (snd (create_plot demo_repr "Recording" "mv" None None
                                 (ecg_table, demo_world))))
  = ["Time"; "Fp1"; "X1:LEOG"; "CM"; "X1:LEOG_mV"; "CM_mV"]%string
  /\ getitem (fst (snd (create_plot demo_repr "Recording" "mv" None None
                                    (ecg_table, demo_world)))) "X1:LEOG_mV"
     = Ok [Num 1.5; Num (-0.25)]
  /\ fst (snd (create_plot demo_repr "Recording" "mv" None None (ecg_table, demo_world)))
     <> ecg_table.
Proof.
  split; [vm_compute; reflexivity|]. split; [vm_compute; reflexivity|].
  intros H. apply (f_equal columns) in H. vm_compute in H. discriminate.
Qed.

Lemma ecg_table_plottable : plottable ecg_table.
Proof.
  split; [eexists; reflexivity|].
  intros c col H. simpl in H.
  repeat match type of H with
         | (if ?b then _ else _) = _ =>
             destruct b; [injection H as <-; split; [repeat constructor | discriminate]|]
         end.
  discriminate.
Qed.

Lemma create_plot_ecg_units_witness :
  exists fig s',
    create_plot demo_repr "Recording" "mv" None None (ecg_table, demo_world) = (Ok fig, s') /\
    Forall2 (fun ch tr =>
               tr_name tr = ch /\
               exists col, getitem ecg_table ch = Ok col /\ tr_y tr = rendered_ecg "mv" col)
            (available ecg_channels None ecg_table)
            (filter is_ecg_trace (fig_traces fig))
    /\ rendered_ecg "mv" [Num 1500] = [Num 1.5]
    /\ rendered_ecg "uv" [Num 1500] = [Num 1500].
Proof.
  exact (@create_plot_ecg_units demo_repr "Recording" "mv" None None
           ecg_table demo_world ecg_table_plottable).
Defined.

(** The same run, evaluated: the one ECG trace shows 1.5 and -0.25 mV. *)
Example demo_plot_ecg_trace :
  match create_plot demo_repr "Recording" "mv" None None (ecg_table, demo_world) with
  | (Ok fig, _) => map (fun tr => (tr_name tr, tr_y tr)) (filter is_ecg_trace (fig_traces fig))
  | (Raise _, _) => []
  end = [("X1:LEOG"%string, [Num 1.5; Num (-0.25)])].
Proof. vm_compute. reflexivity. Qed.

(** * Further properties *)

(** ** What the exporter writes *)

Lemma lookup_cons_other {V} (p q : string) (v : V) l :
  p <> q -> lookup p ((q, v) :: l) = lookup p l.
Proof. intros H. simpl. apply String.eqb_neq in H. now rewrite H. Qed.

Section ExporterFiles.

Variable to_html : Figure -> string.
Variable render_image : Figure -> string -> Z -> Z -> option Z -> result string.

(** X1.  When the output directory can be made and both static images
    render, [save_plot] leaves the three
    documents side by side in the output directory, each with its own
    content, and prints one line per document, in the order written. *)
Theorem save_plot_writes_three_documents fig output_dir w png pdf :
  makedirs_error output_dir w = None ->
  render_image fig (path_join output_dir "multichannel_plot.png") 1200%Z 800%Z (Some 2%Z)
  = Ok png ->
  render_image fig (path_join output_dir "multichannel_plot.pdf") 1200%Z 800%Z None
  = Ok pdf ->
  exists w',
    save_plot to_html render_image fig output_dir w = (Ok tt, w') /\
    lookup (path_join output_dir "multichannel_plot.html") (files w') = Some (to_html fig) /\
    lookup (path_join output_dir "multichannel_plot.png") (files w') = Some png /\
    lookup (path_join output_dir "multichannel_plot.pdf") (files w') = Some pdf /\
    stdout w' = stdout w
                ++ [("Interactive plot saved to: "
                     ++ path_join output_dir "multichannel_plot.html")%string;
                    ("Static plot saved to: "
                     ++ path_join output_dir "multichannel_plot.png")%string;
                    ("PDF plot saved to: "
                     ++ path_join output_dir "multichannel_plot.pdf")%string].
Proof.
  intros Hdir Hpng Hpdf.
  unfold save_plot, try_except, bind, write_image, write_html, write_file, makedirs,
    println, print, lift, ret.
  rewrite Hdir.
  cbn [files stdout]. rewrite Hpng. cbn [files stdout]. rewrite Hpdf. cbn [files stdout].
  eexists. split; [reflexivity|]. cbn [files stdout lookup].
  rewrite !path_join_eqb. cbn [String.eqb Ascii.eqb Bool.eqb].
  repeat split. now rewrite <- !app_assoc.
Qed.

(** X2.  When the output directory can be made and the raster image fails
    to render, the vector image is not
    attempted either, whatever its renderer would have done: neither static
    path is written, and the call still returns normally. *)
Theorem save_plot_raster_failure_skips_vector fig output_dir w e :
  makedirs_error output_dir w = None ->
  render_image fig (path_join output_dir "multichannel_plot.png") 1200%Z 800%Z (Some 2%Z)
  = Raise e ->
  exists w',
    save_plot to_html render_image fig output_dir w = (Ok tt, w') /\
    files w' = (path_join output_dir "multichannel_plot.html", to_html fig) :: files w /\
    lookup (path_join output_dir "multichannel_plot.png") (files w')
    = lookup (path_join output_dir "multichannel_plot.png") (files w) /\
    lookup (path_join output_dir "multichannel_plot.pdf") (files w')
    = lookup (path_join output_dir "multichannel_plot.pdf") (files w).
Proof.
  intros Hdir Hpng.
  unfold save_plot, try_except, bind, write_image, write_html, write_file, makedirs,
    println, print, lift, ret.
  rewrite Hdir.
  cbn [files stdout]. rewrite Hpng. cbn [files stdout].
  eexists. split; [reflexivity|]. cbn [files stdout lookup].
  rewrite !path_join_eqb. cbn [String.eqb Ascii.eqb Bool.eqb]. repeat split.
Qed.

(** X3.  When the output directory can be made, the raster image renders
    and the vector image fails, the
    raster image stays on disk and only the vector path is left unwritten;
    the output then holds both the line announcing the raster image and the
    hint that static export was skipped. *)
Theorem save_plot_vector_failure_keeps_raster fig output_dir w png e :
  makedirs_error output_dir w = None ->
  render_image fig (path_join output_dir "multichannel_plot.png") 1200%Z 800%Z (Some 2%Z)
  = Ok png ->
  render_image fig (path_join output_dir "multichannel_plot.pdf") 1200%Z 800%Z None
  = Raise e ->
  exists w',
    save_plot to_html render_image fig output_dir w = (Ok tt, w') /\
    lookup (path_join output_dir "multichannel_plot.png") (files w') = Some png /\
    lookup (path_join output_dir "multichannel_plot.html") (files w') = Some (to_html fig) /\
    lookup (path_join output_dir "multichannel_plot.pdf") (files w')
    = lookup (path_join output_dir "multichannel_plot.pdf") (files w) /\
    In ("Static plot saved to: " ++ path_join output_dir "multichannel_plot.png")%string
       (stdout w') /\
    In "To enable static exports, install: pip install --upgrade kaleido"%string (stdout w').
Proof.
  intros Hdir Hpng Hpdf.
  unfold save_plot, try_except, bind, write_image, write_html, write_file, makedirs,
    println, print, lift, ret.
  rewrite Hdir.
  cbn [files stdout]. rewrite Hpng. cbn [files stdout]. rewrite Hpdf. cbn [files stdout].
  eexists. split; [reflexivity|]. cbn [files stdout lookup].
  rewrite !path_join_eqb. cbn [String.eqb Ascii.eqb Bool.eqb].
  repeat split; rewrite !in_app_iff; simpl; auto.
Qed.

Lemma save_plot_frame fig output_dir w path :
  path <> path_join output_dir "multichannel_plot.html" ->
  path <> path_join output_dir "multichannel_plot.png" ->
  path <> path_join output_dir "multichannel_plot.pdf" ->
  lookup path (files (snd (save_plot to_html render_image fig output_dir w)))
  = lookup path (files w).
Proof.
  intros Hhtml Hpng Hpdf.
  destruct (makedirs_error output_dir w) as [e0|] eqn:Edir.
  { now rewrite (@save_plot_blocked to_html render_image fig output_dir w e0 Edir). }
  destruct (render_image fig (path_join output_dir "multichannel_plot.png")
                         1200%Z 800%Z (Some 2%Z)) as [png|e] eqn:Epng;
    [destruct (render_image fig (path_join output_dir "multichannel_plot.pdf")
                            1200%Z 800%Z None) as [pdf|e] eqn:Epdf|];
    unfold save_plot, write_image, write_html, write_file, makedirs, println, print,
      try_except, bind, lift, ret;
    rewrite Edir;
    cbn [files stdout]; rewrite Epng; cbn [files stdout]; try rewrite Epdf;
    cbn [files stdout snd];
    repeat rewrite lookup_cons_other by assumption; reflexivity.
Qed.

(** X4.  [save_plot] touches no file but its three documents: any other
    path holds after the call what it held before, whatever the renderers
    do. *)
Theorem save_plot_leaves_other_files fig output_dir w path :
  path <> path_join output_dir "multichannel_plot.html" ->
  path <> path_join output_dir "multichannel_plot.png" ->
  path <> path_join output_dir "multichannel_plot.pdf" ->
  lookup path (files (snd (save_plot to_html render_image fig output_dir w)))
  = lookup path (files w).
Proof. apply save_plot_frame. Qed.

End ExporterFiles.

(** ** The command line never crashes and leaves no partial output *)

Lemma keeps_files_readonly {A} (m : M PlotState A) : readonly m -> keeps_files m.
Proof. intros H s. now rewrite H. Qed.

Lemma keeps_files_bind {A B} (m : M PlotState A) (k : A -> M PlotState B) :
  keeps_files m -> (forall a, keeps_files (k a)) -> keeps_files (bind m k).
Proof.
  intros Hm Hk s. unfold bind. specialize (Hm s).
  destruct (m s) as [[a|e] s1]; simpl in *; [|assumption].
  now rewrite Hk.
Qed.

Lemma keeps_files_forM_ {A} (f : A -> M PlotState unit) l :
  (forall x, keeps_files (f x)) -> keeps_files (forM_ l f).
Proof.
  intros Hf. induction l as [|x l IH]; simpl.
  - intros s. reflexivity.
  - apply keeps_files_bind; [apply Hf | intros _; exact IH].
Qed.

Lemma keeps_files_add_mv_column ch : keeps_files (add_mv_column ch).
Proof.
  intros s. unfold add_mv_column, bind, column, lift, assign.
  destruct (getitem (fst s) ch); simpl; [|reflexivity].
  destruct (series_div a 1000); reflexivity.
Qed.

Lemma create_plot_keeps_files repr_names title ecg_units channels initial_range :
  keeps_files (create_plot repr_names title ecg_units channels initial_range).
Proof.
  unfold create_plot.
  apply keeps_files_bind; [apply keeps_files_readonly, readonly_table | intros df].
  cbv zeta.
  do 3 (apply keeps_files_bind; [intros s; reflexivity | intros _]).
  apply keeps_files_bind.
  { unfold convert_ecg. destruct (String.eqb ecg_units "mv").
    - apply keeps_files_bind; [apply keeps_files_forM_, keeps_files_add_mv_column|].
      intros _ s. reflexivity.
    - intros s. reflexivity. }
  intros ecg. apply keeps_files_bind.
  { unfold convert_cm. destruct (String.eqb ecg_units "mv" && nonempty _).
    - apply keeps_files_bind; [apply keeps_files_add_mv_column|]. intros _ s. reflexivity.
    - intros s. reflexivity. }
  intros cm. apply keeps_files_readonly.
  apply readonly_bind; [apply readonly_table | intros df'].
  apply readonly_bind; [apply readonly_mapM, readonly_eeg_trace | intros eeg_traces].
  apply readonly_bind; [apply readonly_mapM, readonly_ecg_trace | intros ecg_traces].
  apply readonly_bind; [apply readonly_mapM, readonly_cm_trace | intros cm_traces].
  apply readonly_bind; [|intros r; apply readonly_ret].
  destruct (nonempty _ && nonempty _); [|apply readonly_ret].
  apply readonly_bind; [apply readonly_ecg_axis_range | intros r; apply readonly_ret].
Qed.

Section ExporterRuns.

Variable to_html : Figure -> string.
Variable render_image : Figure -> string -> Z -> Z -> option Z -> result string.

Lemma save_plot_returns_with_html fig output_dir w :
  makedirs_error output_dir w = None ->
  exists w',
    save_plot to_html render_image fig output_dir w = (Ok tt, w') /\
    lookup (path_join output_dir "multichannel_plot.html") (files w') = Some (to_html fig).
Proof.
  intros Edir.
  destruct (render_image fig (path_join output_dir "multichannel_plot.png")
                         1200%Z 800%Z (Some 2%Z)) as [png|e] eqn:Epng;
    [destruct (render_image fig (path_join output_dir "multichannel_plot.pdf")
                            1200%Z 800%Z None) as [pdf|e] eqn:Epdf|];
    unfold save_plot, write_image, write_html, write_file, makedirs, println, print,
      try_except, bind, lift, ret;
    rewrite Edir;
    cbn [files stdout]; rewrite Epng; cbn [files stdout]; try rewrite Epdf;
    cbn [files stdout];
    (eexists; split; [reflexivity|]); cbn [files stdout lookup];
    rewrite ?path_join_eqb; cbn [String.eqb Ascii.eqb Bool.eqb];
    rewrite ?String.eqb_refl; reflexivity.
Qed.

End ExporterRuns.

Lemma makedirs_error_files dir w1 w2 :
  files w1 = files w2 -> makedirs_error dir w1 = makedirs_error dir w2.
Proof. intros E. unfold makedirs_error. now rewrite E. Qed.

Section MainFacts.

Variable parse_csv : string -> result DataFrame.
Variable str_to_int : string -> option Z.
Variable str_to_float : string -> float.
Variable argsort : list cell -> list nat.
Variable format_3f : float -> string.
Variable repr_names : list string -> string.
Variable to_html : Figure -> string.
Variable render_image : Figure -> string -> Z -> Z -> option Z -> result string.
Variable show : Figure -> M World unit.

(** X5.  [main] never raises: whatever the arguments, the files, and the
    behaviour of the parser, the renderers and the browser, every exception
    of the run is caught and the call returns normally. *)
Theorem main_never_raises args w :
  fst (main parse_csv str_to_int str_to_float argsort format_3f repr_names to_html render_image show
            args w) = Ok tt.
Proof.
  unfold main, try_except.
  match goal with |- context [match ?b with _ => _ end] => destruct b as [[[]|e] w1] end.
  - reflexivity.
  - destruct e; reflexivity.
Qed.

Lemma main_load_error args w e w1 :
  load_data parse_csv str_to_int str_to_float argsort format_3f (arg_data args) (arg_step args) w
  = (Raise e, w1) ->
  main parse_csv str_to_int str_to_float argsort format_3f repr_names to_html render_image show args w
  = match e with
    | FileNotFoundError _ =>
        (Ok tt, {| files := files w1;
                   stdout := stdout w1
                             ++ [("Error: Data file '" ++ arg_data args ++ "' not found.")%string;
                                 "Please check the file path and try again."%string] |})
    | _ =>
        (Ok tt, {| files := files w1;
                   stdout := stdout w1
                             ++ [("Error: " ++ exception_text e)%string;
                                 "Please check your data format and try again."%string] |})
    end.
Proof.
  intros H. unfold main, try_except. unfold bind at 1. rewrite H.
  destruct e; unfold bind, println, print; cbn [files stdout];
    now rewrite <- app_assoc.
Qed.

(** X6.  When the data file does not exist, [main] prints the loader's
    first line and the two lines of the file-not-found report, writes no
    file, and returns. *)
Theorem main_reports_missing_file args w :
  lookup (arg_data args) (files w) = None ->
  main parse_csv str_to_int str_to_float argsort format_3f repr_names to_html render_image show args w
  = (Ok tt,
     {| files := files w;
        stdout := stdout w
                  ++ [("Loading data from: " ++ arg_data args)%string;
                      ("Error: Data file '" ++ arg_data args ++ "' not found.")%string;
                      "Please check the file path and try again."%string] |}).
Proof.
  intros Hfile.
  rewrite (@main_load_error args w (FileNotFoundError (arg_data args))
             {| files := files w;
                stdout := stdout w ++ [("Loading data from: " ++ arg_data args)%string] |}).
  - cbn [files stdout]. now rewrite <- app_assoc.
  - unfold load_data, bind, println, print, read_csv. cbn [files stdout].
    now rewrite Hfile.
Qed.

(** X7.  When the file parses to a table with no [Time] column, [main]
    prints the loader's first line, the [ValueError]'s message after
    [Error: ], and the hint about the data format; it writes no file. *)
Theorem main_reports_missing_time args w raw :
  reads parse_csv w (arg_data args) raw ->
  ~ In "Time"%string (columns raw) ->
  main parse_csv str_to_int str_to_float argsort format_3f repr_names to_html render_image show args w
  = (Ok tt,
     {| files := files w;
        stdout := stdout w
                  ++ [("Loading data from: " ++ arg_data args)%string;
                      "Error: Expected a 'Time' column (seconds)."%string;
                      "Please check your data format and try again."%string] |}).
Proof.
  intros [text [Hfile Hparse]] HT.
  assert (E : contains "Time" (columns raw) = false).
  { apply not_true_iff_false. now rewrite contains_In. }
  rewrite (@main_load_error args w (ValueError "Expected a 'Time' column (seconds).")
             {| files := files w;
                stdout := stdout w ++ [("Loading data from: " ++ arg_data args)%string] |}).
  - cbn [files stdout exception_text]. now rewrite <- app_assoc.
  - unfold load_data, bind, println, print, read_csv, lift. cbn [files stdout].
    rewrite Hfile, Hparse. unfold clean. now rewrite E.
Qed.

Lemma main_after_chart args w table w1 fig s2 :
  load_data parse_csv str_to_int str_to_float argsort format_3f (arg_data args) (arg_step args) w
  = (Ok table, w1) ->
  create_plot repr_names (arg_title args) (arg_ecg_units args) (arg_channels args)
              (arg_initial_range args) (table, before_chart w1) = (Ok fig, s2) ->
  arg_show args = false ->
  makedirs_error (arg_output args) w = None ->
  exists w',
    main parse_csv str_to_int str_to_float argsort format_3f repr_names to_html render_image show args w
    = (Ok tt, w') /\
    lookup (path_join (arg_output args) "multichannel_plot.html") (files w')
    = Some (to_html (add_zoom_controls fig)).
Proof.
  intros Hload Hchart Hshow Hdir.
  assert (Hf2 : files (snd s2) = files w).
  { pose proof (create_plot_keeps_files repr_names (arg_title args) (arg_ecg_units args)
                  (arg_channels args) (arg_initial_range args) (table, before_chart w1)) as K.
    rewrite Hchart in K. cbn [snd before_chart files] in K. rewrite K.
    pose proof (load_data_keeps_files parse_csv str_to_int str_to_float argsort format_3f
                  (arg_data args) (arg_step args) w) as L.
    now rewrite Hload in L. }
  rewrite <- (@makedirs_error_files (arg_output args) _ _ Hf2) in Hdir.
  destruct (@save_plot_returns_with_html to_html render_image (add_zoom_controls fig)
              (arg_output args) (snd s2) Hdir) as [w3 [Hsave Hhtml]].
  exists {| files := files w3;
            stdout := stdout w3
                      ++ ["Plot created successfully! Use --show to view interactively."%string] |}.
  split; [|exact Hhtml].
  unfold main, try_except.
  rewrite (@bind_eval _ _ _ _ _ _ _ _ Hload).
  unfold bind at 1. unfold println at 1, print at 1. cbn [files stdout].
  fold (before_chart w1).
  unfold bind at 1. unfold with_table at 1. rewrite Hchart. cbn [fst snd]. cbv zeta.
  rewrite (@bind_eval _ _ _ _ _ _ _ _ Hsave). rewrite Hshow. reflexivity.
Qed.

Lemma main_chart_error args w table w1 e s2 :
  load_data parse_csv str_to_int str_to_float argsort format_3f (arg_data args) (arg_step args) w
  = (Ok table, w1) ->
  create_plot repr_names (arg_title args) (arg_ecg_units args) (arg_channels args)
              (arg_initial_range args) (table, before_chart w1) = (Raise e, s2) ->
  files (snd (main parse_csv str_to_int str_to_float argsort format_3f repr_names to_html render_image
                   show args w)) = files w.
Proof.
  intros Hload Hchart.
  assert (Hf2 : files (snd s2) = files w).
  { pose proof (create_plot_keeps_files repr_names (arg_title args) (arg_ecg_units args)
                  (arg_channels args) (arg_initial_range args) (table, before_chart w1)) as K.
    rewrite Hchart in K. cbn [snd before_chart files] in K. rewrite K.
    pose proof (load_data_keeps_files parse_csv str_to_int str_to_float argsort format_3f
                  (arg_data args) (arg_step args) w) as L.
    now rewrite Hload in L. }
  unfold main, try_except.
  rewrite (@bind_eval _ _ _ _ _ _ _ _ Hload).
  unfold bind at 1. unfold println at 1, print at 1. cbn [files stdout].
  fold (before_chart w1).
  unfold bind at 1. unfold with_table at 1. rewrite Hchart. cbn [fst snd].
  destruct e; unfold bind, println, print; cbn [files stdout snd]; exact Hf2.
Qed.

Lemma main_save_blocked args w table w1 fig s2 e :
  load_data parse_csv str_to_int str_to_float argsort format_3f (arg_data args) (arg_step args) w
  = (Ok table, w1) ->
  create_plot repr_names (arg_title args) (arg_ecg_units args) (arg_channels args)
              (arg_initial_range args) (table, before_chart w1) = (Ok fig, s2) ->
  makedirs_error (arg_output args) (snd s2) = Some e ->
  files (snd (main parse_csv str_to_int str_to_float argsort format_3f repr_names to_html render_image
                   show args w)) = files (snd s2).
Proof.
  intros Hload Hchart Hdir.
  unfold main, try_except.
  rewrite (@bind_eval _ _ _ _ _ _ _ _ Hload).
  unfold bind at 1. unfold println at 1, print at 1. cbn [files stdout].
  fold (before_chart w1).
  unfold bind at 1. unfold with_table at 1. rewrite Hchart. cbn [fst snd]. cbv zeta.
  unfold bind at 1.
  rewrite (@save_plot_blocked to_html render_image (add_zoom_controls fig) (arg_output args)
             (snd s2) e Hdir).
  destruct e; unfold bind, println, print; reflexivity.
Qed.

(** X8.  From the file to the document: for a recording that parses to a
    rectangular table with a [Time] column and at least one readable [Time],
    and an output directory that can be made, [main] (with [--show] off)
    loads it, charts the loaded table, adds the
    zoom controls to that figure and leaves its HTML at
    [<output>/multichannel_plot.html]. *)
Theorem main_writes_interactive_document args w raw :
  argsort_permutes argsort ->
  reads parse_csv w (arg_data args) raw ->
  contains "Time" (columns raw) = true ->
  rectangular raw ->
  filter notna (converted_time str_to_int str_to_float raw) <> [] ->
  arg_show args = false ->
  makedirs_error (arg_output args) w = None ->
  exists table w1 fig s2 w',
    load_data parse_csv str_to_int str_to_float argsort format_3f (arg_data args) (arg_step args) w
    = (Ok table, w1) /\
    create_plot repr_names (arg_title args) (arg_ecg_units args) (arg_channels args)
                (arg_initial_range args) (table, before_chart w1) = (Ok fig, s2) /\
    main parse_csv str_to_int str_to_float argsort format_3f repr_names to_html render_image show args w
    = (Ok tt, w') /\
    lookup (path_join (arg_output args) "multichannel_plot.html") (files w')
    = Some (to_html (add_zoom_controls fig)).
Proof.
  intros Hperm Hreads HT Hrect Hvalid Hshow Hdir.
  destruct (@load_data_plottable parse_csv str_to_int str_to_float argsort format_3f w (arg_data args)
              raw (arg_step args) Hperm Hreads HT Hrect Hvalid) as [table [w1 [Hload Hp]]].
  destruct (create_plot_returns repr_names (arg_title args) (arg_ecg_units args)
              (arg_channels args) (arg_initial_range args) (before_chart w1) Hp)
    as [fig [s2 Hchart]].
  destruct (@main_after_chart args w table w1 fig s2 Hload Hchart Hshow Hdir) as [w' [Hmain Hhtml]].
  exists table, w1, fig, s2, w'. repeat split; assumption.
Qed.

(** X9.  No partial output: with [--show] off, a run of [main] either
    leaves every file as it was (loading, charting or making the output
    directory failed) or has written the interactive document. *)
Theorem main_writes_nothing_or_the_document args w :
  arg_show args = false ->
  files (snd (main parse_csv str_to_int str_to_float argsort format_3f repr_names to_html render_image
                   show args w)) = files w
  \/ exists fig,
       lookup (path_join (arg_output args) "multichannel_plot.html")
              (files (snd (main parse_csv str_to_int str_to_float argsort format_3f repr_names to_html
                                render_image show args w)))
       = Some (to_html fig).
Proof.
  intros Hshow.
  destruct (load_data parse_csv str_to_int str_to_float argsort format_3f (arg_data args) (arg_step args) w)
    as [[table|e] w1] eqn:Hload.
  - destruct (create_plot repr_names (arg_title args) (arg_ecg_units args) (arg_channels args)
                          (arg_initial_range args) (table, before_chart w1))
      as [[fig|e] s2] eqn:Hchart.
    + assert (Hf2 : files (snd s2) = files w).
      { pose proof (create_plot_keeps_files repr_names (arg_title args) (arg_ecg_units args)
                      (arg_channels args) (arg_initial_range args)
                      (table, before_chart w1)) as K.
        rewrite Hchart in K. cbn [snd before_chart files] in K. rewrite K.
        pose proof (load_data_keeps_files parse_csv str_to_int str_to_float argsort format_3f
                      (arg_data args) (arg_step args) w) as L.
        now rewrite Hload in L. }
      destruct (makedirs_error (arg_output args) w) as [e|] eqn:Hdir.
      * left. rewrite <- (@makedirs_error_files (arg_output args) _ _ Hf2) in Hdir.
        now rewrite (@main_save_blocked args w table w1 fig s2 e Hload Hchart Hdir).
      * right.
        destruct (@main_after_chart args w table w1 fig s2 Hload Hchart Hshow Hdir) as [w' [Hmain Hhtml]].
        exists (add_zoom_controls fig). now rewrite Hmain.
    + left. eapply main_chart_error; eassumption.
  - left. rewrite (main_load_error args w Hload).
    pose proof (load_data_keeps_files parse_csv str_to_int str_to_float argsort format_3f
                  (arg_data args) (arg_step args) w) as L.
    rewrite Hload in L. destruct e; exact L.
Qed.

End MainFacts.

(** ** What a returned figure holds *)

Lemma convert_ecg_adds_derived ecg_units channels df0 :
  preserves adds_derived_only (convert_ecg ecg_units (available ecg_channels channels df0)).
Proof.
  unfold convert_ecg. destruct (String.eqb ecg_units "mv").
  - apply preserves_bind; [apply adds_derived_only_trans | |].
    + apply preserves_forM_; [apply adds_derived_only_refl | apply adds_derived_only_trans |].
      intros ch Hch. apply add_mv_column_adds_derived.
      apply available_incl in Hch. unfold derived_columns.
      destruct Hch as [<-|[<-|[]]]; simpl; auto.
    + intros _. apply readonly_preserves; [apply adds_derived_only_refl | apply readonly_ret].
  - apply readonly_preserves; [apply adds_derived_only_refl | apply readonly_ret].
Qed.

Lemma convert_cm_adds_derived ecg_units available_cm :
  preserves adds_derived_only (convert_cm ecg_units available_cm).
Proof.
  unfold convert_cm. destruct (String.eqb ecg_units "mv" && nonempty _).
  - apply preserves_bind; [apply adds_derived_only_trans | |].
    + apply add_mv_column_adds_derived. simpl. auto.
    + intros _. apply readonly_preserves; [apply adds_derived_only_refl | apply readonly_ret].
  - apply readonly_preserves; [apply adds_derived_only_refl | apply readonly_ret].
Qed.

Section FigureContents.

Variable repr_names : list string -> string.

(** The run of [create_plot] behind a returned figure. *)
Lemma create_plot_Ok_inv title ecg_units channels initial_range df w fig s' :
  create_plot repr_names title ecg_units channels initial_range (df, w) = (Ok fig, s') ->
  exists w3 ecg s1 cm eeg_traces ecg_traces cm_traces ecg_range,
    convert_ecg ecg_units (available ecg_channels channels df) (df, w3) = (Ok ecg, s1) /\
    convert_cm ecg_units (available cm_channels channels df) s1 = (Ok cm, s') /\
    mapM (eeg_trace (10000 <? Z.of_nat (nrows (fst s')))%Z)
         (enumerate (available eeg_channels channels df)) s' = (Ok eeg_traces, s') /\
    mapM (ecg_trace (10000 <? Z.of_nat (nrows (fst s')))%Z (snd ecg))
         (enumerate (combine (available ecg_channels channels df) (fst ecg))) s'
    = (Ok ecg_traces, s') /\
    mapM (cm_trace (10000 <? Z.of_nat (nrows (fst s')))%Z (snd cm))
         (enumerate (combine (available cm_channels channels df) (fst cm))) s'
    = (Ok cm_traces, s') /\
    (if nonempty (available ecg_channels channels df) && nonempty (fst ecg)
     then r <- ecg_axis_range (fst ecg) ;; ret (Some r)
     else ret None) s' = (Ok ecg_range, s') /\
    fig = {| fig_traces := eeg_traces ++ ecg_traces ++ cm_traces;
             fig_title := title;
             fig_subplot_titles := ("EEG Channels (uV)"%string,
                                    ("ECG and CM (" ++ snd ecg ++ ")")%string);
             fig_ecg_axis_title := ("ECG (" ++ snd ecg ++ ")")%string;
             fig_cm_axis_title := ("CM (" ++ snd cm ++ ")")%string;
             fig_ecg_range := ecg_range;
             fig_xrange := initial_range;
             fig_modebar_add := [] |}.
Proof.
  intros H. unfold create_plot in H.
  apply bind_Ok in H. destruct H as [df0 [s0 [Ht H]]].
  unfold table in Ht. cbn [fst] in Ht. injection Ht as <- <-. cbv zeta in H.
  do 3 (apply bind_Ok in H; destruct H as [[] [? [He H]]];
        unfold echo, print in He; cbn [fst snd] in He; injection He as <-).
  apply bind_Ok in H. destruct H as [ecg [s1 [Hecg H]]].
  apply bind_Ok in H. destruct H as [cm [s2 [Hcm H]]].
  apply bind_Ok in H. destruct H as [df2 [s2' [Ht H]]].
  unfold table in Ht. injection Ht as <- <-.
  apply bind_Ok in H. destruct H as [eeg_traces [s3 [Heeg H]]].
  assert (E3 : s3 = s2).
  { pose proof (readonly_mapM (eeg_trace (10000 <? Z.of_nat (nrows (fst s2)))%Z)
                              (enumerate (available eeg_channels channels df))
                              (readonly_eeg_trace _) s2) as R.
    now rewrite Heeg in R. }
  subst s3.
  apply bind_Ok in H. destruct H as [ecg_traces [s4 [Hecgt H]]].
  assert (E4 : s4 = s2).
  { pose proof (readonly_mapM (ecg_trace (10000 <? Z.of_nat (nrows (fst s2)))%Z (snd ecg))
                              (enumerate (combine (available ecg_channels channels df) (fst ecg)))
                              (readonly_ecg_trace _ _) s2) as R.
    now rewrite Hecgt in R. }
  subst s4.
  apply bind_Ok in H. destruct H as [cm_traces [s5 [Hcmt H]]].
  assert (E5 : s5 = s2).
  { pose proof (readonly_mapM (cm_trace (10000 <? Z.of_nat (nrows (fst s2)))%Z (snd cm))
                              (enumerate (combine (available cm_channels channels df) (fst cm)))
                              (readonly_cm_trace _ _) s2) as R.
    now rewrite Hcmt in R. }
  subst s5.
  apply bind_Ok in H. destruct H as [rng [s6 [Hrng H]]].
  assert (E6 : s6 = s2).
  { assert (R : readonly (if nonempty (available ecg_channels channels df) && nonempty (fst ecg)
                          then r <- ecg_axis_range (fst ecg) ;; ret (Some r)
                          else ret None)).
    { destruct (nonempty _ && nonempty _); [|apply readonly_ret].
      apply readonly_bind; [apply readonly_ecg_axis_range | intros r; apply readonly_ret]. }
    specialize (R s2). now rewrite Hrng in R. }
  subst s6.
  unfold ret in H. injection H as <- <-.
  eexists _, ecg, s1, cm, eeg_traces, ecg_traces, cm_traces, rng.
  repeat split; eassumption.
Qed.

(** The table the traces read keeps, under every name that is not a derived
    column, what the caller's table held. *)
Lemma create_plot_reads_raw title ecg_units channels initial_range df w fig s' :
  create_plot repr_names title ecg_units channels initial_range (df, w) = (Ok fig, s') ->
  index (fst s') = index df /\
  forall c, ~ In c derived_columns -> lookup c (data (fst s')) = lookup c (data df).
Proof.
  intros H. apply create_plot_Ok_inv in H.
  destruct H as [w3 [ecg [s1 [cm [_ [_ [_ [_ [Hecg [Hcm _]]]]]]]]]].
  pose proof (convert_ecg_adds_derived ecg_units channels df (df, w3)) as A1.
  rewrite Hecg in A1. cbn [fst snd] in A1.
  pose proof (convert_cm_adds_derived ecg_units (available cm_channels channels df) s1) as A2.
  rewrite Hcm in A2. cbn [fst snd] in A2.
  destruct (adds_derived_only_trans A1 A2) as [Hi [_ [_ Hl]]]. split; assumption.
Qed.

End FigureContents.

Lemma mapM_Forall2 {S A B} (f : A -> M S B) (Q : A -> B -> Prop) s :
  (forall x y s', f x s = (Ok y, s') -> s' = s /\ Q x y) ->
  forall l ys s', mapM f l s = (Ok ys, s') -> Forall2 Q l ys.
Proof.
  intros Hf. induction l as [|x l IH]; intros ys s' H.
  - simpl in H. unfold ret in H. injection H as <- _. constructor.
  - apply mapM_cons_Ok in H. destruct H as [y [s1 [ys' [Hy [Hys ->]]]]].
    destruct (Hf x y s1 Hy) as [-> HQ]. constructor; [assumption|].
    eapply IH. exact Hys.
Qed.

Lemma Forall2_Forall_r {A B} (P : A -> B -> Prop) (Q : B -> Prop) l ys :
  Forall2 P l ys -> (forall x y, P x y -> Q y) -> Forall Q ys.
Proof. induction 1; intros H'; constructor; eauto. Qed.

Lemma Forall2_enumerate_pairs {A B T} (g : A -> B) (Q : nat * (A * B) -> T -> Prop) :
  forall l a trs,
    Forall2 Q (combine (seq a (length l)) (combine l (map g l))) trs ->
    Forall2 (fun ic tr => Q (fst ic, (snd ic, g (snd ic))) tr)
            (combine (seq a (length l)) l) trs.
Proof.
  induction l as [|x l IH]; intros a trs H; cbn [length seq map combine] in *.
  - inversion H; subst. constructor.
  - inversion H as [|? ? ? ? Hx Hrest]; subst. constructor; [exact Hx|].
    apply IH. exact Hrest.
Qed.

Lemma Forall2_enumerate {A T} (P : A -> T -> Prop) :
  forall l a trs,
    Forall2 (fun ic tr => P (snd ic) tr) (combine (seq a (length l)) l) trs ->
    Forall2 P l trs.
Proof.
  induction l as [|x l IH]; intros a trs H; cbn [length seq combine] in *.
  - inversion H; subst. constructor.
  - inversion H as [|? ? ? ? Hx Hrest]; subst. constructor; [exact Hx|].
    eapply IH. exact Hrest.
Qed.

Lemma in_enumerate_snd {A} (l : list A) ic : In ic (enumerate l) -> In (snd ic) l.
Proof. destruct ic as [i x]. apply in_enumerate. Qed.

Lemma eeg_trace_Ok webgl ic s tr s' :
  eeg_trace webgl ic s = (Ok tr, s') ->
  s' = s /\ (getitem (fst s) "Time" = Ok (tr_x tr) /\
             getitem (fst s) (snd ic) = Ok (tr_y tr) /\
             tr_webgl tr = webgl /\ tr_legendgroup tr = "eeg"%string /\
             tr_name tr = snd ic /\ tr_color tr = color_at (fst ic) /\
             tr_row tr = 1 /\ tr_secondary_y tr = false).
Proof.
  unfold eeg_trace, bind, column, ret.
  destruct (getitem (fst s) "Time") as [x|] eqn:Ex; [|discriminate]. cbn [fst snd].
  destruct (getitem (fst s) (snd ic)) as [y|] eqn:Ey; [|discriminate].
  intros H. injection H as <- <-. cbn. rewrite ?Ex, ?Ey. repeat split; assumption.
Qed.

Lemma ecg_trace_Ok webgl label icd s tr s' :
  ecg_trace webgl label icd s = (Ok tr, s') ->
  s' = s /\ (getitem (fst s) "Time" = Ok (tr_x tr) /\
             getitem (fst s) (snd (snd icd)) = Ok (tr_y tr) /\
             tr_webgl tr = webgl /\ tr_legendgroup tr = "ecg"%string /\
             tr_name tr = fst (snd icd) /\ tr_color tr = color_at (fst icd) /\
             tr_row tr = 2 /\ tr_secondary_y tr = false).
Proof.
  unfold ecg_trace, bind, column, ret.
  destruct (getitem (fst s) "Time") as [x|] eqn:Ex; [|discriminate]. cbn [fst snd].
  destruct (getitem (fst s) (snd (snd icd))) as [y|] eqn:Ey; [|discriminate].
  intros H. injection H as <- <-. cbn. rewrite ?Ex, ?Ey. repeat split; assumption.
Qed.

Lemma cm_trace_Ok webgl label icd s tr s' :
  cm_trace webgl label icd s = (Ok tr, s') ->
  s' = s /\ (getitem (fst s) "Time" = Ok (tr_x tr) /\
             getitem (fst s) (snd (snd icd)) = Ok (tr_y tr) /\
             tr_webgl tr = webgl /\ tr_legendgroup tr = "cm"%string /\
             tr_name tr = fst (snd icd) /\ tr_color tr = "lightgray"%string /\
             tr_row tr = 2 /\ tr_secondary_y tr = true).
Proof.
  unfold cm_trace, bind, column, ret.
  destruct (getitem (fst s) "Time") as [x|] eqn:Ex; [|discriminate]. cbn [fst snd].
  destruct (getitem (fst s) (snd (snd icd))) as [y|] eqn:Ey; [|discriminate].
  intros H. injection H as <- <-. cbn. rewrite ?Ex, ?Ey. repeat split; assumption.
Qed.

Lemma not_derived_time : ~ In "Time"%string derived_columns.
Proof. simpl. intuition discriminate. Qed.

Lemma eeg_not_derived ch : In ch eeg_channels -> ~ In ch derived_columns.
Proof.
  intros Hch Hd. unfold derived_columns in Hd. simpl in Hd.
  destruct Hd as [<-|[<-|[<-|[]]]]; simpl in Hch; intuition discriminate.
Qed.

Lemma ecg_not_derived ch : In ch ecg_channels -> ~ In ch derived_columns.
Proof. intros [<-|[<-|[]]]; simpl; intuition discriminate. Qed.

Lemma cm_not_derived ch : In ch cm_channels -> ~ In ch derived_columns.
Proof. intros [<-|[]]; simpl; intuition discriminate. Qed.

Lemma filter_filter_andb {A} (p q : A -> bool) l :
  filter q (filter p l) = filter (fun x => p x && q x) l.
Proof.
  induction l as [|x l IH]; simpl; [reflexivity|].
  destruct (p x); simpl; [|assumption]. destruct (q x); simpl; now rewrite IH.
Qed.

Lemma available_filter known channels df :
  available known channels df = filter (charted channels df) known.
Proof.
  unfold available, charted. destruct channels as [[|c cs]|].
  - apply filter_ext. intros a. now rewrite andb_true_r.
  - apply filter_filter_andb.
  - apply filter_ext. intros a. now rewrite andb_true_r.
Qed.

Lemma available_cm_cases channels df :
  available cm_channels channels df = [] \/
  available cm_channels channels df = ["CM"%string].
Proof.
  rewrite available_filter. unfold cm_channels. simpl.
  destruct (charted channels df "CM"); auto.
Qed.

Lemma convert_cm_Ok ecg_units channels df0 s cm s2 :
  convert_cm ecg_units (available cm_channels channels df0) s = (Ok cm, s2) ->
  cm = (map (ecg_data_col ecg_units) (available cm_channels channels df0),
        if String.eqb ecg_units "mv" && nonempty (available cm_channels channels df0)
        then "mV"%string else "uV"%string) /\
  forall ch, In ch (available cm_channels channels df0) ->
    (exists col, lookup ch (data (fst s)) = Some col) ->
    exists col, lookup ch (data (fst s)) = Some col /\
                lookup (ecg_data_col ecg_units ch) (data (fst s2))
                = Some (rendered_ecg ecg_units col).
Proof.
  unfold convert_cm, ecg_data_col, rendered_ecg. intros H. destruct s as [df w].
  destruct (available_cm_cases channels df0) as [E | E]; rewrite E in *.
  - cbn [nonempty] in *. rewrite andb_false_r in *. unfold ret in H. injection H as <- <-.
    split; [reflexivity|]. intros ch [].
  - cbn [nonempty] in *. rewrite andb_true_r in *.
    destruct (String.eqb ecg_units "mv").
    + apply bind_Ok in H. destruct H as [[] [s [Hadd H]]].
      unfold ret in H. injection H as <- <-.
      apply add_mv_column_Ok in Hadd. destruct Hadd as [col [Hcol ->]].
      split; [reflexivity|]. intros ch [<-|[]] _. exists col. split; [exact Hcol|].
      cbn [fst]. rewrite lookup_setitem. now rewrite String.eqb_refl.
    + unfold ret in H. injection H as <- <-.
      split; [reflexivity|]. intros ch _ [col Hcol]. exists col. now split.
Qed.

Section FigureTraces.

Variable repr_names : list string -> string.

(** The traces of a returned figure, group by group, against the table the
    caller passed. *)
Lemma create_plot_traces title ecg_units channels initial_range df w fig s' :
  create_plot repr_names title ecg_units channels initial_range (df, w) = (Ok fig, s') ->
  exists eeg ecg cm,
    fig_traces fig = eeg ++ ecg ++ cm /\
    Forall2 (fun ic tr =>
               styled df "eeg" (snd ic) (color_at (fst ic)) 1 false tr /\
               getitem df (snd ic) = Ok (tr_y tr))
            (enumerate (available eeg_channels channels df)) eeg /\
    Forall2 (fun ic tr =>
               styled df "ecg" (snd ic) (color_at (fst ic)) 2 false tr /\
               exists col, getitem df (snd ic) = Ok col /\
                           tr_y tr = rendered_ecg ecg_units col)
            (enumerate (available ecg_channels channels df)) ecg /\
    Forall2 (fun ic tr =>
               styled df "cm" (snd ic) "lightgray" 2 true tr /\
               exists col, getitem df (snd ic) = Ok col /\
                           tr_y tr = rendered_ecg ecg_units col)
            (enumerate (available cm_channels channels df)) cm.
Proof.
  intros H. destruct (@create_plot_reads_raw _ _ _ _ _ _ _ _ _ H) as [Hidx Hraw].
  apply create_plot_Ok_inv in H.
  destruct H as [w3 [ecg [s1 [cm [eeg_t [ecg_t [cm_t [rng
                  [Hecg [Hcm [Heeg [Hecgt [Hcmt [_ ->]]]]]]]]]]]]]].
  exists eeg_t, ecg_t, cm_t. split; [reflexivity|].
  assert (Hn : nrows (fst s') = nrows df) by (unfold nrows; now rewrite Hidx).
  assert (Ht : getitem (fst s') "Time" = getitem df "Time").
  { unfold getitem. now rewrite (Hraw _ not_derived_time). }
  rewrite Hn in *.
  pose proof (convert_ecg_adds_derived ecg_units channels df (df, w3)) as A1.
  rewrite Hecg in A1. cbn [fst snd] in A1. destruct A1 as [_ [_ [_ Hraw1]]].
  apply convert_ecg_Ok in Hecg;
    [|intros ch Hch; eapply available_incl; exact Hch
     |apply available_NoDup_mv; repeat constructor; simpl; intuition discriminate
     |intros ch Hch; eapply available_present; exact Hch].
  destruct Hecg as [-> Hcols].
  pose proof (convert_cm_keeps_others _ _ _ Hcm) as Hkeep.
  apply convert_cm_Ok in Hcm. destruct Hcm as [-> Hcmcols].
  cbn [fst snd] in *.
  split; [|split].
  - eapply Forall2_impl_In.
    + eapply mapM_Forall2; [|exact Heeg].
      intros x y s0 Hx. apply eeg_trace_Ok in Hx. exact Hx.
    + cbv beta. intros ic tr Hin [Hx [Hy [Hw [Hg [Hname [Hc [Hr Hs]]]]]]].
      apply in_enumerate_snd in Hin. apply available_incl in Hin.
      unfold styled. rewrite <- Ht. repeat split; try assumption.
      unfold getitem in *. now rewrite <- (Hraw _ (@eeg_not_derived _ Hin)).
  - unfold enumerate in *.
    rewrite length_combine, length_map, Nat.min_id in Hecgt.
    eapply mapM_Forall2 in Hecgt;
      [|intros x y s0 Hx; apply ecg_trace_Ok in Hx; exact Hx].
    apply Forall2_enumerate_pairs in Hecgt.
    eapply Forall2_impl_In.
    + exact Hecgt.
    + cbv beta. cbn [fst snd].
      intros ic tr Hin [Hx [Hy [Hw [Hg [Hname [Hc [Hr Hs]]]]]]].
      apply (@in_enumerate_snd _ (available ecg_channels channels df)) in Hin.
      unfold styled. rewrite <- Ht. split; [repeat split; assumption|].
      destruct (Hcols _ Hin) as [col [Hcol Hmv]].
      exists col. split; [now apply getitem_lookup|].
      apply getitem_lookup in Hy.
      rewrite Hkeep in Hy
        by (apply ecg_data_col_not_cm; eapply available_incl; exact Hin).
      congruence.
  - unfold enumerate in *.
    rewrite length_combine, length_map, Nat.min_id in Hcmt.
    eapply mapM_Forall2 in Hcmt;
      [|intros x y s0 Hx; apply cm_trace_Ok in Hx; exact Hx].
    apply Forall2_enumerate_pairs in Hcmt.
    eapply Forall2_impl_In.
    + exact Hcmt.
    + cbv beta. cbn [fst snd].
      intros ic tr Hin [Hx [Hy [Hw [Hg [Hname [Hc [Hr Hs]]]]]]].
      apply (@in_enumerate_snd _ (available cm_channels channels df)) in Hin.
      unfold styled. rewrite <- Ht. split; [repeat split; assumption|].
      assert (Hpres : exists col, lookup (snd ic) (data (fst s1)) = Some col).
      { destruct (@available_present _ _ _ _ Hin) as [col Hcol]. exists col.
        rewrite Hraw1; [exact Hcol|]. apply cm_not_derived.
        eapply available_incl. exact Hin. }
      destruct (Hcmcols _ Hin Hpres) as [col [Hcol Hmv]].
      exists col. split.
      * apply getitem_lookup. rewrite <- Hraw1; [exact Hcol|].
        apply cm_not_derived. eapply available_incl. exact Hin.
      * apply getitem_lookup in Hy. congruence.
Qed.

End FigureTraces.

Lemma names_in_order (l : list string) : forall trs,
  Forall2 (fun ch tr => tr_name tr = ch) l trs -> map tr_name trs = l.
Proof.
  induction l as [|ch l IH]; intros trs H; inversion H; subst; simpl; [reflexivity|].
  f_equal. now apply IH.
Qed.

Lemma known_channels_NoDup : NoDup (eeg_channels ++ ecg_channels ++ cm_channels).
Proof.
  assert (E : nodup string_dec (eeg_channels ++ ecg_channels ++ cm_channels)
              = eeg_channels ++ ecg_channels ++ cm_channels) by (vm_compute; reflexivity).
  rewrite <- E. apply NoDup_nodup.
Qed.

Ltac trace_group F :=
  eapply Forall2_Forall_r; [exact F|]; cbv beta;
  let Hg := fresh "Hg" in
  intros ? ? [[Hg _] _]; unfold is_eeg_trace, is_cm_trace, is_ecg_trace; now rewrite Hg.

Section FigureProperties.

Variable repr_names : list string -> string.

(** X10.  In a figure [create_plot] returns, the EEG traces are one per
    available EEG channel, in the order of the fixed channel list; each
    shows the channel's column of the caller's table as it was passed, in
    every unit mode; the i-th takes colour [i mod 21] of the palette and
    all sit in the upper panel on the primary axis. *)
Theorem create_plot_eeg_traces_raw title ecg_units channels initial_range df w fig s' :
  create_plot repr_names title ecg_units channels initial_range (df, w) = (Ok fig, s') ->
  Forall2 (fun ic tr =>
             tr_name tr = snd ic /\
             getitem df (snd ic) = Ok (tr_y tr) /\
             tr_color tr = color_at (fst ic) /\
             tr_row tr = 1 /\ tr_secondary_y tr = false)
          (enumerate (available eeg_channels channels df))
          (filter is_eeg_trace (fig_traces fig)).
Proof.
  intros H. apply create_plot_traces in H.
  destruct H as [eeg [ecg [cm [-> [Feeg [Fecg Fcm]]]]]].
  rewrite !filter_app.
  rewrite (filter_all is_eeg_trace (l:=eeg)) by trace_group Feeg.
  rewrite (filter_none is_eeg_trace (l:=ecg)) by trace_group Fecg.
  rewrite (filter_none is_eeg_trace (l:=cm)) by trace_group Fcm.
  rewrite !app_nil_r.
  eapply Forall2_impl_In; [exact Feeg|]. cbv beta.
  intros ic tr _ [[_ [Hname [Hc [Hr [Hs _]]]]] Hy]. repeat split; assumption.
Qed.

(** X11.  The CM trace of a returned figure, when the CM channel is
    available, is named CM, is drawn light gray in the lower panel on the
    secondary axis, and shows the caller's CM column divided by 1000 in mode
    [mv] and unchanged in every other mode.  When CM is not available there
    is no such trace. *)
Theorem create_plot_cm_trace title ecg_units channels initial_range df w fig s' :
  create_plot repr_names title ecg_units channels initial_range (df, w) = (Ok fig, s') ->
  Forall2 (fun ch tr =>
             tr_name tr = ch /\
             (exists col, getitem df ch = Ok col /\ tr_y tr = rendered_ecg ecg_units col) /\
             tr_color tr = "lightgray"%string /\
             tr_row tr = 2 /\ tr_secondary_y tr = true)
          (available cm_channels channels df)
          (filter is_cm_trace (fig_traces fig)).
Proof.
  intros H. apply create_plot_traces in H.
  destruct H as [eeg [ecg [cm [-> [Feeg [Fecg Fcm]]]]]].
  rewrite !filter_app.
  rewrite (filter_none is_cm_trace (l:=eeg)) by trace_group Feeg.
  rewrite (filter_none is_cm_trace (l:=ecg)) by trace_group Fecg.
  rewrite (filter_all is_cm_trace (l:=cm)) by trace_group Fcm.
  cbn [app].
  apply Forall2_enumerate with (a := 0).
  eapply Forall2_impl_In; [exact Fcm|]. cbv beta.
  intros ic tr _ [[_ [Hname [Hc [Hr [Hs _]]]]] Hy]. repeat split; assumption.
Qed.

(** X12.  Every trace of a returned figure is drawn against the [Time]
    column of the caller's table, and all of them use the WebGL scatter
    class exactly when the table has more than 10000 rows. *)
Theorem create_plot_shared_time_axis title ecg_units channels initial_range df w fig s' :
  create_plot repr_names title ecg_units channels initial_range (df, w) = (Ok fig, s') ->
  Forall (fun tr => getitem df "Time" = Ok (tr_x tr) /\
                    (tr_webgl tr = true <-> (10000 < Z.of_nat (nrows df))%Z))
         (fig_traces fig).
Proof.
  intros H. apply create_plot_traces in H.
  destruct H as [eeg [ecg [cm [-> [Feeg [Fecg Fcm]]]]]].
  assert (Hw : forall tr, tr_webgl tr = (10000 <? Z.of_nat (nrows df))%Z ->
                          (tr_webgl tr = true <-> (10000 < Z.of_nat (nrows df))%Z)).
  { intros tr ->. apply Z.ltb_lt. }
  rewrite !Forall_app. split; [|split].
  - eapply Forall2_Forall_r; [exact Feeg|]. cbv beta.
    intros ic tr [[_ [_ [_ [_ [_ [Hx Hgl]]]]]] _]. split; [assumption | now apply Hw].
  - eapply Forall2_Forall_r; [exact Fecg|]. cbv beta.
    intros ic tr [[_ [_ [_ [_ [_ [Hx Hgl]]]]]] _]. split; [assumption | now apply Hw].
  - eapply Forall2_Forall_r; [exact Fcm|]. cbv beta.
    intros ic tr [[_ [_ [_ [_ [_ [Hx Hgl]]]]]] _]. split; [assumption | now apply Hw].
Qed.

(** X13.  The traces of a returned figure are named after exactly the
    channels of the three fixed lists that are columns of the table and,
    when [channels] is a list with an element, are listed there: EEG first,
    then ECG, then CM, each in list order.  No name occurs twice, and a
    column that is in none of the lists is never drawn. *)
Theorem create_plot_trace_names title ecg_units channels initial_range df w fig s' :
  create_plot repr_names title ecg_units channels initial_range (df, w) = (Ok fig, s') ->
  map tr_name (fig_traces fig)
  = filter (charted channels df) (eeg_channels ++ ecg_channels ++ cm_channels) /\
  NoDup (map tr_name (fig_traces fig)).
Proof.
  intros H. apply create_plot_traces in H.
  destruct H as [eeg [ecg [cm [-> [Feeg [Fecg Fcm]]]]]].
  assert (E : map tr_name (eeg ++ ecg ++ cm)
              = filter (charted channels df) (eeg_channels ++ ecg_channels ++ cm_channels)).
  { rewrite !map_app, !filter_app, <- !available_filter. f_equal; [|f_equal].
    - apply names_in_order. apply Forall2_enumerate with (a := 0).
      eapply Forall2_impl_In; [exact Feeg|]. cbv beta. now intros ic tr _ [[_ [Hn _]] _].
    - apply names_in_order. apply Forall2_enumerate with (a := 0).
      eapply Forall2_impl_In; [exact Fecg|]. cbv beta. now intros ic tr _ [[_ [Hn _]] _].
    - apply names_in_order. apply Forall2_enumerate with (a := 0).
      eapply Forall2_impl_In; [exact Fcm|]. cbv beta. now intros ic tr _ [[_ [Hn _]] _]. }
  split; [exact E|].
  rewrite E. apply NoDup_filter. apply known_channels_NoDup.
Qed.

End FigureProperties.

(** ** How a chart call can end *)

Lemma create_plot_steps repr_names title ecg_units channels initial_range df w :
  exists w3,
    create_plot repr_names title ecg_units channels initial_range (df, w)
    = (ecg <- convert_ecg ecg_units (available ecg_channels channels df) ;;
       cm <- convert_cm ecg_units (available cm_channels channels df) ;;
       draw_figure title initial_range
                   (available eeg_channels channels df)
                   (available ecg_channels channels df)
                   (available cm_channels channels df) ecg cm) (df, w3).
Proof.
  unfold create_plot.
  rewrite (@bind_eval _ _ _ table _ (df, w) df (df, w) eq_refl). cbv zeta.
  do 3 (erewrite (@bind_eval _ _ _ (echo _)); [|reflexivity]).
  cbn [fst snd files stdout]. eexists. reflexivity.
Qed.

Lemma numeric_setitem df name col :
  numeric df -> Forall is_num col -> numeric (setitem df name col).
Proof.
  intros Hn Hc c col'. rewrite lookup_setitem.
  destruct (String.eqb c name); [|apply Hn]. intros H. now injection H as <-.
Qed.

Lemma forM_add_mv_column_numeric chs : forall df w,
  numeric df -> (forall ch, In ch chs -> In ch (columns df)) ->
  exists df', forM_ chs add_mv_column (df, w) = (Ok tt, (df', w)) /\ numeric df'.
Proof.
  induction chs as [|c rest IH]; intros df w Hn Hchs.
  - exists df. split; [reflexivity | assumption].
  - assert (Hc : In c (columns df)) by (apply Hchs; now left).
    apply In_columns_lookup in Hc. destruct Hc as [col Hcol].
    destruct (IH (setitem df (mv_name c) (in_millivolts col)) w) as [df' [E Hn']].
    + apply numeric_setitem; [assumption | apply in_millivolts_num].
    + intros ch Hch. apply columns_setitem. left. apply Hchs. now right.
    + exists df'. split; [|assumption]. simpl. unfold bind at 1.
      unfold add_mv_column, bind, column, lift, assign, getitem. cbn [fst snd].
      rewrite Hcol. rewrite (series_div_num (Hn _ _ Hcol)). exact E.
Qed.

Lemma conversions_numeric ecg_units channels df w :
  numeric df ->
  exists ecg df1 cm df2,
    convert_ecg ecg_units (available ecg_channels channels df) (df, w) = (Ok ecg, (df1, w)) /\
    convert_cm ecg_units (available cm_channels channels df) (df1, w) = (Ok cm, (df2, w)).
Proof.
  intros Hn.
  assert (H1 : exists ecg df1,
             convert_ecg ecg_units (available ecg_channels channels df) (df, w)
             = (Ok ecg, (df1, w)) /\ numeric df1).
  { unfold convert_ecg. destruct (String.eqb ecg_units "mv").
    - destruct (@forM_add_mv_column_numeric (available ecg_channels channels df) df w Hn)
        as [df1 [E Hn1]].
      { intros ch Hch. apply In_columns_lookup. eapply available_present. exact Hch. }
      eexists. exists df1. rewrite (@bind_eval _ _ _ _ _ _ _ _ E). unfold ret.
      split; [reflexivity | assumption].
    - eexists. exists df. unfold ret. split; [reflexivity | assumption]. }
  destruct H1 as [ecg [df1 [E1 Hn1]]]. exists ecg, df1.
  pose proof (convert_ecg_adds_derived ecg_units channels df (df, w)) as A1.
  rewrite E1 in A1. cbn [fst snd] in A1. destruct A1 as [_ [_ [_ Hraw1]]].
  unfold convert_cm.
  destruct (available_cm_cases channels df) as [E | E].
  - rewrite E. cbn [nonempty]. rewrite andb_false_r. unfold ret.
    eexists. exists df1. split; [exact E1 | reflexivity].
  - assert (Hcm : In "CM"%string (available cm_channels channels df)) by (rewrite E; now left).
    apply available_present in Hcm. destruct Hcm as [col Hcol].
    rewrite <- Hraw1 in Hcol by (simpl; intuition discriminate).
    rewrite E. cbn [nonempty]. rewrite andb_true_r.
    destruct (String.eqb ecg_units "mv").
    + eexists. eexists. split; [exact E1|].
      unfold bind at 1. unfold add_mv_column, bind, column, lift, assign, getitem.
      cbn [fst snd]. rewrite Hcol. rewrite (series_div_num (Hn1 _ _ Hcol)).
      unfold ret. reflexivity.
    + unfold ret. eexists. exists df1. split; [exact E1 | reflexivity].
Qed.

(** What the two conversions leave for the traces to read. *)
Lemma conversions_facts ecg_units channels df w ecg s1 cm s2 :
  convert_ecg ecg_units (available ecg_channels channels df) (df, w) = (Ok ecg, s1) ->
  convert_cm ecg_units (available cm_channels channels df) s1 = (Ok cm, s2) ->
  ecg = (map (ecg_data_col ecg_units) (available ecg_channels channels df),
         if String.eqb ecg_units "mv" then "mV"%string else "uV"%string) /\
  cm = (map (ecg_data_col ecg_units) (available cm_channels channels df),
        if String.eqb ecg_units "mv" && nonempty (available cm_channels channels df)
        then "mV"%string else "uV"%string) /\
  adds_derived_only df (fst s2) /\
  forall ch, In ch (available ecg_channels channels df) \/
             In ch (available cm_channels channels df) ->
    exists col, lookup ch (data df) = Some col /\
                lookup (ecg_data_col ecg_units ch) (data (fst s2))
                = Some (rendered_ecg ecg_units col).
Proof.
  intros Hecg Hcm.
  pose proof (convert_ecg_adds_derived ecg_units channels df (df, w)) as A1.
  rewrite Hecg in A1. cbn [fst snd] in A1.
  pose proof (convert_cm_adds_derived ecg_units (available cm_channels channels df) s1) as A2.
  rewrite Hcm in A2. cbn [fst snd] in A2.
  pose proof (convert_cm_keeps_others _ _ _ Hcm) as Hkeep.
  apply convert_ecg_Ok in Hecg;
    [|intros ch Hch; eapply available_incl; exact Hch
     |apply available_NoDup_mv; repeat constructor; simpl; intuition discriminate
     |intros ch Hch; eapply available_present; exact Hch].
  destruct Hecg as [-> Hcols].
  apply convert_cm_Ok in Hcm. destruct Hcm as [-> Hcmcols].
  split; [reflexivity|]. split; [reflexivity|].
  split; [exact (adds_derived_only_trans A1 A2)|].
  destruct A1 as [_ [_ [_ Hraw1]]].
  intros ch [Hin | Hin].
  - destruct (Hcols _ Hin) as [col [Hcol Hmv]]. exists col. split; [assumption|].
    rewrite Hkeep by (apply ecg_data_col_not_cm; eapply available_incl; exact Hin).
    exact Hmv.
  - assert (Hnd : ~ In ch derived_columns)
      by (apply cm_not_derived; eapply available_incl; exact Hin).
    destruct (@available_present _ _ _ _ Hin) as [col0 Hcol0].
    destruct (Hcmcols _ Hin) as [col [Hcol Hmv]].
    { exists col0. now rewrite Hraw1. }
    exists col. split; [|exact Hmv]. now rewrite <- Hraw1.
Qed.

Lemma mapM_column_Ok names s cols s' :
  mapM column names s = (Ok cols, s') ->
  Forall2 (fun n c => lookup n (data (fst s)) = Some c) names cols.
Proof.
  apply mapM_Forall2. intros n c s0 H. unfold column in H.
  injection H as Hc <-. split; [reflexivity | now apply getitem_lookup].
Qed.

Lemma rendered_columns (look raw : string -> option (list cell)) ecg_units :
  forall l cols,
    Forall2 (fun n c => look n = Some c) (map (ecg_data_col ecg_units) l) cols ->
    (forall ch, In ch l ->
       exists col, raw ch = Some col /\
                   look (ecg_data_col ecg_units ch) = Some (rendered_ecg ecg_units col)) ->
    cols = map (fun ch => match raw ch with
                          | Some col => rendered_ecg ecg_units col
                          | None => []
                          end) l.
Proof.
  induction l as [|ch l IH]; intros cols HF Hl; cbn [map] in HF.
  - inversion HF; subst. reflexivity.
  - inversion HF as [|? c ? cols' Hc Hrest]; subst. cbn [map].
    destruct (Hl ch (or_introl eq_refl)) as [col [Hraw Hlook]].
    rewrite Hraw. f_equal; [congruence|].
    apply IH; [assumption | intros ch' Hch'; apply Hl; now right].
Qed.

Lemma ecg_samples_rendered ecg_units channels df :
  ecg_samples ecg_units channels df
  = map key_of (concat (ecg_rendered ecg_units channels df)).
Proof.
  unfold ecg_samples, ecg_rendered.
  induction (available ecg_channels channels df) as [|ch l IH]; simpl; [reflexivity|].
  rewrite map_app, IH. f_equal. now destruct (lookup ch (data df)).
Qed.

Lemma ecg_rendered_numeric ecg_units channels df :
  numeric df -> Forall is_num (concat (ecg_rendered ecg_units channels df)).
Proof.
  intros Hnum. apply Forall_concat. unfold ecg_rendered. apply Forall_map.
  apply Forall_forall. intros ch _.
  destruct (lookup ch (data df)) as [col|] eqn:E; [|constructor].
  unfold rendered_ecg. destruct (String.eqb ecg_units "mv").
  - apply in_millivolts_num.
  - eapply Hnum. exact E.
Qed.

Lemma ecg_axis_range_eval names df w cols :
  mapM column names (df, w) = (Ok cols, (df, w)) ->
  ecg_axis_range names (df, w) = (padded_extent (values cols), (df, w)).
Proof.
  intros E. unfold ecg_axis_range. now rewrite (@bind_eval _ _ _ _ _ _ _ _ E).
Qed.

Lemma nonempty_map {A B} (f : A -> B) l : nonempty (map f l) = nonempty l.
Proof. now destruct l. Qed.

Lemma ecg_axis_range_Ok names s r s' :
  ecg_axis_range names s = (Ok r, s') ->
  exists cols,
    Forall2 (fun n c => lookup n (data (fst s)) = Some c) names cols /\
    padded_extent (values cols) = Ok r.
Proof.
  unfold ecg_axis_range. intros H.
  apply bind_Ok in H. destruct H as [cols [s1 [Hcols H]]]. cbv zeta in H.
  unfold lift in H. injection H as H _.
  exists cols. split; [|exact H]. eapply mapM_column_Ok. exact Hcols.
Qed.

(** What [padded_extent] returns, by the type of the array. *)
Lemma padded_extent_Ok cols lo hi :
  padded_extent (values cols) = Ok (lo, hi) ->
  Forall is_num (concat cols) /\
  (forall zs, concat cols = map Int zs ->
     exists mn mx,
       np_min_int zs = Ok mn /\ np_max_int zs = Ok mx /\
       lo = (float_of_Z mn - float_of_Z (wrap_int64 (mx - mn)) * 0.1)%float /\
       hi = (float_of_Z mx + float_of_Z (wrap_int64 (mx - mn)) * 0.1)%float) /\
  (~ Forall is_int (concat cols) ->
     exists mn mx,
       np_min (map key_of (concat cols)) = Ok mn /\
       np_max (map key_of (concat cols)) = Ok mx /\
       lo = (mn - (mx - mn) * 0.1)%float /\
       hi = (mx + (mx - mn) * 0.1)%float).
Proof.
  unfold values. cbv zeta. intros H.
  destruct (existsb is_text (concat cols)) eqn:Et; [discriminate|].
  assert (Hnum : Forall is_num (concat cols)).
  { apply Forall_forall. intros c Hc. destruct c as [x|z|t]; try exact I.
    assert (Ex : existsb is_text (concat cols) = true)
      by (apply existsb_exists; exists (Str t); now split).
    congruence. }
  split; [exact Hnum|].
  destruct (int_values (concat cols)) as [zs|] eqn:Ei.
  - apply int_values_Some in Ei. split.
    + intros zs' E'. rewrite Ei in E'.
      assert (zs' = zs).
      { apply (f_equal int_values) in E'. rewrite !int_values_map in E'. congruence. }
      subst zs'. destruct zs as [|z zs]; [discriminate|].
      cbn [padded_extent np_min_int np_max_int rbind] in H. injection H as <- <-.
      eexists. eexists. split; [reflexivity|]. split; [reflexivity|]. now split.
    + intros Hni. exfalso. apply Hni. rewrite Ei. apply Forall_map.
      apply Forall_forall. now intros.
  - split.
    + intros zs E'. rewrite E', int_values_map in Ei. discriminate.
    + intros _. destruct (concat cols) as [|c cells]; [discriminate|].
      cbn [padded_extent map np_min np_max rbind] in H. injection H as <- <-.
      eexists. eexists. split; [reflexivity|]. split; [reflexivity|]. now split.
Qed.

Lemma bind_raise {S A B} (m : M S A) (k : A -> M S B) s e s1 :
  m s = (Raise e, s1) -> bind m k s = (Raise e, s1).
Proof. intros E. unfold bind. now rewrite E. Qed.

Lemma mapM_raises {S A B} (f : A -> M S B) l s e :
  l <> [] -> (forall x, f x s = (Raise e, s)) -> mapM f l s = (Raise e, s).
Proof.
  intros Hl Hf. destruct l as [|x l]; [contradiction|].
  simpl. apply bind_raise. apply Hf.
Qed.

Lemma lookup_absent df c : ~ In c (columns df) -> lookup c (data df) = None.
Proof.
  intros H. destruct (lookup c (data df)) as [col|] eqn:E; [|reflexivity].
  exfalso. apply H. apply In_columns_lookup. eauto.
Qed.

Section ChartOutcomes.

Variable repr_names : list string -> string.

(** X14.  The labels of a returned figure follow the unit mode: the lower
    panel and its primary axis are labelled mV in mode [mv] and uV in every
    other mode, whether or not an ECG channel is drawn; the secondary (CM)
    axis is labelled mV only when the mode is [mv] and the CM channel is
    drawn, and uV otherwise.  The title and the initial x range are the
    ones passed. *)
Theorem create_plot_axis_labels title ecg_units channels initial_range df w fig s' :
  create_plot repr_names title ecg_units channels initial_range (df, w) = (Ok fig, s') ->
  fig_title fig = title /\
  fig_xrange fig = initial_range /\
  fig_subplot_titles fig
  = ("EEG Channels (uV)"%string,
     if String.eqb ecg_units "mv" then "ECG and CM (mV)"%string
     else "ECG and CM (uV)"%string) /\
  fig_ecg_axis_title fig
  = (if String.eqb ecg_units "mv" then "ECG (mV)"%string else "ECG (uV)"%string) /\
  fig_cm_axis_title fig
  = (if String.eqb ecg_units "mv" && nonempty (available cm_channels channels df)
     then "CM (mV)"%string else "CM (uV)"%string).
Proof.
  intros H. apply create_plot_Ok_inv in H.
  destruct H as [w3 [ecg [s1 [cm [eeg_t [ecg_t [cm_t [rng
                  [Hecg [Hcm [_ [_ [_ [_ ->]]]]]]]]]]]]]].
  destruct (@conversions_facts _ _ _ _ _ _ _ _ Hecg Hcm) as [-> [-> _]].
  cbn [fig_title fig_xrange fig_subplot_titles fig_ecg_axis_title fig_cm_axis_title fst snd].
  split; [reflexivity|]. split; [reflexivity|].
  destruct (String.eqb ecg_units "mv"); cbn [andb];
    destruct (nonempty (available cm_channels channels df)); repeat split; reflexivity.
Qed.

(** X15.  The range of the ECG axis of a returned figure.  When no ECG
    channel is drawn it is left to the plotting library.  Otherwise no ECG
    value as drawn (after the unit conversion) is text, and the range is the
    extent of those values widened at each end by a tenth of [max - min].
    When all of them are integers, which can only be in a mode other than
    [mv], minimum and maximum are taken on integers and their difference in
    64-bit arithmetic, which wraps around; otherwise every step is in
    floating point, the minimum and maximum being NaN as soon as a value is. *)
Theorem create_plot_ecg_axis_range title ecg_units channels initial_range df w fig s' :
  create_plot repr_names title ecg_units channels initial_range (df, w) = (Ok fig, s') ->
  match fig_ecg_range fig with
  | None => available ecg_channels channels df = []
  | Some (lo, hi) =>
      available ecg_channels channels df <> [] /\
      Forall is_num (concat (ecg_rendered ecg_units channels df)) /\
      (forall zs, concat (ecg_rendered ecg_units channels df) = map Int zs ->
         ecg_units <> "mv"%string /\
         exists mn mx,
           np_min_int zs = Ok mn /\ np_max_int zs = Ok mx /\
           lo = (float_of_Z mn - float_of_Z (wrap_int64 (mx - mn)) * 0.1)%float /\
           hi = (float_of_Z mx + float_of_Z (wrap_int64 (mx - mn)) * 0.1)%float) /\
      (~ Forall is_int (concat (ecg_rendered ecg_units channels df)) ->
         exists mn mx,
           np_min (map key_of (concat (ecg_rendered ecg_units channels df))) = Ok mn /\
           np_max (map key_of (concat (ecg_rendered ecg_units channels df))) = Ok mx /\
           lo = (mn - (mx - mn) * 0.1)%float /\
           hi = (mx + (mx - mn) * 0.1)%float)
  end.
Proof.
  intros H. apply create_plot_Ok_inv in H.
  destruct H as [w3 [ecg [s1 [cm [eeg_t [ecg_t [cm_t [rng
                  [Hecg [Hcm [_ [_ [_ [Hrng ->]]]]]]]]]]]]]].
  destruct (@conversions_facts _ _ _ _ _ _ _ _ Hecg Hcm) as [-> [-> [_ Hcols]]].
  cbn [fig_ecg_range fst snd] in *.
  rewrite nonempty_map, andb_diag in Hrng.
  destruct (nonempty (available ecg_channels channels df)) eqn:Ene.
  - apply bind_Ok in Hrng. destruct Hrng as [[lo hi] [s [Hr Hret]]].
    unfold ret in Hret. injection Hret as <- _.
    apply ecg_axis_range_Ok in Hr. destruct Hr as [cols [HF Hr]].
    assert (Es : cols = ecg_rendered ecg_units channels df).
    { unfold ecg_rendered.
      apply (@rendered_columns (fun n => lookup n (data (fst s')))
                               (fun ch => lookup ch (data df)) ecg_units _ _ HF).
      intros ch Hch. apply Hcols. now left. }
    subst cols. apply padded_extent_Ok in Hr. destruct Hr as [Hnum [Hint Hfloat]].
    split; [now apply nonempty_true|]. split; [exact Hnum|]. split; [|exact Hfloat].
    intros zs Ezs. split; [|now apply Hint].
    intros ->. destruct (Hint zs Ezs) as [mn [_ [Hmn _]]].
    destruct zs as [|z zs]; [discriminate|].
    unfold ecg_rendered, rendered_ecg in Ezs. cbn [String.eqb Ascii.eqb Bool.eqb] in Ezs.
    revert Ezs. clear.
    induction (available ecg_channels channels df) as [|ch l IH]; [discriminate|].
    cbn [map concat]. destruct (lookup ch (data df)) as [[|c col]|]; try exact IH.
    discriminate.
  - unfold ret in Hrng. injection Hrng as <-.
    destruct (available ecg_channels channels df); [reflexivity | discriminate].
Qed.

Lemma create_plot_outcome title ecg_units channels initial_range df w :
  numeric df -> In "Time"%string (columns df) ->
  (available ecg_channels channels df <> [] ->
   ecg_samples ecg_units channels df = [] ->
   fst (create_plot repr_names title ecg_units channels initial_range (df, w))
   = Raise (ValueError "zero-size array to reduction operation minimum which has no identity"))
  /\
  (available ecg_channels channels df = [] \/ ecg_samples ecg_units channels df <> [] ->
   exists fig,
     fst (create_plot repr_names title ecg_units channels initial_range (df, w)) = Ok fig).
Proof.
  intros Hnum HT.
  destruct (create_plot_steps repr_names title ecg_units channels initial_range df w)
    as [w3 E].
  rewrite E. clear E.
  destruct (@conversions_numeric ecg_units channels df w3 Hnum)
    as [ecg [df1 [cm [df2 [Eecg Ecm]]]]].
  rewrite (@bind_eval _ _ _ _ _ _ _ _ Eecg), (@bind_eval _ _ _ _ _ _ _ _ Ecm).
  destruct (@conversions_facts _ _ _ _ _ _ _ _ Eecg Ecm) as [-> [-> [Hadd Hcols]]].
  cbn [fst snd] in *. destruct Hadd as [_ [Hsub _]].
  assert (Hdata : forall ch, In ch (available ecg_channels channels df) \/
                             In ch (available cm_channels channels df) ->
                             In (ecg_data_col ecg_units ch) (columns df2)).
  { intros ch Hch. destruct (Hcols ch Hch) as [col [_ Hl]].
    apply In_columns_lookup. eauto. }
  unfold draw_figure.
  rewrite (@bind_eval _ _ _ table _ (df2, w3) df2 (df2, w3) eq_refl). cbv zeta.
  cbn [fst snd].
  destruct (@mapM_returns _ _ _ (eeg_trace (10000 <? Z.of_nat (nrows df2))%Z) (df2, w3)
                          (enumerate (available eeg_channels channels df)))
    as [eeg_traces Eeeg].
  { intros [i ch] Hin. apply eeg_trace_returns; [now apply Hsub|].
    apply in_enumerate in Hin. apply Hsub, In_columns_lookup.
    eapply available_present. exact Hin. }
  rewrite (@bind_eval _ _ _ _ _ _ _ _ Eeeg).
  destruct (@mapM_returns _ _ _
              (ecg_trace (10000 <? Z.of_nat (nrows df2))%Z
                         (if String.eqb ecg_units "mv" then "mV"%string else "uV"%string))
              (df2, w3)
              (enumerate (combine (available ecg_channels channels df)
                                  (map (ecg_data_col ecg_units)
                                       (available ecg_channels channels df)))))
    as [ecg_traces Eecgt].
  { intros [i [ch dc]] Hin. apply ecg_trace_returns; [now apply Hsub|].
    apply in_enumerate, in_combine_r, in_map_iff in Hin.
    destruct Hin as [ch' [<- Hch']]. cbn [snd]. apply Hdata. now left. }
  rewrite (@bind_eval _ _ _ _ _ _ _ _ Eecgt).
  destruct (@mapM_returns _ _ _
              (cm_trace (10000 <? Z.of_nat (nrows df2))%Z
                        (if String.eqb ecg_units "mv"
                            && nonempty (available cm_channels channels df)
                         then "mV"%string else "uV"%string))
              (df2, w3)
              (enumerate (combine (available cm_channels channels df)
                                  (map (ecg_data_col ecg_units)
                                       (available cm_channels channels df)))))
    as [cm_traces Ecmt].
  { intros [i [ch dc]] Hin. apply cm_trace_returns; [now apply Hsub|].
    apply in_enumerate, in_combine_r, in_map_iff in Hin.
    destruct Hin as [ch' [<- Hch']]. cbn [snd]. apply Hdata. now right. }
  rewrite (@bind_eval _ _ _ _ _ _ _ _ Ecmt).
  rewrite nonempty_map, andb_diag.
  destruct (@mapM_column_returns
              (map (ecg_data_col ecg_units) (available ecg_channels channels df)) df2 w3)
    as [cols [Ecols HF]].
  { intros n Hn. apply in_map_iff in Hn. destruct Hn as [ch [<- Hch]].
    apply Hdata. now left. }
  assert (Es : cols = ecg_rendered ecg_units channels df).
  { unfold ecg_rendered.
    apply (@rendered_columns (fun n => lookup n (data df2))
                             (fun ch => lookup ch (data df)) ecg_units _ _ HF).
    intros ch Hch. apply Hcols. now left. }
  pose proof (ecg_axis_range_eval _ Ecols) as Er. rewrite Es in Er.
  rewrite ecg_samples_rendered.
  split.
  - intros Hne Hs. apply nonempty_true in Hne. rewrite Hne.
    apply map_eq_nil in Hs. rewrite (padded_extent_empty _ Hs) in Er.
    rewrite (@bind_raise _ _ _ _ _ _ _ _
               (@bind_raise _ _ _ _ (fun r => ret (Some r)) _ _ _ Er)).
    reflexivity.
  - intros Hcase.
    destruct (nonempty (available ecg_channels channels df)) eqn:Ene.
    + apply nonempty_true in Ene.
      destruct Hcase as [Hempty | Hs]; [contradiction|].
      destruct (@padded_extent_returns (ecg_rendered ecg_units channels df)) as [r Hr].
      { now apply ecg_rendered_numeric. }
      { intros E. apply Hs. now rewrite E. }
      rewrite Hr in Er.
      rewrite (@bind_eval _ _ _ _ _ _ _ _
                 (@bind_eval _ _ _ _ (fun r => ret (Some r)) _ _ _ Er)).
      unfold ret. eexists. reflexivity.
    + unfold bind, ret. eexists. reflexivity.
Qed.

(** X16.  On a numeric table with a [Time] column [create_plot] can end in
    two ways only.  When an ECG channel is drawn and the ECG columns hold no
    value at all (a table with no rows), computing the ECG axis range raises
    ValueError; in every other case a figure is returned. *)
Theorem create_plot_fails_only_without_ecg_values title ecg_units channels initial_range df w :
  numeric df -> In "Time"%string (columns df) ->
  (available ecg_channels channels df <> [] ->
   ecg_samples ecg_units channels df = [] ->
   fst (create_plot repr_names title ecg_units channels initial_range (df, w))
   = Raise (ValueError "zero-size array to reduction operation minimum which has no identity"))
  /\
  (available ecg_channels channels df = [] \/ ecg_samples ecg_units channels df <> [] ->
   exists fig,
     fst (create_plot repr_names title ecg_units channels initial_range (df, w)) = Ok fig).
Proof. apply create_plot_outcome. Qed.

(** X17.  Called on a numeric table that has no [Time] column,
    [create_plot] raises KeyError for [Time] as soon as there is a channel
    to draw: the first trace reads the missing column. *)
Theorem create_plot_without_time title ecg_units channels initial_range df w :
  numeric df -> ~ In "Time"%string (columns df) ->
  filter (charted channels df) (eeg_channels ++ ecg_channels ++ cm_channels) <> [] ->
  fst (create_plot repr_names title ecg_units channels initial_range (df, w))
  = Raise (KeyError "Time").
Proof.
  intros Hnum HT Hsome.
  rewrite !filter_app, <- !available_filter in Hsome.
  destruct (create_plot_steps repr_names title ecg_units channels initial_range df w)
    as [w3 E].
  rewrite E. clear E.
  destruct (@conversions_numeric ecg_units channels df w3 Hnum)
    as [ecg [df1 [cm [df2 [Eecg Ecm]]]]].
  rewrite (@bind_eval _ _ _ _ _ _ _ _ Eecg), (@bind_eval _ _ _ _ _ _ _ _ Ecm).
  destruct (@conversions_facts _ _ _ _ _ _ _ _ Eecg Ecm) as [-> [-> [Hadd _]]].
  cbn [fst snd] in *. destruct Hadd as [_ [_ [_ Hraw]]].
  assert (Hnone : getitem df2 "Time" = Raise (KeyError "Time")).
  { unfold getitem. rewrite (Hraw _ not_derived_time). now rewrite (lookup_absent _ _ HT). }
  unfold draw_figure.
  rewrite (@bind_eval _ _ _ table _ (df2, w3) df2 (df2, w3) eq_refl). cbv zeta.
  cbn [fst snd].
  destruct (available eeg_channels channels df) as [|x l].
  - rewrite (@bind_eval _ _ _ _ _ _ _ _ (eq_refl : mapM _ (enumerate []) (df2, w3) = (Ok [], (df2, w3)))).
    destruct (available ecg_channels channels df) as [|x l].
    + rewrite (@bind_eval _ _ _ _ _ _ _ _
                 (eq_refl : mapM _ (enumerate (combine [] (map _ []))) (df2, w3)
                            = (Ok [], (df2, w3)))).
      destruct (available cm_channels channels df) as [|x l]; [contradiction|].
      rewrite (@bind_raise _ _ _ _ _ _ (KeyError "Time") (df2, w3)); [reflexivity|].
      apply mapM_raises; [discriminate|].
      intros icd. unfold cm_trace, bind, column. cbn [fst]. now rewrite Hnone.
    + rewrite (@bind_raise _ _ _ _ _ _ (KeyError "Time") (df2, w3)); [reflexivity|].
      apply mapM_raises; [discriminate|].
      intros icd. unfold ecg_trace, bind, column. cbn [fst]. now rewrite Hnone.
  - rewrite (@bind_raise _ _ _ _ _ _ (KeyError "Time") (df2, w3)); [reflexivity|].
    apply mapM_raises; [discriminate|].
    intros ic. unfold eeg_trace, bind, column. cbn [fst]. now rewrite Hnone.
Qed.

End ChartOutcomes.

(** ** What chart creation does to the caller's table *)

Lemma readonly_draw_figure title initial_range available_eeg available_ecg available_cm ecg cm :
  readonly (draw_figure title initial_range available_eeg available_ecg available_cm ecg cm).
Proof.
  unfold draw_figure.
  apply readonly_bind; [apply readonly_table | intros df'].
  apply readonly_bind; [apply readonly_mapM, readonly_eeg_trace | intros eeg_traces].
  apply readonly_bind; [apply readonly_mapM, readonly_ecg_trace | intros ecg_traces].
  apply readonly_bind; [apply readonly_mapM, readonly_cm_trace | intros cm_traces].
  apply readonly_bind; [|intros r; apply readonly_ret].
  destruct (nonempty _ && nonempty _); [|apply readonly_ret].
  apply readonly_bind; [apply readonly_ecg_axis_range | intros r; apply readonly_ret].
Qed.

Section ChartTableEffect.

Variable repr_names : list string -> string.

(** C6, as amended.  In every unit mode but [mv], [create_plot] leaves the
    caller's table exactly as it was.  In mode [mv] it changes the table:
    on a numeric table (a loaded one) it writes, for every ECG and CM
    channel it draws, the derived column [<channel>_mV] holding the
    channel's values divided by 1000, and it does so whether the call then
    returns a figure or raises.  It touches nothing else: the row labels
    stay, no column is removed, every column that is not one of
    [X1:LEOG_mV], [X2:REOG_mV], [CM_mV] keeps its cells, and no other column
    appears. *)
Theorem create_plot_table_effect title ecg_units channels initial_range df w :
  adds_derived_only
    df (fst (snd (create_plot repr_names title ecg_units channels initial_range (df, w))))
  /\ (ecg_units <> "mv"%string ->
      fst (snd (create_plot repr_names title ecg_units channels initial_range (df, w))) = df)
  /\ (ecg_units = "mv"%string -> numeric df ->
      forall ch, In ch (available ecg_channels channels df) \/
                 In ch (available cm_channels channels df) ->
        exists col,
          lookup ch (data df) = Some col /\
          lookup (mv_name ch)
                 (data (fst (snd (create_plot repr_names title ecg_units channels
                                              initial_range (df, w)))))
          = Some (in_millivolts col)).
Proof.
  split; [|split].
  - assert (P : preserves adds_derived_only
                  (create_plot repr_names title ecg_units channels initial_range)).
    { apply create_plot_preserves.
      + apply adds_derived_only_refl.
      + apply adds_derived_only_trans.
      + intros df0. apply convert_ecg_adds_derived.
      + intros df0. apply convert_cm_adds_derived. }
    exact (P (df, w)).
  - intros Hne. apply String.eqb_neq in Hne. symmetry.
    assert (P : preserves (fun a b => a = b)
                  (create_plot repr_names title ecg_units channels initial_range)).
    { apply create_plot_preserves.
      + reflexivity.
      + intros; congruence.
      + intros df0. unfold convert_ecg. rewrite Hne.
        apply readonly_preserves; [reflexivity | apply readonly_ret].
      + intros df0. unfold convert_cm. rewrite Hne. simpl.
        apply readonly_preserves; [reflexivity | apply readonly_ret]. }
    exact (P (df, w)).
  - intros Hmv Hnum ch Hch.
    destruct (create_plot_steps repr_names title ecg_units channels initial_range df w)
      as [w3 E].
    rewrite E. clear E.
    destruct (@conversions_numeric ecg_units channels df w3 Hnum)
      as [ecg [df1 [cm [df2 [Eecg Ecm]]]]].
    rewrite (@bind_eval _ _ _ _ _ _ _ _ Eecg), (@bind_eval _ _ _ _ _ _ _ _ Ecm).
    rewrite readonly_draw_figure. cbn [fst].
    destruct (@conversions_facts _ _ _ _ _ _ _ _ Eecg Ecm) as [_ [_ [_ Hcols]]].
    destruct (Hcols ch Hch) as [col [Hcol Hmvcol]].
    exists col. split; [exact Hcol|].
    unfold ecg_data_col, rendered_ecg in Hmvcol. subst ecg_units.
    exact Hmvcol.
Qed.

End ChartTableEffect.

(** ** The shape of a loaded table and the loader's report *)

Lemma thinned_length step {A} (l : list A) :
  length (thinned step l)
  = (length l + Z.to_nat (Z.max step 1) - 1) / Z.to_nat (Z.max step 1).
Proof.
  unfold thinned. destruct (step >? 1)%Z eqn:E.
  - rewrite Z.gtb_ltb in E. apply Z.ltb_lt in E.
    rewrite Z.max_l by lia. apply slice_step_length. lia.
  - rewrite Z.gtb_ltb in E. apply Z.ltb_ge in E.
    rewrite Z.max_r by lia. change (Z.to_nat 1) with 1.
    rewrite Nat.div_1_r. lia.
Qed.

Lemma index_decimated step df : index (decimated step df) = thinned step (index df).
Proof. unfold decimated, thinned. now destruct (step >? 1)%Z. Qed.

Section LoaderShape.

Variable parse_csv : string -> result DataFrame.
Variable str_to_int : string -> option Z.
Variable str_to_float : string -> float.
Variable argsort : list cell -> list nat.
Variable format_3f : float -> string.

Lemma arrange_length raw {A} (l : list A) :
  argsort_permutes argsort ->
  contains "Time" (columns raw) = true ->
  rectangular raw ->
  length l = nrows raw ->
  length (arrange str_to_int str_to_float argsort raw l)
  = length (filter notna (converted_time str_to_int str_to_float raw)).
Proof.
  intros Hperm HT Hrect Hl. destruct (contains_lookup _ _ HT) as [t Ht].
  unfold arrange.
  assert (E : length (filter_mask (time_mask str_to_int str_to_float raw) l)
              = length (filter notna (converted_time str_to_int str_to_float raw))).
  { rewrite <- (filter_mask_self notna (converted_time str_to_int str_to_float raw)).
    apply filter_mask_length. unfold converted_time. rewrite Ht.
    rewrite to_numeric_length. rewrite Hl. symmetry.
    now apply (Hrect "Time"%string). }
  rewrite take_permutation_length; [exact E|].
  rewrite E. unfold time_order, time_mask. rewrite filter_mask_self.
  apply Hperm.
Qed.

Lemma load_data_table w path raw step :
  argsort_permutes argsort ->
  reads parse_csv w path raw ->
  contains "Time" (columns raw) = true ->
  rectangular raw ->
  exists table w',
    load_data parse_csv str_to_int str_to_float argsort format_3f path step w = (Ok table, w') /\
    nrows table
    = (length (filter notna (converted_time str_to_int str_to_float raw))
       + Z.to_nat (Z.max step 1) - 1) / Z.to_nat (Z.max step 1) /\
    ncols table = length (filter kept (columns raw)) /\
    rectangular table /\
    columns table = filter kept (columns raw) /\
    numeric table.
Proof.
  intros Hperm Hreads HT Hrect.
  destruct (load_data_valid str_to_int str_to_float argsort format_3f step Hreads HT)
    as [cleaned [w' [Hclean [Hrun [_ [Hidx [Hcols _]]]]]]].
  exists (reset_index (decimated step cleaned)), w'. split; [assumption|].
  assert (Hrows : nrows (reset_index (decimated step cleaned))
                  = (length (filter notna (converted_time str_to_int str_to_float raw))
                     + Z.to_nat (Z.max step 1) - 1) / Z.to_nat (Z.max step 1)).
  { rewrite nrows_reset_index. unfold nrows. rewrite index_decimated, thinned_length.
    rewrite Hidx. now rewrite (arrange_length (index raw) Hperm HT Hrect eq_refl). }
  split; [exact Hrows|]. split; [|split; [|split]].
  - unfold ncols, reset_index. cbn [data].
    rewrite <- (length_map fst). fold (columns (decimated step cleaned)).
    now rewrite columns_decimated, Hcols.
  - intros c col. rewrite Hrows. unfold reset_index. cbn [data].
    rewrite lookup_decimated.
    destruct (lookup c (data cleaned)) as [col0|] eqn:Ec; [|discriminate].
    cbn [option_map]. intros H. injection H as <-.
    destruct (clean_columns str_to_int str_to_float argsort raw HT Hclean c Ec)
      as [rawcol [Hrawcol [_ Hl]]].
    rewrite thinned_length, Hl.
    now rewrite (arrange_length rawcol Hperm HT Hrect (Hrect c rawcol Hrawcol)).
  - unfold reset_index, columns at 1. cbn [data]. fold (columns (decimated step cleaned)).
    now rewrite columns_decimated.
  - intros c col. unfold reset_index. cbn [data]. rewrite lookup_decimated.
    destruct (lookup c (data cleaned)) as [col0|] eqn:Ec; [|discriminate].
    cbn [option_map]. intros H. injection H as <-.
    destruct (clean_columns str_to_int str_to_float argsort raw HT Hclean c Ec)
      as [rawcol [_ [Hu _]]].
    apply Forall_forall. intros x Hx. apply thinned_incl in Hx.
    pose proof (uniform_is_num Hu) as Hn.
    rewrite Forall_forall in Hn. now apply Hn.
Qed.

(** X18.  The shape of a loaded table.  For a file that parses to a
    rectangular table with a [Time] column, the returned table has one row
    for every [step]-th of the input rows whose [Time] converts to a number
    (all of them when [step] is 1 or less), rounded up; it has one column
    for every input column outside the ignore set; and every column has
    exactly one cell per row. *)
Theorem load_data_shape w path raw step :
  argsort_permutes argsort ->
  reads parse_csv w path raw ->
  contains "Time" (columns raw) = true ->
  rectangular raw ->
  exists table w',
    load_data parse_csv str_to_int str_to_float argsort format_3f path step w = (Ok table, w') /\
    nrows table
    = (length (filter notna (converted_time str_to_int str_to_float raw))
       + Z.to_nat (Z.max step 1) - 1) / Z.to_nat (Z.max step 1) /\
    ncols table = length (filter kept (columns raw)) /\
    rectangular table.
Proof.
  intros Hperm Hreads HT Hrect.
  destruct (@load_data_table w path raw step Hperm Hreads HT Hrect)
    as [table [w' [Hrun [Hrows [Hcols [Hr _]]]]]].
  exists table, w'. repeat split; assumption.
Qed.

(** X19.  The report of a successful load describes the table returned:
    after the opening line, a line about decimation exactly when [step]
    exceeds 1, then the success line, the shape of the returned table, and
    the least and greatest value of its [Time] column. *)
Theorem load_data_report w path raw step :
  reads parse_csv w path raw ->
  contains "Time" (columns raw) = true ->
  exists table w' time,
    load_data parse_csv str_to_int str_to_float argsort format_3f path step w = (Ok table, w') /\
    getitem table "Time" = Ok time /\
    stdout w'
    = stdout w
      ++ [("Loading data from: " ++ path)%string]
      ++ (if (step >? 1)%Z then [("Downsampled by factor " ++ str_of_Z step)%string] else [])
      ++ ["Data loaded successfully!"%string;
          ("Shape: (" ++ str_of_nat (nrows table) ++ ", "
                      ++ str_of_nat (ncols table) ++ ")")%string;
          ("Time range: " ++ format_3f (series_min time) ++ "s to "
                          ++ format_3f (series_max time) ++ "s")%string].
Proof.
  intros Hreads HT.
  destruct (clean_spec str_to_int str_to_float argsort raw HT) as [cleaned [Hclean [_ [Hcols _]]]].
  assert (HT' : contains "Time" (columns cleaned) = true).
  { apply contains_In. rewrite Hcols. apply filter_In. split.
    - now apply contains_In.
    - reflexivity. }
  destruct Hreads as [text [Hfile Hparse]].
  destruct (contains_lookup _ _ HT') as [time Htime].
  exists (reset_index (decimated step cleaned)).
  assert (Hd : lookup "Time" (data (decimated step cleaned)) = Some (thinned step time))
    by (rewrite lookup_decimated, Htime; reflexivity).
  unfold load_data, bind, println, print, read_csv, lift, ret.
  cbn [files stdout]. rewrite Hfile, Hparse, Hclean.
  unfold decimated, thinned in *.
  destruct (step >? 1)%Z; cbn [files stdout]; unfold getitem; rewrite Hd;
    eexists; eexists; (split; [reflexivity|]); rewrite nrows_reset_index;
    cbn [files stdout reset_index data];
    rewrite Hd; (split; [reflexivity|]);
    rewrite <- ?app_assoc; reflexivity.
Qed.

End LoaderShape.

Section MainFrame.

Variable parse_csv : string -> result DataFrame.
Variable str_to_int : string -> option Z.
Variable str_to_float : string -> float.
Variable argsort : list cell -> list nat.
Variable format_3f : float -> string.
Variable repr_names : list string -> string.
Variable to_html : Figure -> string.
Variable render_image : Figure -> string -> Z -> Z -> option Z -> result string.
Variable show : Figure -> M World unit.

(** X20.  A run of [main] can change three paths only, the HTML, PNG and
    PDF documents in the output directory: every other path, the data file
    among them, holds after the run what it held before, however the run
    ends.  (Opening the browser is taken to write no file.) *)
Theorem main_leaves_other_files args w path :
  (forall fig w0, files (snd (show fig w0)) = files w0) ->
  path <> path_join (arg_output args) "multichannel_plot.html" ->
  path <> path_join (arg_output args) "multichannel_plot.png" ->
  path <> path_join (arg_output args) "multichannel_plot.pdf" ->
  lookup path
         (files (snd (main parse_csv str_to_int str_to_float argsort format_3f repr_names to_html
                           render_image show args w)))
  = lookup path (files w).
Proof.
  intros Hshow Hhtml Hpng Hpdf.
  pose proof (load_data_keeps_files parse_csv str_to_int str_to_float argsort format_3f
                (arg_data args) (arg_step args) w) as L.
  destruct (load_data parse_csv str_to_int str_to_float argsort format_3f (arg_data args) (arg_step args) w)
    as [[table|e] w1] eqn:Hload; cbn [snd] in L.
  - pose proof (create_plot_keeps_files repr_names (arg_title args) (arg_ecg_units args)
                  (arg_channels args) (arg_initial_range args) (table, before_chart w1)) as K.
    destruct (create_plot repr_names (arg_title args) (arg_ecg_units args) (arg_channels args)
                          (arg_initial_range args) (table, before_chart w1))
      as [[fig|e] s2] eqn:Hchart; cbn [snd before_chart files] in K.
    + pose proof (save_plot_frame to_html render_image (add_zoom_controls fig)
                    (arg_output args) (snd s2) Hhtml Hpng Hpdf) as F.
      destruct (makedirs_error (arg_output args) (snd s2)) as [e0|] eqn:Hdir.
      { rewrite (@main_save_blocked parse_csv str_to_int str_to_float argsort format_3f repr_names
                   to_html render_image show args w table w1 fig s2 e0 Hload Hchart Hdir).
        now rewrite K, L. }
      destruct (@save_plot_returns_with_html to_html render_image (add_zoom_controls fig)
                  (arg_output args) (snd s2) Hdir) as [w3 [Hsave _]].
      rewrite Hsave in F. cbn [snd] in F. rewrite K, L in F.
      unfold main, try_except.
      rewrite (@bind_eval _ _ _ _ _ _ _ _ Hload).
      unfold bind at 1. unfold println at 1, print at 1. cbn [files stdout].
      fold (before_chart w1).
      unfold bind at 1. unfold with_table at 1. rewrite Hchart. cbn [fst snd]. cbv zeta.
      rewrite (@bind_eval _ _ _ _ _ _ _ _ Hsave).
      destruct (arg_show args).
      * unfold bind, println, print. cbn [files stdout].
        match goal with |- context [show ?f ?w0] =>
          pose proof (Hshow f w0) as S; destruct (show f w0) as [[[]|e] w4] end.
        -- cbn [snd files] in *. now rewrite S.
        -- cbn [snd files] in S. destruct e; cbn [snd files]; now rewrite S.
      * unfold println, print. cbn [snd files]. exact F.
    + rewrite (@main_chart_error parse_csv str_to_int str_to_float argsort format_3f repr_names
                 to_html render_image show args w table w1 e s2 Hload Hchart).
      reflexivity.
  - rewrite (@main_load_error parse_csv str_to_int str_to_float argsort format_3f repr_names
               to_html render_image show args w e w1 Hload).
    destruct e; cbn [snd files]; now rewrite L.
Qed.

End MainFrame.

Lemma flat_map_nil {A B} (f : A -> list B) l :
  (forall x, In x l -> f x = []) -> flat_map f l = [].
Proof.
  induction l as [|x l IH]; intros H; simpl; [reflexivity|].
  rewrite (H x (or_introl eq_refl)), IH; [reflexivity|].
  intros y Hy. apply H. now right.
Qed.

Lemma contains_filter_kept ch l :
  kept ch = true -> contains ch (filter kept l) = contains ch l.
Proof.
  intros Hk. apply Bool.eq_iff_eq_true. rewrite !contains_In, filter_In. tauto.
Qed.

Section MainEmpty.

Variable parse_csv : string -> result DataFrame.
Variable str_to_int : string -> option Z.
Variable str_to_float : string -> float.
Variable argsort : list cell -> list nat.
Variable format_3f : float -> string.
Variable repr_names : list string -> string.
Variable to_html : Figure -> string.
Variable render_image : Figure -> string -> Z -> Z -> option Z -> result string.
Variable show : Figure -> M World unit.

Lemma main_chart_raises args w table w1 m s2 :
  load_data parse_csv str_to_int str_to_float argsort format_3f (arg_data args) (arg_step args) w
  = (Ok table, w1) ->
  create_plot repr_names (arg_title args) (arg_ecg_units args) (arg_channels args)
              (arg_initial_range args) (table, before_chart w1) = (Raise (ValueError m), s2) ->
  main parse_csv str_to_int str_to_float argsort format_3f repr_names to_html render_image show args w
  = (Ok tt, {| files := files (snd s2);
               stdout := stdout (snd s2)
                         ++ [("Error: " ++ m)%string;
                             "Please check your data format and try again."%string] |}).
Proof.
  intros Hload Hchart.
  unfold main, try_except.
  rewrite (@bind_eval _ _ _ _ _ _ _ _ Hload).
  unfold bind at 1. unfold println at 1, print at 1. cbn [files stdout].
  fold (before_chart w1).
  unfold bind at 1. unfold with_table at 1. rewrite Hchart. cbn [fst snd].
  unfold bind, println, print. cbn [files stdout exception_text].
  now rewrite <- app_assoc.
Qed.

(** X21.  A recording without a single readable [Time] (a file with a
    header and no data rows, for one) that has an ECG column to draw still
    loads, as an empty table; charting it then fails on the ECG axis range,
    and [main] ends by printing that error and the hint about the data
    format, with no file written. *)
Theorem main_reports_empty_recording args w raw :
  argsort_permutes argsort ->
  reads parse_csv w (arg_data args) raw ->
  contains "Time" (columns raw) = true ->
  rectangular raw ->
  filter notna (converted_time str_to_int str_to_float raw) = [] ->
  available ecg_channels (arg_channels args) raw <> [] ->
  exists table w1 out,
    load_data parse_csv str_to_int str_to_float argsort format_3f (arg_data args) (arg_step args) w
    = (Ok table, w1) /\
    nrows table = 0 /\
    main parse_csv str_to_int str_to_float argsort format_3f repr_names to_html render_image show args w
    = (Ok tt,
       {| files := files w;
          stdout := out
                    ++ ["Error: zero-size array to reduction operation minimum which has no identity"%string;
                        "Please check your data format and try again."%string] |}).
Proof.
  intros Hperm Hreads HT Hrect Hempty Hecg.
  destruct (@load_data_table parse_csv str_to_int str_to_float argsort format_3f w (arg_data args) raw
              (arg_step args) Hperm Hreads HT Hrect)
    as [table [w1 [Hload [Hrows [_ [Hr [Hcols Hnum]]]]]]].
  assert (H0 : nrows table = 0).
  { rewrite Hrows, Hempty. cbn [length]. apply Nat.div_small. lia. }
  assert (HT' : In "Time"%string (columns table)).
  { rewrite Hcols. apply filter_In. split; [now apply contains_In | reflexivity]. }
  assert (Hav : available ecg_channels (arg_channels args) table
                = available ecg_channels (arg_channels args) raw).
  { rewrite !available_filter. apply filter_ext_in. intros ch Hch.
    unfold charted. f_equal. rewrite Hcols. apply contains_filter_kept.
    destruct Hch as [<-|[<-|[]]]; reflexivity. }
  assert (Hs : ecg_samples (arg_ecg_units args) (arg_channels args) table = []).
  { unfold ecg_samples. apply flat_map_nil. intros ch _.
    destruct (lookup ch (data table)) as [col|] eqn:Ec; [|reflexivity].
    apply Hr in Ec. rewrite H0 in Ec. apply length_zero_iff_nil in Ec. subst col.
    unfold rendered_ecg. now destruct (String.eqb (arg_ecg_units args) "mv"). }
  rewrite <- Hav in Hecg.
  pose proof (proj1 (@create_plot_outcome repr_names (arg_title args) (arg_ecg_units args)
                       (arg_channels args) (arg_initial_range args) table (before_chart w1)
                       Hnum HT') Hecg Hs) as Hraise.
  pose proof (create_plot_keeps_files repr_names (arg_title args) (arg_ecg_units args)
                (arg_channels args) (arg_initial_range args) (table, before_chart w1)) as K.
  destruct (create_plot repr_names (arg_title args) (arg_ecg_units args) (arg_channels args)
                        (arg_initial_range args) (table, before_chart w1))
    as [r s2] eqn:Hchart.
  cbn [fst snd before_chart files] in Hraise, K. subst r.
  pose proof (load_data_keeps_files parse_csv str_to_int str_to_float argsort format_3f
                (arg_data args) (arg_step args) w) as L.
  rewrite Hload in L. cbn [snd] in L.
  exists table, w1, (stdout (snd s2)). split; [exact Hload|]. split; [exact H0|].
  rewrite (@main_chart_raises args w table w1 _ s2 Hload Hchart).
  now rewrite K, L.
Qed.

End MainEmpty.

(** ** Runs of the further properties *)

Ltac by_columns tac :=
  let H := fresh "H" in
  intros ? ? H; simpl in H;
  repeat match type of H with
         | (if ?b then _ else _) = _ => destruct b; [injection H as <-; tac|]
         end;
  discriminate.

Lemma demo_plot_run :
  create_plot demo_repr "Recording" "mv" None None (ecg_table, demo_world)
  = (Ok demo_figure, demo_plot_state).
Proof. vm_compute. reflexivity. Qed.

Lemma ecg_reads : reads demo_parse demo_world "ecg.csv" ecg_raw.
Proof. exists ecg_text. split; reflexivity. Qed.

Lemma header_reads : reads header_parse header_world "empty.csv" header_raw.
Proof. exists header_text. split; reflexivity. Qed.

Lemma demo_raw_rectangular : rectangular demo_raw.
Proof. by_columns reflexivity. Qed.

Lemma ecg_raw_rectangular : rectangular ecg_raw.
Proof. by_columns reflexivity. Qed.

Lemma header_raw_rectangular : rectangular header_raw.
Proof. by_columns reflexivity. Qed.

Lemma header_raw_numeric : numeric header_raw.
Proof. by_columns ltac:(repeat constructor). Qed.

Lemma untimed_raw_numeric : numeric untimed_raw.
Proof. by_columns ltac:(repeat constructor). Qed.

Lemma outside_output (file : string) :
  String.eqb "rec.csv" (path_join "out" file) = false -> "rec.csv"%string <> path_join "out" file.
Proof. intros H E. rewrite <- E, String.eqb_refl in H. discriminate. Qed.

Lemma save_plot_writes_three_documents_witness :
  exists w',
    save_plot demo_html demo_render demo_figure "out" demo_world = (Ok tt, w') /\
    lookup (path_join "out" "multichannel_plot.html") (files w') = Some (demo_html demo_figure) /\
    lookup (path_join "out" "multichannel_plot.png") (files w') = Some "image of Recording"%string /\
    lookup (path_join "out" "multichannel_plot.pdf") (files w') = Some "image of Recording"%string /\
    stdout w' = stdout demo_world
                ++ [("Interactive plot saved to: "
                     ++ path_join "out" "multichannel_plot.html")%string;
                    ("Static plot saved to: "
                     ++ path_join "out" "multichannel_plot.png")%string;
                    ("PDF plot saved to: "
                     ++ path_join "out" "multichannel_plot.pdf")%string].
Proof.
  apply (@save_plot_writes_three_documents demo_html demo_render demo_figure "out" demo_world
           "image of Recording" "image of Recording"); vm_compute; reflexivity.
Defined.

Lemma save_plot_raster_failure_skips_vector_witness :
  exists w',
    save_plot demo_html no_backend demo_figure "out" demo_world = (Ok tt, w') /\
    files w' = (path_join "out" "multichannel_plot.html", demo_html demo_figure)
               :: files demo_world /\
    lookup (path_join "out" "multichannel_plot.png") (files w')
    = lookup (path_join "out" "multichannel_plot.png") (files demo_world) /\
    lookup (path_join "out" "multichannel_plot.pdf") (files w')
    = lookup (path_join "out" "multichannel_plot.pdf") (files demo_world).
Proof.
  apply (@save_plot_raster_failure_skips_vector demo_html no_backend demo_figure "out"
           demo_world (ValueError "kaleido is not installed")); reflexivity.
Defined.

Lemma save_plot_vector_failure_keeps_raster_witness :
  exists w',
    save_plot demo_html raster_only demo_figure "out" demo_world = (Ok tt, w') /\
    lookup (path_join "out" "multichannel_plot.png") (files w') = Some "raster"%string /\
    lookup (path_join "out" "multichannel_plot.html") (files w') = Some (demo_html demo_figure) /\
    lookup (path_join "out" "multichannel_plot.pdf") (files w')
    = lookup (path_join "out" "multichannel_plot.pdf") (files demo_world) /\
    In ("Static plot saved to: " ++ path_join "out" "multichannel_plot.png")%string
       (stdout w') /\
    In "To enable static exports, install: pip install --upgrade kaleido"%string (stdout w').
Proof.
  apply (@save_plot_vector_failure_keeps_raster demo_html raster_only demo_figure "out"
           demo_world "raster" (ValueError "vector export failed")); reflexivity.
Defined.

Lemma save_plot_leaves_other_files_witness :
  lookup "rec.csv" (files (snd (save_plot demo_html demo_render demo_figure "out" demo_world)))
  = lookup "rec.csv" (files demo_world).
Proof.
  apply (@save_plot_leaves_other_files demo_html demo_render demo_figure "out" demo_world
           "rec.csv"); apply outside_output; vm_compute; reflexivity.
Defined.

Lemma main_reports_missing_file_witness :
  main demo_parse demo_int demo_float stable_argsort demo_format demo_repr demo_html demo_render
       demo_show (demo_args "absent.csv") demo_world
  = (Ok tt,
     {| files := files demo_world;
        stdout := stdout demo_world
                  ++ ["Loading data from: absent.csv"%string;
                      "Error: Data file 'absent.csv' not found."%string;
                      "Please check the file path and try again."%string] |}).
Proof.
  apply (@main_reports_missing_file demo_parse demo_int demo_float stable_argsort demo_format demo_repr
           demo_html demo_render demo_show (demo_args "absent.csv") demo_world).
  reflexivity.
Defined.

Lemma main_reports_missing_time_witness :
  main demo_parse demo_int demo_float stable_argsort demo_format demo_repr demo_html demo_render
       demo_show (demo_args "untimed.csv") demo_world
  = (Ok tt,
     {| files := files demo_world;
        stdout := stdout demo_world
                  ++ ["Loading data from: untimed.csv"%string;
                      "Error: Expected a 'Time' column (seconds)."%string;
                      "Please check your data format and try again."%string] |}).
Proof.
  apply (@main_reports_missing_time demo_parse demo_int demo_float stable_argsort demo_format demo_repr
           demo_html demo_render demo_show (demo_args "untimed.csv") demo_world untimed_raw).
  - exact untimed_reads.
  - exact untimed_has_no_time.
Defined.

Lemma main_writes_interactive_document_witness :
  exists table w1 fig s2 w',
    load_data demo_parse demo_int demo_float stable_argsort demo_format "ecg.csv" 1 demo_world
    = (Ok table, w1) /\
    create_plot demo_repr "Recording" "mv" None None (table, before_chart w1) = (Ok fig, s2) /\
    main demo_parse demo_int demo_float stable_argsort demo_format demo_repr demo_html demo_render
         demo_show (demo_args "ecg.csv") demo_world
    = (Ok tt, w') /\
    lookup (path_join "out" "multichannel_plot.html") (files w')
    = Some (demo_html (add_zoom_controls fig)).
Proof.
  apply (@main_writes_interactive_document demo_parse demo_int demo_float stable_argsort demo_format
           demo_repr demo_html demo_render demo_show (demo_args "ecg.csv") demo_world ecg_raw).
  - apply insertion_argsort_permutes.
  - exact ecg_reads.
  - reflexivity.
  - exact ecg_raw_rectangular.
  - vm_compute. discriminate.
  - reflexivity.
  - reflexivity.
Defined.

Lemma main_writes_nothing_or_the_document_witness :
  files (snd (main demo_parse demo_int demo_float stable_argsort demo_format demo_repr demo_html
                   demo_render demo_show (demo_args "ecg.csv") demo_world))
  = files demo_world
  \/ exists fig,
       lookup (path_join "out" "multichannel_plot.html")
              (files (snd (main demo_parse demo_int demo_float stable_argsort demo_format demo_repr
                                demo_html demo_render demo_show (demo_args "ecg.csv")
                                demo_world)))
       = Some (demo_html fig).
Proof.
  apply (@main_writes_nothing_or_the_document demo_parse demo_int demo_float stable_argsort demo_format
           demo_repr demo_html demo_render demo_show (demo_args "ecg.csv") demo_world).
  reflexivity.
Defined.

Lemma create_plot_eeg_traces_raw_witness :
  Forall2 (fun ic tr =>
             tr_name tr = snd ic /\
             getitem ecg_table (snd ic) = Ok (tr_y tr) /\
             tr_color tr = color_at (fst ic) /\
             tr_row tr = 1 /\ tr_secondary_y tr = false)
          (enumerate (available eeg_channels None ecg_table))
          (filter is_eeg_trace (fig_traces demo_figure)).
Proof.
  exact (@create_plot_eeg_traces_raw demo_repr "Recording" "mv" None None ecg_table demo_world
           demo_figure demo_plot_state demo_plot_run).
Defined.

Lemma create_plot_cm_trace_witness :
  Forall2 (fun ch tr =>
             tr_name tr = ch /\
             (exists col, getitem ecg_table ch = Ok col /\ tr_y tr = rendered_ecg "mv" col) /\
             tr_color tr = "lightgray"%string /\
             tr_row tr = 2 /\ tr_secondary_y tr = true)
          (available cm_channels None ecg_table)
          (filter is_cm_trace (fig_traces demo_figure)).
Proof.
  exact (@create_plot_cm_trace demo_repr "Recording" "mv" None None ecg_table demo_world
           demo_figure demo_plot_state demo_plot_run).
Defined.

Lemma create_plot_shared_time_axis_witness :
  Forall (fun tr => getitem ecg_table "Time" = Ok (tr_x tr) /\
                    (tr_webgl tr = true <-> (10000 < Z.of_nat (nrows ecg_table))%Z))
         (fig_traces demo_figure).
Proof.
  exact (@create_plot_shared_time_axis demo_repr "Recording" "mv" None None ecg_table
           demo_world demo_figure demo_plot_state demo_plot_run).
Defined.

Lemma create_plot_trace_names_witness :
  map tr_name (fig_traces demo_figure)
  = filter (charted None ecg_table) (eeg_channels ++ ecg_channels ++ cm_channels) /\
  NoDup (map tr_name (fig_traces demo_figure)).
Proof.
  exact (@create_plot_trace_names demo_repr "Recording" "mv" None None ecg_table demo_world
           demo_figure demo_plot_state demo_plot_run).
Defined.

Lemma create_plot_axis_labels_witness :
  fig_title demo_figure = "Recording"%string /\
  fig_xrange demo_figure = None /\
  fig_subplot_titles demo_figure
  = ("EEG Channels (uV)"%string,
     if String.eqb "mv" "mv" then "ECG and CM (mV)"%string else "ECG and CM (uV)"%string) /\
  fig_ecg_axis_title demo_figure
  = (if String.eqb "mv" "mv" then "ECG (mV)"%string else "ECG (uV)"%string) /\
  fig_cm_axis_title demo_figure
  = (if String.eqb "mv" "mv" && nonempty (available cm_channels None ecg_table)
     then "CM (mV)"%string else "CM (uV)"%string).
Proof.
  exact (@create_plot_axis_labels demo_repr "Recording" "mv" None None ecg_table demo_world
           demo_figure demo_plot_state demo_plot_run).
Defined.

Lemma create_plot_ecg_axis_range_witness :
  match fig_ecg_range demo_figure with
  | None => available ecg_channels None ecg_table = []
  | Some (lo, hi) =>
      available ecg_channels None ecg_table <> [] /\
      Forall is_num (concat (ecg_rendered "mv" None ecg_table)) /\
      (forall zs, concat (ecg_rendered "mv" None ecg_table) = map Int zs ->
         "mv"%string <> "mv"%string /\
         exists mn mx,
           np_min_int zs = Ok mn /\ np_max_int zs = Ok mx /\
           lo = (float_of_Z mn - float_of_Z (wrap_int64 (mx - mn)) * 0.1)%float /\
           hi = (float_of_Z mx + float_of_Z (wrap_int64 (mx - mn)) * 0.1)%float) /\
      (~ Forall is_int (concat (ecg_rendered "mv" None ecg_table)) ->
         exists mn mx,
           np_min (map key_of (concat (ecg_rendered "mv" None ecg_table))) = Ok mn /\
           np_max (map key_of (concat (ecg_rendered "mv" None ecg_table))) = Ok mx /\
           lo = (mn - (mx - mn) * 0.1)%float /\
           hi = (mx + (mx - mn) * 0.1)%float)
  end.
Proof.
  exact (@create_plot_ecg_axis_range demo_repr "Recording" "mv" None None ecg_table demo_world
           demo_figure demo_plot_state demo_plot_run).
Defined.

(** The ECG axis of [ecg.csv]: in microvolts the samples are the integers
    1500 and -250, in millivolts the floats 1.5 and -0.25. *)
Example ecg_axis_range_in_each_mode :
  match fst (create_plot demo_repr "Recording" "uv" None None (ecg_table, demo_world)) with
  | Ok fig => fig_ecg_range fig
  | Raise _ => None
  end = Some ((-425)%float, 1675%float)
  /\ fig_ecg_range demo_figure = Some ((-0.42500000000000004)%float, 1.675%float).
Proof. split; vm_compute; reflexivity. Qed.

(** On integer samples the extent is taken in int64 and wraps around: for
    the samples 9e18 and -9e18 the difference 1.8e19 wraps to about
    -4.47e17, so the range comes out narrower than the samples. *)
Example ecg_axis_range_wraps :
  wrap_int64 (9000000000000000000 - (-9000000000000000000)) = (-446744073709551616)%Z
  /\ match fst (create_plot demo_repr "Recording" "uv" None None (wide_table, demo_world)) with
     | Ok fig => fig_ecg_range fig
     | Raise _ => None
     end = Some ((-8.9553255926290452e+18)%float, 8.9553255926290452e+18%float).
Proof. split; vm_compute; reflexivity. Qed.

Lemma ecg_table_numeric : numeric ecg_table.
Proof. by_columns ltac:(repeat constructor). Qed.

Lemma create_plot_table_effect_witness :
  exists col,
    lookup "X1:LEOG" (data ecg_table) = Some col /\
    lookup (mv_name "X1:LEOG")
           (data (fst (snd (create_plot demo_repr "Recording" "mv" None None
                                        (ecg_table, demo_world)))))
    = Some (in_millivolts col).
Proof.
  apply (proj2 (proj2 (@create_plot_table_effect demo_repr "Recording" "mv" None None
                         ecg_table demo_world)) eq_refl ecg_table_numeric).
  left. vm_compute. now left.
Defined.

Lemma create_plot_fails_only_without_ecg_values_witness :
  fst (create_plot demo_repr "Recording" "mv" None None (header_raw, demo_world))
  = Raise (ValueError "zero-size array to reduction operation minimum which has no identity").
Proof.
  apply (proj1 (@create_plot_fails_only_without_ecg_values demo_repr "Recording" "mv" None None
                  header_raw demo_world header_raw_numeric
                  ltac:(simpl; auto))).
  - vm_compute. discriminate.
  - reflexivity.
Defined.

Lemma create_plot_without_time_witness :
  fst (create_plot demo_repr "Recording" "mv" None None (untimed_raw, demo_world))
  = Raise (KeyError "Time").
Proof.
  apply (@create_plot_without_time demo_repr "Recording" "mv" None None untimed_raw demo_world).
  - exact untimed_raw_numeric.
  - exact untimed_has_no_time.
  - vm_compute. discriminate.
Defined.

Lemma load_data_shape_witness :
  exists table w',
    load_data demo_parse demo_int demo_float stable_argsort demo_format "rec.csv" 2 demo_world
    = (Ok table, w') /\
    nrows table
    = (length (filter notna (converted_time demo_int demo_float demo_raw))
       + Z.to_nat (Z.max 2 1) - 1) / Z.to_nat (Z.max 2 1) /\
    ncols table = length (filter kept (columns demo_raw)) /\
    rectangular table.
Proof.
  apply (@load_data_shape demo_parse demo_int demo_float stable_argsort demo_format demo_world
           "rec.csv" demo_raw 2).
  - apply insertion_argsort_permutes.
  - exact demo_reads.
  - reflexivity.
  - exact demo_raw_rectangular.
Defined.

Lemma load_data_report_witness :
  exists table w' time,
    load_data demo_parse demo_int demo_float stable_argsort demo_format "rec.csv" 2 demo_world
    = (Ok table, w') /\
    getitem table "Time" = Ok time /\
    stdout w'
    = stdout demo_world
      ++ ["Loading data from: rec.csv"%string]
      ++ (if (2 >? 1)%Z then [("Downsampled by factor " ++ str_of_Z 2)%string] else [])
      ++ ["Data loaded successfully!"%string;
          ("Shape: (" ++ str_of_nat (nrows table) ++ ", "
                      ++ str_of_nat (ncols table) ++ ")")%string;
          ("Time range: " ++ demo_format (series_min time) ++ "s to "
                          ++ demo_format (series_max time) ++ "s")%string].
Proof.
  apply (@load_data_report demo_parse demo_int demo_float stable_argsort demo_format demo_world
           "rec.csv" demo_raw 2).
  - exact demo_reads.
  - reflexivity.
Defined.

Lemma main_leaves_other_files_witness :
  lookup "rec.csv"
         (files (snd (main demo_parse demo_int demo_float stable_argsort demo_format demo_repr demo_html
                           demo_render demo_show (demo_args "rec.csv") demo_world)))
  = lookup "rec.csv" (files demo_world).
Proof.
  apply (@main_leaves_other_files demo_parse demo_int demo_float stable_argsort demo_format demo_repr
           demo_html demo_render demo_show (demo_args "rec.csv") demo_world "rec.csv").
  - intros fig w0. reflexivity.
  - apply outside_output. vm_compute. reflexivity.
  - apply outside_output. vm_compute. reflexivity.
  - apply outside_output. vm_compute. reflexivity.
Defined.

Lemma main_reports_empty_recording_witness :
  exists table w1 out,
    load_data header_parse demo_int demo_float stable_argsort demo_format "empty.csv" 1 header_world
    = (Ok table, w1) /\
    nrows table = 0 /\
    main header_parse demo_int demo_float stable_argsort demo_format demo_repr demo_html demo_render
         demo_show (demo_args "empty.csv") header_world
    = (Ok tt,
       {| files := files header_world;
          stdout := out
                    ++ ["Error: zero-size array to reduction operation minimum which has no identity"%string;
                        "Please check your data format and try again."%string] |}).
Proof.
  apply (@main_reports_empty_recording header_parse demo_int demo_float stable_argsort demo_format
           demo_repr demo_html demo_render demo_show (demo_args "empty.csv") header_world
           header_raw).
  - apply insertion_argsort_permutes.
  - exact header_reads.
  - reflexivity.
  - exact header_raw_rectangular.
  - reflexivity.
  - vm_compute. discriminate.
Defined.
